(** * Bulk USB transport of the Switch 2 HIDAPI driver

    A shallow embedding of [src/joystick/hidapi/SDL_hidapi_switch2_usb.h]
    and the properties of its endpoint discovery, chunked reads, writes,
    [Open] and [Close].

    Conventions of the embedding.
    - C integers are [Z]; the wrap-around of [unsigned]/[ULONG] (32 bits)
      and the conversion to [int] are written out with [u32] and [i32].
    - Pointers are [option] values, [None] being [NULL]; a Win32 [HANDLE]
      is a value of the type [HANDLE] below.
    - The C arrays of a descriptor ([interface], [altsetting], [endpoint])
      are lists; the count fields ([bNumInterfaces], [num_altsetting],
      [bNumEndpoints]) are their lengths.
    - Calls into libusb, WinUSB and SDL are recorded, in program order, as
      a list of [call]s; what those collaborators answer is an argument of
      the embedded function.
    - A loop whose number of iterations depends on those answers takes an
      iteration budget ([fuel]) and returns [None] when the budget runs out
      before the loop ends.
    - [Write] and [Read] dereference [bulk->libusb] or the WinUSB handle
      without a test; they are embedded for contexts [Open] succeeded on.
    - Constants that come from [libusb.h] and the Windows headers, and the
      compile-time switch [SDL_PLATFORM_WIN32], are fields of the class
      [Headers]; nothing is assumed about their values. *)

From Stdlib Require Import ZArith List Bool Lia String Ascii Sorted Permutation.
Import ListNotations.
Open Scope Z_scope.

(** ** Machine integers *)

Definition u32 (x : Z) : Z := x mod 2 ^ 32.

Definition i32 (x : Z) : Z :=
  let r := x mod 2 ^ 32 in if r <? 2 ^ 31 then r else r - 2 ^ 32.

Definition INT_MAX : Z := 2 ^ 31 - 1.

(** ** Header constants (not part of the file under study) *)

Class Headers : Type := {
  SDL_PLATFORM_WIN32 : bool;
  LIBUSB_TRANSFER_TYPE_MASK : Z;
  LIBUSB_TRANSFER_TYPE_BULK : Z;
  LIBUSB_ENDPOINT_DIR_MASK : Z;
  LIBUSB_ENDPOINT_OUT : Z;
  LIBUSB_ENDPOINT_IN : Z;
  ERROR_IO_PENDING : Z;
  WAIT_OBJECT_0 : Z
}.

(** The values these names have in libusb 1.0 and in the Windows SDK; used
    for the concrete runs only. *)
Definition headers (win32 : bool) : Headers := {|
  SDL_PLATFORM_WIN32 := win32;
  LIBUSB_TRANSFER_TYPE_MASK := 3;
  LIBUSB_TRANSFER_TYPE_BULK := 2;
  LIBUSB_ENDPOINT_DIR_MASK := 128;
  LIBUSB_ENDPOINT_OUT := 0;
  LIBUSB_ENDPOINT_IN := 128;
  ERROR_IO_PENDING := 997;
  WAIT_OBJECT_0 := 0
|}.

(** ** USB configuration descriptors *)

Record libusb_endpoint_descriptor : Type := {
  bEndpointAddress : Z;
  bmAttributes : Z
}.

Record libusb_interface_descriptor : Type := {
  bInterfaceNumber : Z;
  endpoint : list libusb_endpoint_descriptor
}.

Record libusb_interface : Type := {
  altsetting : list libusb_interface_descriptor
}.

Record libusb_config_descriptor : Type := {
  interface : list libusb_interface
}.

(** ** Control flow of a loop body that may [return] *)

Inductive flow (A : Type) : Type :=
| Continue (s : A)
| Return (s : A).
Arguments Continue {A} s.
Arguments Return {A} s.

(** ** Endpoint discovery *)

(** The local [found] and the three out-parameters of
    [Switch2_BulkUSB_FindEndpoints]. *)
Record scan : Type := {
  found : Z;
  iface_num : Z;
  out_ep : Z;
  in_ep : Z
}.

Section Discovery.
Context {hdr : Headers}.

Definition is_bulk (ep : libusb_endpoint_descriptor) : bool :=
  Z.land (bmAttributes ep) LIBUSB_TRANSFER_TYPE_MASK =? LIBUSB_TRANSFER_TYPE_BULK.

Definition is_out (ep : libusb_endpoint_descriptor) : bool :=
  Z.land (bEndpointAddress ep) LIBUSB_ENDPOINT_DIR_MASK =? LIBUSB_ENDPOINT_OUT.

Definition is_in (ep : libusb_endpoint_descriptor) : bool :=
  Z.land (bEndpointAddress ep) LIBUSB_ENDPOINT_DIR_MASK =? LIBUSB_ENDPOINT_IN.

(** The three assignments guarded by the bulk test, before [found == 3]. *)
Definition record_endpoint (number : Z) (ep : libusb_endpoint_descriptor)
    (s : scan) : scan :=
  let s1 := {| found := found s; iface_num := number;
               out_ep := out_ep s; in_ep := in_ep s |} in
  let s2 := if is_out ep
            then {| found := Z.lor (found s1) 1; iface_num := iface_num s1;
                    out_ep := bEndpointAddress ep; in_ep := in_ep s1 |}
            else s1 in
  if is_in ep
  then {| found := Z.lor (found s2) 2; iface_num := iface_num s2;
          out_ep := out_ep s2; in_ep := bEndpointAddress ep |}
  else s2.

(** Loop over [k]. *)
Fixpoint scan_endpoints (number : Z) (eps : list libusb_endpoint_descriptor)
    (s : scan) : flow scan :=
  match eps with
  | [] => Continue s
  | ep :: rest =>
      if is_bulk ep then
        let s' := record_endpoint number ep s in
        if found s' =? 3 then Return s' else scan_endpoints number rest s'
      else scan_endpoints number rest s
  end.

(** Loop over [j]. *)
Fixpoint scan_altsettings (alts : list libusb_interface_descriptor)
    (s : scan) : flow scan :=
  match alts with
  | [] => Continue s
  | alt :: rest =>
      if bInterfaceNumber alt =? 1 then
        match scan_endpoints (bInterfaceNumber alt) (endpoint alt) s with
        | Return s' => Return s'
        | Continue s' => scan_altsettings rest s'
        end
      else scan_altsettings rest s
  end.

(** Loop over [i]. *)
Fixpoint scan_interfaces (ifaces : list libusb_interface) (s : scan)
    : flow scan :=
  match ifaces with
  | [] => Continue s
  | iface :: rest =>
      match scan_altsettings (altsetting iface) s with
      | Return s' => Return s'
      | Continue s' => scan_interfaces rest s'
      end
  end.

(** [config] is what [get_config_descriptor] delivered ([None] when it
    returned non-zero); [n], [o], [i] are the values [*iface_num],
    [*out_ep], [*in_ep] hold on entry.  The result carries their values on
    exit. *)
Definition Switch2_BulkUSB_FindEndpoints
    (config : option libusb_config_descriptor) (n o i : Z)
    : bool * (Z * Z * Z) :=
  match config with
  | None => (false, (n, o, i))
  | Some cfg =>
      match scan_interfaces (interface cfg)
              {| found := 0; iface_num := n; out_ep := o; in_ep := i |} with
      | Return s => (true, (iface_num s, out_ep s, in_ep s))
      | Continue s => (false, (iface_num s, out_ep s, in_ep s))
      end
  end.

(** *** Specification vocabulary *)

(** All endpoints carried by alternate settings numbered 1, in the order in
    which the descriptor lists them. *)
Definition interface1_endpoints (cfg : libusb_config_descriptor)
    : list libusb_endpoint_descriptor :=
  flat_map
    (fun iface =>
       flat_map
         (fun alt => if bInterfaceNumber alt =? 1 then endpoint alt else [])
         (altsetting iface))
    (interface cfg).

Definition bulk_out (ep : libusb_endpoint_descriptor) : bool :=
  is_bulk ep && is_out ep.

Definition bulk_in (ep : libusb_endpoint_descriptor) : bool :=
  is_bulk ep && is_in ep.

End Discovery.

(** ** Pointers, handles and the transport context *)

Definition address : Type := nat.

(** A C pointer: [None] is [NULL]. *)
Definition pointer : Type := option address.

Definition non_null (p : pointer) : bool :=
  match p with Some _ => true | None => false end.

(** A Win32 [HANDLE] with its two distinguished values. *)
Inductive HANDLE : Type :=
| NULL_HANDLE
| INVALID_HANDLE_VALUE
| Handle (a : address).

Record Switch2_BulkUSB : Type := {
  libusb : pointer;
  device_handle : pointer;
  owns_device_handle : bool;
  libusb_ctx : pointer;
  interface_claimed : bool;
  interface_number : Z;
  out_endpoint : Z;
  in_endpoint : Z;
  winusb_file_handle : HANDLE;
  winusb_handle : pointer;
  winusb_out_pipe : Z;
  winusb_in_pipe : Z;
  use_winusb : bool
}.

Definition set_libusb (v : pointer) (b : Switch2_BulkUSB) : Switch2_BulkUSB :=
  {| libusb := v; device_handle := device_handle b;
     owns_device_handle := owns_device_handle b; libusb_ctx := libusb_ctx b;
     interface_claimed := interface_claimed b;
     interface_number := interface_number b; out_endpoint := out_endpoint b;
     in_endpoint := in_endpoint b; winusb_file_handle := winusb_file_handle b;
     winusb_handle := winusb_handle b; winusb_out_pipe := winusb_out_pipe b;
     winusb_in_pipe := winusb_in_pipe b; use_winusb := use_winusb b |}.

Definition set_device_handle (v : pointer) (b : Switch2_BulkUSB)
    : Switch2_BulkUSB :=
  {| libusb := libusb b; device_handle := v;
     owns_device_handle := owns_device_handle b; libusb_ctx := libusb_ctx b;
     interface_claimed := interface_claimed b;
     interface_number := interface_number b; out_endpoint := out_endpoint b;
     in_endpoint := in_endpoint b; winusb_file_handle := winusb_file_handle b;
     winusb_handle := winusb_handle b; winusb_out_pipe := winusb_out_pipe b;
     winusb_in_pipe := winusb_in_pipe b; use_winusb := use_winusb b |}.

Definition set_owns_device_handle (v : bool) (b : Switch2_BulkUSB)
    : Switch2_BulkUSB :=
  {| libusb := libusb b; device_handle := device_handle b;
     owns_device_handle := v; libusb_ctx := libusb_ctx b;
     interface_claimed := interface_claimed b;
     interface_number := interface_number b; out_endpoint := out_endpoint b;
     in_endpoint := in_endpoint b; winusb_file_handle := winusb_file_handle b;
     winusb_handle := winusb_handle b; winusb_out_pipe := winusb_out_pipe b;
     winusb_in_pipe := winusb_in_pipe b; use_winusb := use_winusb b |}.

Definition set_libusb_ctx (v : pointer) (b : Switch2_BulkUSB)
    : Switch2_BulkUSB :=
  {| libusb := libusb b; device_handle := device_handle b;
     owns_device_handle := owns_device_handle b; libusb_ctx := v;
     interface_claimed := interface_claimed b;
     interface_number := interface_number b; out_endpoint := out_endpoint b;
     in_endpoint := in_endpoint b; winusb_file_handle := winusb_file_handle b;
     winusb_handle := winusb_handle b; winusb_out_pipe := winusb_out_pipe b;
     winusb_in_pipe := winusb_in_pipe b; use_winusb := use_winusb b |}.

Definition set_interface_claimed (v : bool) (b : Switch2_BulkUSB)
    : Switch2_BulkUSB :=
  {| libusb := libusb b; device_handle := device_handle b;
     owns_device_handle := owns_device_handle b; libusb_ctx := libusb_ctx b;
     interface_claimed := v;
     interface_number := interface_number b; out_endpoint := out_endpoint b;
     in_endpoint := in_endpoint b; winusb_file_handle := winusb_file_handle b;
     winusb_handle := winusb_handle b; winusb_out_pipe := winusb_out_pipe b;
     winusb_in_pipe := winusb_in_pipe b; use_winusb := use_winusb b |}.

(** The three fields [Switch2_BulkUSB_Open] passes by address to endpoint
    discovery. *)
Definition set_endpoints (v : Z * Z * Z) (b : Switch2_BulkUSB)
    : Switch2_BulkUSB :=
  let '(n, o, i) := v in
  {| libusb := libusb b; device_handle := device_handle b;
     owns_device_handle := owns_device_handle b; libusb_ctx := libusb_ctx b;
     interface_claimed := interface_claimed b;
     interface_number := n; out_endpoint := o;
     in_endpoint := i; winusb_file_handle := winusb_file_handle b;
     winusb_handle := winusb_handle b; winusb_out_pipe := winusb_out_pipe b;
     winusb_in_pipe := winusb_in_pipe b; use_winusb := use_winusb b |}.

Definition set_winusb_file_handle (v : HANDLE) (b : Switch2_BulkUSB)
    : Switch2_BulkUSB :=
  {| libusb := libusb b; device_handle := device_handle b;
     owns_device_handle := owns_device_handle b; libusb_ctx := libusb_ctx b;
     interface_claimed := interface_claimed b;
     interface_number := interface_number b; out_endpoint := out_endpoint b;
     in_endpoint := in_endpoint b; winusb_file_handle := v;
     winusb_handle := winusb_handle b; winusb_out_pipe := winusb_out_pipe b;
     winusb_in_pipe := winusb_in_pipe b; use_winusb := use_winusb b |}.

Definition set_winusb_handle (v : pointer) (b : Switch2_BulkUSB)
    : Switch2_BulkUSB :=
  {| libusb := libusb b; device_handle := device_handle b;
     owns_device_handle := owns_device_handle b; libusb_ctx := libusb_ctx b;
     interface_claimed := interface_claimed b;
     interface_number := interface_number b; out_endpoint := out_endpoint b;
     in_endpoint := in_endpoint b; winusb_file_handle := winusb_file_handle b;
     winusb_handle := v; winusb_out_pipe := winusb_out_pipe b;
     winusb_in_pipe := winusb_in_pipe b; use_winusb := use_winusb b |}.

Definition set_winusb_pipes (o i : Z) (b : Switch2_BulkUSB)
    : Switch2_BulkUSB :=
  {| libusb := libusb b; device_handle := device_handle b;
     owns_device_handle := owns_device_handle b; libusb_ctx := libusb_ctx b;
     interface_claimed := interface_claimed b;
     interface_number := interface_number b; out_endpoint := out_endpoint b;
     in_endpoint := in_endpoint b; winusb_file_handle := winusb_file_handle b;
     winusb_handle := winusb_handle b; winusb_out_pipe := o;
     winusb_in_pipe := i; use_winusb := use_winusb b |}.

Definition set_use_winusb (v : bool) (b : Switch2_BulkUSB)
    : Switch2_BulkUSB :=
  {| libusb := libusb b; device_handle := device_handle b;
     owns_device_handle := owns_device_handle b; libusb_ctx := libusb_ctx b;
     interface_claimed := interface_claimed b;
     interface_number := interface_number b; out_endpoint := out_endpoint b;
     in_endpoint := in_endpoint b; winusb_file_handle := winusb_file_handle b;
     winusb_handle := winusb_handle b; winusb_out_pipe := winusb_out_pipe b;
     winusb_in_pipe := winusb_in_pipe b; use_winusb := v |}.

(** ** Calls into the collaborators *)

Inductive call : Type :=
(* SDL *)
| SDL_InitLibUSB (table : pointer)
| SDL_QuitLibUSB
| SDL_GetPointerProperty
| SDL_SetError (fmt : string)
(* the libusb function table *)
| libusb_init (ctx : pointer)
| libusb_exit (ctx : address)
| get_device_list (ctx : address)
| get_device_descriptor (i : nat)
| libusb_open (i : nat) (h : pointer)
| free_device_list
| libusb_close (h : address)
| get_config_descriptor (h : pointer)
| free_config_descriptor
| set_auto_detach_kernel_driver (h : pointer)
| claim_interface (h : pointer) (n : Z) (r : Z)
| release_interface (h : pointer) (n : Z)
| bulk_transfer (h : pointer) (ep : Z) (data : Z) (length : Z) (timeout : Z)
(* SetupAPI, kernel32 and WinUSB *)
| SetupDiGetClassDevsW
| SetupDiEnumDeviceInterfaces (i : nat)
| SetupDiGetDeviceInterfaceDetailW (i : nat)
| SetupDiDestroyDeviceInfoList
| CreateFileW (i : nat) (fh : HANDLE)
| CloseHandle (h : HANDLE)
| CreateEventW
| GetLastError
| WaitForSingleObject (ev : HANDLE) (ms : Z)
| WinUsb_Initialize (fh : HANDLE) (wh : pointer)
| WinUsb_Free (wh : address)
| WinUsb_QueryInterfaceSettings (wh : address)
| WinUsb_QueryPipe (wh : address) (ep : nat)
| WinUsb_SetPipePolicy (wh : pointer) (pipe : Z) (timeout : Z)
| WinUsb_WritePipe (wh : pointer) (pipe : Z) (length : Z)
| WinUsb_ReadPipe (wh : pointer) (pipe : Z) (data : Z) (length : Z)
| WinUsb_GetOverlappedResult (wh : pointer)
| WinUsb_AbortPipe (wh : pointer) (pipe : Z)
| WinUsb_ResetPipe (wh : pointer) (pipe : Z).

(** ** The caller's buffer *)

(** Memory seen from the [data] pointer: byte at each offset. *)
Definition memory : Type := Z -> Z.

Fixpoint store (m : memory) (at_ : Z) (bytes : list Z) : memory :=
  match bytes with
  | [] => m
  | x :: rest =>
      store (fun a => if a =? at_ then x else m a) (at_ + 1) rest
  end.

(** ** What the collaborators answer *)

(** One [bulk_transfer] of libusb: its return value, the count it stores
    through [&transferred], and the bytes it places at [data]. *)
Record bulk_reply : Type := {
  res : Z;
  transferred : Z;
  payload : list Z
}.

(** One overlapped WinUSB transfer, call by call. *)
Record overlapped_reply : Type := {
  event : HANDLE;                     (* CreateEventW *)
  pipe_ok : bool;                     (* WinUsb_WritePipe / WinUsb_ReadPipe *)
  pipe_transferred : option Z;        (* stored through &transferred by it *)
  last_error : Z;                     (* GetLastError *)
  wait : Z;                           (* WaitForSingleObject on the event *)
  overlapped_transferred : option Z;  (* stored by WinUsb_GetOverlappedResult *)
  received : list Z                   (* bytes placed at data *)
}.

(** The value of [transferred] after a call that may or may not store. *)
Definition stored (w : option Z) (old : Z) : Z :=
  match w with Some n => u32 n | None => old end.

Definition prepend {A B : Type} (pre : list call)
    (r : option (A * B * list call)) : option (A * B * list call) :=
  match r with
  | Some (v, m, cs) => Some (v, m, pre ++ cs)
  | None => None
  end.

(** ** Write and Read *)

Section Transfers.
Context {hdr : Headers}.

Definition Switch2_BulkUSB_WinUSB_Write (io : overlapped_reply)
    (bulk : Switch2_BulkUSB) (size timeout_ms : Z) : Z * list call :=
  let wh := winusb_handle bulk in
  match event io with
  | NULL_HANDLE => (-1, [CreateEventW])
  | ev =>
      let wr := WinUsb_WritePipe wh (winusb_out_pipe bulk) size in
      let t1 := stored (pipe_transferred io) 0 in
      if pipe_ok io then
        (i32 t1, [CreateEventW; wr; CloseHandle ev])
      else if last_error io =? ERROR_IO_PENDING then
        if wait io =? WAIT_OBJECT_0 then
          (i32 (stored (overlapped_transferred io) t1),
           [CreateEventW; wr; GetLastError; WaitForSingleObject ev timeout_ms;
            WinUsb_GetOverlappedResult wh; CloseHandle ev])
        else
          (-7,
           [CreateEventW; wr; GetLastError; WaitForSingleObject ev timeout_ms;
            WinUsb_AbortPipe wh (winusb_out_pipe bulk);
            WaitForSingleObject ev 100; CloseHandle ev])
      else
        (-1, [CreateEventW; wr; GetLastError; CloseHandle ev])
  end.

(** The [while] loop of [Switch2_BulkUSB_WinUSB_Read]; [k] counts the
    iterations done, [dev k] is what the system answers in iteration [k].
    [None] only when [fuel] iterations did not reach the end of the loop. *)
Fixpoint WinUSB_Read_loop (dev : nat -> overlapped_reply)
    (bulk : Switch2_BulkUSB) (fuel k : nat) (size data total : Z)
    (m : memory) : option (Z * memory * list call) :=
  if 0 <? size then
    match fuel with
    | O => None
    | S fuel' =>
        let wh := winusb_handle bulk in
        let chunk := if 64 <? size then 64 else size in
        let io := dev k in
        match event io with
        | NULL_HANDLE =>
            Some ((if 0 <? total then i32 total else -1), m, [CreateEventW])
        | ev =>
            let rd := WinUsb_ReadPipe wh (winusb_in_pipe bulk) data chunk in
            let m' := store m data (received io) in
            let t1 := stored (pipe_transferred io) 0 in
            let after (t : Z) (pre : list call) :=
              let total' := u32 (total + t) in
              let size' := u32 (size - t) in
              let data' := data + chunk in
              if t <? chunk then
                Some (i32 total', m', pre ++ [CloseHandle ev])
              else
                prepend (pre ++ [CloseHandle ev])
                  (WinUSB_Read_loop dev bulk fuel' (S k) size' data' total' m')
            in
            if pipe_ok io then after t1 [CreateEventW; rd]
            else if last_error io =? ERROR_IO_PENDING then
              if wait io =? WAIT_OBJECT_0 then
                after (stored (overlapped_transferred io) t1)
                  [CreateEventW; rd; GetLastError; WaitForSingleObject ev 1000;
                   WinUsb_GetOverlappedResult wh]
              else
                Some ((if 0 <? total then i32 total else -7), m',
                      [CreateEventW; rd; GetLastError;
                       WaitForSingleObject ev 1000;
                       WinUsb_AbortPipe wh (winusb_in_pipe bulk);
                       WaitForSingleObject ev 100; CloseHandle ev])
            else
              Some ((if 0 <? total then i32 total else -1), m',
                    [CreateEventW; rd; GetLastError; CloseHandle ev])
        end
    end
  else Some (i32 total, m, []).

Definition Switch2_BulkUSB_WinUSB_Read (dev : nat -> overlapped_reply)
    (fuel : nat) (bulk : Switch2_BulkUSB) (size : Z) (m : memory)
    : option (Z * memory * list call) :=
  WinUSB_Read_loop dev bulk fuel 0 size 0 0 m.

(** The [while] loop of [Switch2_BulkUSB_Read] on the libusb path. *)
Fixpoint libusb_Read_loop (dev : nat -> bulk_reply) (bulk : Switch2_BulkUSB)
    (fuel k : nat) (size data total : Z) (m : memory)
    : option (Z * memory * list call) :=
  if 0 <? size then
    match fuel with
    | O => None
    | S fuel' =>
        let chunk := if 64 <? size then 64 else size in
        let r := dev k in
        let xfer :=
          bulk_transfer (device_handle bulk) (in_endpoint bulk) data chunk 500 in
        let m' := store m data (payload r) in
        if res r <? 0 then Some (res r, m', [xfer])
        else
          let total' := i32 (total + transferred r) in
          let size' := u32 (size - transferred r) in
          let data' := data + chunk in
          if u32 (transferred r) <? chunk then Some (total', m', [xfer])
          else
            prepend [xfer]
              (libusb_Read_loop dev bulk fuel' (S k) size' data' total' m')
    end
  else Some (total, m, []).

Definition Switch2_BulkUSB_Write (usb : bulk_reply) (win : overlapped_reply)
    (bulk : Switch2_BulkUSB) (size timeout_ms : Z) : Z * list call :=
  if SDL_PLATFORM_WIN32 && use_winusb bulk then
    Switch2_BulkUSB_WinUSB_Write win bulk size timeout_ms
  else
    (* [length] is an [int] parameter of [bulk_transfer] *)
    ((if res usb <? 0 then res usb else transferred usb),
     [bulk_transfer (device_handle bulk) (out_endpoint bulk) 0 (i32 size)
        timeout_ms]).

Definition Switch2_BulkUSB_Read (usb : nat -> bulk_reply)
    (win : nat -> overlapped_reply) (fuel : nat) (bulk : Switch2_BulkUSB)
    (size : Z) (m : memory) : option (Z * memory * list call) :=
  if SDL_PLATFORM_WIN32 && use_winusb bulk then
    Switch2_BulkUSB_WinUSB_Read win fuel bulk size m
  else libusb_Read_loop usb bulk fuel 0 size 0 0 m.

End Transfers.

(** ** The native path: open, flush, close *)

Inductive USBD_PIPE_TYPE : Type :=
| UsbdPipeTypeControl
| UsbdPipeTypeIsochronous
| UsbdPipeTypeBulk
| UsbdPipeTypeInterrupt.

Record WINUSB_PIPE_INFORMATION : Type := {
  PipeType : USBD_PIPE_TYPE;
  PipeId : Z
}.

(** One device interface of the enumeration, with the answer to each call
    the loop body makes for it. *)
Record device_interface : Type := {
  detail_allocated : bool;    (* SDL_malloc(needed) != NULL *)
  detail_filled : bool;       (* second SetupDiGetDeviceInterfaceDetailW *)
  DevicePath : string;
  file : HANDLE;              (* CreateFileW *)
  session : pointer;          (* WinUsb_Initialize: the handle, if TRUE *)
  pipes : option (list (option WINUSB_PIPE_INFORMATION))
    (* WinUsb_QueryInterfaceSettings, if TRUE: one entry per endpoint,
       the answer of WinUsb_QueryPipe, if TRUE *)
}.

(** [wcsstr(haystack, needle) != NULL]. *)
Fixpoint wcsstr (haystack needle : string) : bool :=
  if String.prefix needle haystack then true
  else match haystack with
       | EmptyString => false
       | String _ rest => wcsstr rest needle
       end.

Definition is_bulk_pipe (t : USBD_PIPE_TYPE) : bool :=
  match t with UsbdPipeTypeBulk => true | _ => false end.

(** The loop over [ep] that picks [out_pipe] and [in_pipe]. *)
Fixpoint query_pipes (wh : address) (ep : nat)
    (infos : list (option WINUSB_PIPE_INFORMATION)) (out_pipe in_pipe : Z)
    : Z * Z * list call :=
  match infos with
  | [] => (out_pipe, in_pipe, [])
  | q :: rest =>
      let '(o, i) :=
        match q with
        | Some info =>
            if is_bulk_pipe (PipeType info) then
              if negb (Z.land (PipeId info) 128 =? 0)
              then (out_pipe, PipeId info)
              else (PipeId info, in_pipe)
            else (out_pipe, in_pipe)
        | None => (out_pipe, in_pipe)
        end in
      let '(o', i', cs) := query_pipes wh (S ep) rest o i in
      (o', i', WinUsb_QueryPipe wh ep :: cs)
  end.

(** The enumeration loop of [Switch2_BulkUSB_OpenWinUSB], from index [i]. *)
Fixpoint enumerate_interfaces (cands : list device_interface) (i : nat)
    (bulk : Switch2_BulkUSB) : bool * Switch2_BulkUSB * list call :=
  match cands with
  | [] => (false, bulk, [SetupDiEnumDeviceInterfaces i])
  | c :: rest =>
      let next (pre : list call) :=
        let '(ok, b, cs) := enumerate_interfaces rest (S i) bulk in
        (ok, b, SetupDiEnumDeviceInterfaces i
                  :: SetupDiGetDeviceInterfaceDetailW i :: pre ++ cs) in
      if negb (detail_allocated c) then next []
      else if negb (detail_filled c) then
        next [SetupDiGetDeviceInterfaceDetailW i]
      else if negb (wcsstr (DevicePath c) "vid_057e")
              && negb (wcsstr (DevicePath c) "VID_057E") then
        next [SetupDiGetDeviceInterfaceDetailW i]
      else
        let pre1 := [SetupDiGetDeviceInterfaceDetailW i;
                     CreateFileW i (file c)] in
        match file c with
        | INVALID_HANDLE_VALUE => next pre1
        | fh =>
            match session c with
            | None =>
                next (pre1 ++ [WinUsb_Initialize fh None; CloseHandle fh])
            | Some wh =>
                let pre2 := pre1 ++ [WinUsb_Initialize fh (Some wh);
                                     WinUsb_QueryInterfaceSettings wh] in
                match pipes c with
                | None => next (pre2 ++ [WinUsb_Free wh; CloseHandle fh])
                | Some infos =>
                    let '(out_pipe, in_pipe, qs) :=
                      query_pipes wh 0 infos 0 0 in
                    if (out_pipe =? 0) || (in_pipe =? 0) then
                      next (pre2 ++ qs ++ [WinUsb_Free wh; CloseHandle fh])
                    else
                      (true,
                       set_use_winusb true
                         (set_winusb_pipes out_pipe in_pipe
                            (set_winusb_handle (Some wh)
                               (set_winusb_file_handle fh bulk))),
                       SetupDiEnumDeviceInterfaces i
                         :: SetupDiGetDeviceInterfaceDetailW i
                         :: pre2 ++ qs
                         ++ [WinUsb_SetPipePolicy (Some wh) out_pipe 1000;
                             WinUsb_SetPipePolicy (Some wh) in_pipe 1000;
                             SetupDiDestroyDeviceInfoList])
                end
            end
        end
  end.

(** [devinfo] is the set [SetupDiGetClassDevsW] returned, [None] for
    [INVALID_HANDLE_VALUE]. *)
Definition Switch2_BulkUSB_OpenWinUSB
    (devinfo : option (list device_interface)) (bulk : Switch2_BulkUSB)
    : bool * Switch2_BulkUSB * list call :=
  match devinfo with
  | None => (false, bulk, [SetupDiGetClassDevsW])
  | Some cands =>
      let '(ok, b, cs) := enumerate_interfaces cands 0 bulk in
      if ok then (ok, b, SetupDiGetClassDevsW :: cs)
      else (ok, b, SetupDiGetClassDevsW :: cs ++ [SetupDiDestroyDeviceInfoList])
  end.

(** The drain loop of [Switch2_BulkUSB_FlushWinUSB]: [stale k] tells whether
    the [k]-th [WinUsb_ReadPipe] returns TRUE. *)
Fixpoint drain (stale : nat -> bool) (bulk : Switch2_BulkUSB) (fuel k : nat)
    : option (list call) :=
  let rd := WinUsb_ReadPipe (winusb_handle bulk) (winusb_in_pipe bulk) 0 64 in
  if stale k then
    match fuel with
    | O => None
    | S fuel' => option_map (cons rd) (drain stale bulk fuel' (S k))
    end
  else Some [rd].

Definition Switch2_BulkUSB_FlushWinUSB (stale : nat -> bool) (fuel : nat)
    (bulk : Switch2_BulkUSB) : option (list call) :=
  let wh := winusb_handle bulk in
  option_map
    (fun reads =>
       [WinUsb_ResetPipe wh (winusb_out_pipe bulk);
        WinUsb_ResetPipe wh (winusb_in_pipe bulk);
        WinUsb_SetPipePolicy wh (winusb_in_pipe bulk) 50]
       ++ reads ++ [WinUsb_SetPipePolicy wh (winusb_in_pipe bulk) 1000])
    (drain stale bulk fuel 0).

(** A procedure on the context: the new context and the calls it made. *)
Definition proc : Type := Switch2_BulkUSB -> Switch2_BulkUSB * list call.

Definition seq (p q : proc) : proc :=
  fun b => let '(b1, l1) := p b in
           let '(b2, l2) := q b1 in (b2, l1 ++ l2).

Definition when (c : Switch2_BulkUSB -> bool) (p : proc) : proc :=
  fun b => if c b then p b else (b, []).

Declare Scope proc_scope.
Delimit Scope proc_scope with proc.
Notation "p ;; q" := (seq p q) (at level 61, right associativity) : proc_scope.

Definition valid_handle (h : HANDLE) : bool :=
  match h with Handle _ => true | _ => false end.

Definition Switch2_BulkUSB_CloseWinUSB : proc :=
  (when (fun b => non_null (winusb_handle b))
     (fun b => (set_winusb_handle None b,
                match winusb_handle b with
                | Some wh => [WinUsb_Free wh]
                | None => []
                end)) ;;
   when (fun b => valid_handle (winusb_file_handle b))
     (fun b => (set_winusb_file_handle NULL_HANDLE b,
                [CloseHandle (winusb_file_handle b)])) ;;
   (fun b => (set_use_winusb false b, [])))%proc.

(** ** The generic path and the public entry points *)

(** One entry of the list [get_device_list] returns. *)
Record usb_device : Type := {
  descriptor : option (Z * Z);  (* get_device_descriptor == 0: idVendor, idProduct *)
  opened : pointer              (* open == 0: the handle stored *)
}.

(** Everything the collaborators answer during one [Switch2_BulkUSB_Open]. *)
Record world : Type := {
  devinfo : option (list device_interface);  (* SetupDiGetClassDevsW *)
  stale : nat -> bool;                       (* reads of the flush *)
  runtime : pointer;                         (* SDL_InitLibUSB *)
  shared_handle : pointer;                   (* SDL_GetPointerProperty *)
  vendor_id : Z;                             (* device->vendor_id *)
  product_id : Z;                            (* device->product_id *)
  private_context : pointer;                 (* libusb->init == 0: usb_ctx *)
  devices : option (list usb_device);        (* get_device_list; None: n < 0 *)
  config : address -> option libusb_config_descriptor;
  claim : address -> Z -> Z                  (* claim_interface *)
}.

(** The [for] loop over [devs]: the handle [open] stored, if one matched. *)
Fixpoint open_matching (vid pid : Z) (devs : list usb_device) (i : nat)
    : pointer * list call :=
  match devs with
  | [] => (None, [])
  | d :: rest =>
      let next (pre : list call) :=
        let '(h, cs) := open_matching vid pid rest (S i) in
        (h, get_device_descriptor i :: pre ++ cs) in
      match descriptor d with
      | None => next []
      | Some (idVendor, idProduct) =>
          if (idVendor =? vid) && (idProduct =? pid) then
            match opened d with
            | Some h =>
                (Some h, [get_device_descriptor i; libusb_open i (Some h)])
            | None => next [libusb_open i None]
            end
          else next []
      end
  end.

(** The block of [Switch2_BulkUSB_Open] that opens its own libusb
    connection, up to and including [exit(usb_ctx)]. *)
Definition open_own_connection (w : world) : proc :=
  fun b =>
    match private_context w with
    | None => (b, [libusb_init None])
    | Some usb_ctx =>
        let '(h, cs, devs_non_null) :=
          match devices w with
          | None => (None, [], false)
          | Some devs =>
              let '(h, cs) :=
                open_matching (vendor_id w) (product_id w) devs 0 in
              (h, cs, true)
          end in
        let b' :=
          match h with
          | Some _ =>
              set_libusb_ctx (Some usb_ctx)
                (set_owns_device_handle true (set_device_handle h b))
          | None => b
          end in
        (b',
         [libusb_init (Some usb_ctx); get_device_list usb_ctx] ++ cs
         ++ (if devs_non_null then [free_device_list] else [])
         ++ (if non_null (device_handle b') then [] else [libusb_exit usb_ctx]))
    end.

(** The line feed that ends the last of the error messages. *)
Definition LF : string := String "010"%char EmptyString.

Section Lifecycle.
Context {hdr : Headers}.

(** Modelled from the spec: [SDL_InitLibUSB] lives in [SDL_libusb.c], which
    is not part of the file under study.  Following sections 4.1 and 7 it
    either initialises the runtime, stores its function table through the
    pointer and returns true, or fails with no state retained: [NULL] is
    left in [bulk->libusb] and false is returned. *)
Definition InitLibUSB (w : world) : proc :=
  fun b => (set_libusb (runtime w) b, [SDL_InitLibUSB (runtime w)]).

(** The end of [Switch2_BulkUSB_Open], reached with [bulk->device_handle]
    being [h]: endpoint discovery, then the claim. *)
Definition discover_and_claim (w : world) (h : address)
    (bulk : Switch2_BulkUSB) : bool * Switch2_BulkUSB * list call :=
  let '(ok, eps) :=
    Switch2_BulkUSB_FindEndpoints (config w h) (interface_number bulk)
      (out_endpoint bulk) (in_endpoint bulk) in
  let b := set_endpoints eps bulk in
  let lf := get_config_descriptor (Some h)
            :: (match config w h with
                | Some _ => [free_config_descriptor]
                | None => []
                end) in
  if negb ok then
    (false, b, lf ++ [SDL_SetError "Couldn't find bulk endpoints"])
  else
    let r := claim w h (interface_number b) in
    let lc := [set_auto_detach_kernel_driver (Some h);
               claim_interface (Some h) (interface_number b) r] in
    if r <? 0 then
      (false, b,
       lf ++ lc ++ [SDL_SetError ("Couldn't claim interface %d: %d" ++ LF)])
    else (true, set_interface_claimed true b, lf ++ lc).

(** [Switch2_BulkUSB_Open] after the [#ifdef SDL_PLATFORM_WIN32] block. *)
Definition Open_libusb (w : world) (bulk : Switch2_BulkUSB)
    : bool * Switch2_BulkUSB * list call :=
  let '(b0, l0) := InitLibUSB w bulk in
  if negb (non_null (libusb b0)) then
    (false, b0, l0 ++ [SDL_SetError "Couldn't initialize libusb"])
  else
    let b1 := set_device_handle (shared_handle w) b0 in
    let '(b2, l2) :=
      when (fun b => negb (non_null (device_handle b)))
        (open_own_connection w) b1 in
    let l := l0 ++ [SDL_GetPointerProperty] ++ l2 in
    match device_handle b2 with
    | None =>
        (false, set_libusb None b2,
         l ++ [SDL_QuitLibUSB;
               SDL_SetError "Couldn't get libusb device handle"])
    | Some h =>
        let '(ok, b3, l3) := discover_and_claim w h b2 in (ok, b3, l ++ l3)
    end.

(** [None] only when the flush of a successfully opened native path did
    not finish within [fuel] reads. *)
Definition Switch2_BulkUSB_Open (w : world) (fuel : nat)
    (bulk : Switch2_BulkUSB) : option (bool * Switch2_BulkUSB * list call) :=
  let '(native, b, l) :=
    if SDL_PLATFORM_WIN32 then Switch2_BulkUSB_OpenWinUSB (devinfo w) bulk
    else (false, bulk, []) in
  if native then
    option_map (fun lf => (true, b, l ++ lf))
      (Switch2_BulkUSB_FlushWinUSB (stale w) fuel b)
  else
    let '(ok, b', l') := Open_libusb w b in Some (ok, b', l ++ l').

Definition Switch2_BulkUSB_Close : proc :=
  (when (fun b => SDL_PLATFORM_WIN32 && use_winusb b)
     Switch2_BulkUSB_CloseWinUSB ;;
   when (fun b => interface_claimed b && non_null (libusb b))
     (fun b => (set_interface_claimed false b,
                [release_interface (device_handle b) (interface_number b)])) ;;
   when (fun b => owns_device_handle b && non_null (device_handle b)
                  && non_null (libusb b))
     (fun b => (set_device_handle None b,
                match device_handle b with
                | Some h => [libusb_close h]
                | None => []
                end)) ;;
   when (fun b => non_null (libusb_ctx b) && non_null (libusb b))
     (fun b => (set_libusb_ctx None b,
                match libusb_ctx b with
                | Some ctx => [libusb_exit ctx]
                | None => []
                end)) ;;
   when (fun b => non_null (libusb b))
     (fun b => (set_libusb None b, [SDL_QuitLibUSB])))%proc.

End Lifecycle.

(** ** Concrete descriptors and platforms for the runs *)

Definition posix : Headers := headers false.
Definition win32 : Headers := headers true.

Definition ep (address attributes : Z) : libusb_endpoint_descriptor :=
  {| bEndpointAddress := address; bmAttributes := attributes |}.

(** Interface 0 is HID with two interrupt endpoints; interface 1 carries an
    interrupt endpoint and the bulk pair 0x02 / 0x82; interface 2 carries
    another bulk pair. *)
Definition composite_config : libusb_config_descriptor :=
  {| interface :=
       [ {| altsetting :=
              [ {| bInterfaceNumber := 0;
                   endpoint := [ep 0x81 3; ep 0x01 3] |} ] |};
         {| altsetting :=
              [ {| bInterfaceNumber := 1;
                   endpoint := [ep 0x83 3; ep 0x02 2; ep 0x82 2] |} ] |};
         {| altsetting :=
              [ {| bInterfaceNumber := 2;
                   endpoint := [ep 0x04 2; ep 0x84 2] |} ] |} ] |}.

(** The same device without interface 1. *)
Definition no_vendor_config : libusb_config_descriptor :=
  {| interface :=
       [ {| altsetting :=
              [ {| bInterfaceNumber := 0;
                   endpoint := [ep 0x81 3; ep 0x01 3] |} ] |};
         {| altsetting :=
              [ {| bInterfaceNumber := 2;
                   endpoint := [ep 0x04 2; ep 0x84 2] |} ] |} ] |}.

(** Interface 1 with two alternate settings: the first has a bulk OUT
    endpoint only, the second lists its bulk IN before its bulk OUT. *)
Definition two_altsettings_config : libusb_config_descriptor :=
  {| interface :=
       [ {| altsetting :=
              [ {| bInterfaceNumber := 1; endpoint := [ep 0x01 2] |};
                {| bInterfaceNumber := 1;
                   endpoint := [ep 0x82 2; ep 0x02 2] |} ] |} ] |}.

(** ** Vocabulary for the read loops *)

(** The lengths of the bulk reads a run issued, in order. *)
Definition request_length (c : call) : list Z :=
  match c with
  | bulk_transfer _ _ _ len _ => [len]
  | WinUsb_ReadPipe _ _ _ len => [len]
  | _ => []
  end.

Definition requests (calls : list call) : list Z :=
  flat_map request_length calls.

(** The byte count an iteration adds to the total, when its transfer
    completed: [None] stands for an iteration that failed or timed out. *)
Definition libusb_count (r : bulk_reply) : option Z :=
  if res r <? 0 then None else Some (u32 (transferred r)).

Definition winusb_count {hdr : Headers} (io : overlapped_reply) : option Z :=
  match event io with
  | NULL_HANDLE => None
  | _ =>
      if pipe_ok io then Some (stored (pipe_transferred io) 0)
      else if (last_error io =? ERROR_IO_PENDING) && (wait io =? WAIT_OBJECT_0)
      then Some (stored (overlapped_transferred io)
                   (stored (pipe_transferred io) 0))
      else None
  end.

Definition delivered (c : option Z) : Z :=
  match c with Some t => t | None => 0 end.

(** Bytes delivered by the [n] iterations starting with iteration [k]. *)
Fixpoint sum_counts (count : nat -> option Z) (k n : nat) : Z :=
  match n with
  | O => 0
  | S n' => delivered (count k) + sum_counts count (S k) n'
  end.

(** The number of loop iterations a run started: each starts with a
    [bulk_transfer] on the generic path, a [CreateEventW] on the native
    one. *)
Definition starts_iteration (c : call) : bool :=
  match c with
  | bulk_transfer _ _ _ _ _ => true
  | CreateEventW => true
  | _ => false
  end.

Definition iterations (calls : list call) : nat :=
  List.length (filter starts_iteration calls).

(** The chunk asked for when [size] bytes remain to be read. *)
Definition chunk_of (size : Z) : Z := if 64 <? size then 64 else size.

(** The value of [size] at the start of iteration [k + j] of a loop that
    starts iteration [k] with [size]: each iteration takes what it
    transferred off it, as an [unsigned]. *)
Fixpoint remaining (count : nat -> option Z) (k : nat) (size : Z) (j : nat)
    : Z :=
  match j with
  | O => size
  | S j' => u32 (remaining count k size j' - delivered (count (k + j')%nat))
  end.

(** What a finished run of a read loop looks like: [size] is the size
    requested, [v] the value returned, [calls] the calls made, [count j]
    the outcome of iteration [j]. *)
Record chunked_read (count : nat -> option Z) (size v : Z)
    (calls : list call) : Prop := {
  (* at most 64 bytes, and at least one, are requested per iteration *)
  requests_small :
    Forall (fun len => 1 <= len <= 64) (requests calls);
  (* when every iteration completed its transfer, the value returned is the
     sum of the transferred counts *)
  accumulated :
    (forall j, (j < iterations calls)%nat -> count j <> None) ->
    v = i32 (sum_counts count 0 (iterations calls));
  (* an iteration that fails, or transfers less than it requested, is the
     last *)
  stops_when_short :
    forall j,
      (j < iterations calls)%nat ->
      (forall t len,
          count j = Some t -> nth_error (requests calls) j = Some len ->
          t < len) ->
      S j = iterations calls;
  (* an iteration after which nothing remains is the last *)
  stops_when_full :
    forall j,
      (j < iterations calls)%nat ->
      u32 (size - sum_counts count 0 (S j)) = 0 ->
      S j = iterations calls;
  (* the loop is entered exactly when something is asked for *)
  starts_when_asked :
    (0 < iterations calls)%nat <-> 0 < size;
  (* every request is for what remains, 64 bytes at most *)
  requests_remaining :
    forall j len,
      nth_error (requests calls) j = Some len ->
      len = chunk_of (remaining count 0 size j);
  (* an iteration whose transfer completed did make its request, and no
     request is made outside an iteration *)
  requested :
    forall j,
      (j < iterations calls)%nat -> count j <> None ->
      nth_error (requests calls) j <> None;
  requests_of_iterations :
    forall j,
      nth_error (requests calls) j <> None -> (j < iterations calls)%nat;
  (* an iteration that transfers all it asked for, with more remaining, is
     followed by another *)
  goes_on :
    forall j t,
      (j < iterations calls)%nat ->
      count j = Some t ->
      chunk_of (remaining count 0 size j) <= t ->
      remaining count 0 size (S j) <> 0 ->
      (S j < iterations calls)%nat
}.

(** The same, for the part of a run that starts iteration [k] with [size]
    bytes to read: the loop is entered when something is asked for, asks
    for what remains, and goes on after a full chunk when more remains. *)
Definition reads_on (count : nat -> option Z) (k : nat) (size : Z)
    (calls : list call) : Prop :=
  ((0 < iterations calls)%nat <-> 0 < size)
  /\ (forall j len,
        nth_error (requests calls) j = Some len ->
        len = chunk_of (remaining count k size j))
  /\ (forall j,
        (j < iterations calls)%nat -> count (k + j)%nat <> None ->
        nth_error (requests calls) j <> None)
  /\ (forall j,
        nth_error (requests calls) j <> None -> (j < iterations calls)%nat)
  /\ (forall j t,
        (j < iterations calls)%nat ->
        count (k + j)%nat = Some t ->
        chunk_of (remaining count k size j) <= t ->
        remaining count k size (S j) <> 0 ->
        (S j < iterations calls)%nat).

(** Replies that never deliver more than was asked for: iteration [j] of a
    read of [size] bytes asks for [min 64 (size - 64 j)]. *)
Definition within_request (count : nat -> option Z) (size : Z) : Prop :=
  forall (j : nat) t,
    64 * Z.of_nat j < size ->
    count j = Some t -> 0 <= t <= chunk_of (size - 64 * Z.of_nat j).

(** A device that sends packets of 64, 64, 64 and 30 bytes and then falls
    silent. *)
Definition four_packets (k : nat) : Z :=
  nth k [64; 64; 64; 30] 0.

Definition usb_four_packets (k : nat) : bulk_reply :=
  match k with
  | 0%nat | 1%nat | 2%nat | 3%nat =>
      {| res := 0; transferred := four_packets k;
         payload := repeat 0xAB (Z.to_nat (four_packets k)) |}
  | _ => {| res := -7; transferred := 0; payload := [] |}
  end.

(** On the native path the first packet completes at once, the others
    complete after the wait; later reads stay pending until the wait times
    out (258 is WAIT_TIMEOUT). *)
Definition win_four_packets (k : nat) : overlapped_reply :=
  match k with
  | 0%nat =>
      {| event := Handle 7%nat; pipe_ok := true; pipe_transferred := Some 64;
         last_error := 0; wait := 0; overlapped_transferred := None;
         received := repeat 0xAB 64 |}
  | 1%nat | 2%nat | 3%nat =>
      {| event := Handle 7%nat; pipe_ok := false; pipe_transferred := Some 0;
         last_error := 997; wait := 0;
         overlapped_transferred := Some (four_packets k);
         received := repeat 0xAB (Z.to_nat (four_packets k)) |}
  | _ =>
      {| event := Handle 7%nat; pipe_ok := false; pipe_transferred := Some 0;
         last_error := 997; wait := 258; overlapped_transferred := None;
         received := [] |}
  end.

(** A context as [Open] leaves it on the generic path, and one as it leaves
    it on the native path. *)
Definition generic_context : Switch2_BulkUSB :=
  {| libusb := Some 1%nat; device_handle := Some 2%nat;
     owns_device_handle := false; libusb_ctx := None;
     interface_claimed := true; interface_number := 1;
     out_endpoint := 0x02; in_endpoint := 0x82;
     winusb_file_handle := NULL_HANDLE; winusb_handle := None;
     winusb_out_pipe := 0; winusb_in_pipe := 0; use_winusb := false |}.

Definition native_context : Switch2_BulkUSB :=
  {| libusb := None; device_handle := None;
     owns_device_handle := false; libusb_ctx := None;
     interface_claimed := false; interface_number := 0;
     out_endpoint := 0; in_endpoint := 0;
     winusb_file_handle := Handle 5%nat; winusb_handle := Some 6%nat;
     winusb_out_pipe := 0x02; winusb_in_pipe := 0x82; use_winusb := true |}.

Definition zeroed : memory := fun _ => 0.

(** One full packet, then nothing until the timeout (-7 is what libusb
    returns for a timeout, 258 what the wait returns). *)
Definition usb_packet_then_timeout (k : nat) : bulk_reply :=
  match k with
  | 0%nat => {| res := 0; transferred := 64; payload := repeat 0xAB 64 |}
  | _ => {| res := -7; transferred := 0; payload := [] |}
  end.

Definition win_packet_then_timeout (k : nat) : overlapped_reply :=
  match k with
  | 0%nat =>
      {| event := Handle 7%nat; pipe_ok := true; pipe_transferred := Some 64;
         last_error := 0; wait := 0; overlapped_transferred := None;
         received := repeat 0xAB 64 |}
  | _ =>
      {| event := Handle 7%nat; pipe_ok := false; pipe_transferred := Some 0;
         last_error := 997; wait := 258; overlapped_transferred := None;
         received := [] |}
  end.

(** ** Vocabulary for the native write *)

(** The transfer was submitted, stayed pending, and the wait for its
    completion ended without the event being signalled. *)
Definition timed_out {hdr : Headers} (io : overlapped_reply) : bool :=
  match event io with
  | NULL_HANDLE => false
  | _ => negb (pipe_ok io) && (last_error io =? ERROR_IO_PENDING)
         && negb (wait io =? WAIT_OBJECT_0)
  end.

(** No event could be created, or the submission failed outright. *)
Definition failed {hdr : Headers} (io : overlapped_reply) : bool :=
  match event io with
  | NULL_HANDLE => true
  | _ => negb (pipe_ok io) && negb (last_error io =? ERROR_IO_PENDING)
  end.

(** A write that stays pending for ever. *)
Definition win_never_completes : overlapped_reply :=
  {| event := Handle 7%nat; pipe_ok := false; pipe_transferred := None;
     last_error := 997; wait := 258; overlapped_transferred := None;
     received := [] |}.

(** A write of 20 bytes that completes after the wait. *)
Definition win_completes_20 : overlapped_reply :=
  {| event := Handle 7%nat; pipe_ok := false; pipe_transferred := Some 0;
     last_error := 997; wait := 0; overlapped_transferred := Some 20;
     received := [] |}.

(** A write of 2^31 bytes that completes after the wait: one byte more
    than an [int] can count. *)
Definition win_completes_beyond_int : overlapped_reply :=
  {| event := Handle 7%nat; pipe_ok := false; pipe_transferred := Some 0;
     last_error := 997; wait := 0;
     overlapped_transferred := Some 2147483648; received := [] |}.

Definition usb_completes_20 : bulk_reply :=
  {| res := 0; transferred := 20; payload := [] |}.

Definition usb_times_out : bulk_reply :=
  {| res := -7; transferred := 0; payload := [] |}.

(** ** Vocabulary for the life cycle *)

(** The context as its owner creates it: no resource recorded, no backend
    active.  The endpoint and pipe numbers are not constrained. *)
Definition unopened (b : Switch2_BulkUSB) : Prop :=
  libusb b = None /\ device_handle b = None /\ owns_device_handle b = false
  /\ libusb_ctx b = None /\ interface_claimed b = false
  /\ use_winusb b = false /\ winusb_handle b = None
  /\ winusb_file_handle b = NULL_HANDLE.

(** The zero-filled context. *)
Definition inert : Switch2_BulkUSB :=
  {| libusb := None; device_handle := None; owns_device_handle := false;
     libusb_ctx := None; interface_claimed := false; interface_number := 0;
     out_endpoint := 0; in_endpoint := 0; winusb_file_handle := NULL_HANDLE;
     winusb_handle := None; winusb_out_pipe := 0; winusb_in_pipe := 0;
     use_winusb := false |}.

(** No reference to an acquired resource is recorded. *)
Definition no_reference (b : Switch2_BulkUSB) : Prop :=
  libusb b = None /\ device_handle b = None /\ libusb_ctx b = None.

(** No backend is marked active. *)
Definition no_backend (b : Switch2_BulkUSB) : Prop :=
  interface_claimed b = false /\ use_winusb b = false.

(** The place of a release in the order of [Switch2_BulkUSB_Close]. *)
Definition teardown_rank (c : call) : nat :=
  match c with
  | WinUsb_Free _ => 0
  | CloseHandle _ => 1
  | release_interface _ _ => 2
  | libusb_close _ => 3
  | libusb_exit _ => 4
  | SDL_QuitLibUSB => 5
  | _ => 6
  end.

(** [c] comes before [d] in that order. *)
Definition before (c d : call) : Prop :=
  (teardown_rank c < teardown_rank d)%nat.

(** [l] is in teardown order and contains no step earlier than [i]. *)
Definition from_step (i : nat) (l : list call) : Prop :=
  StronglySorted before l /\ Forall (fun c => (i <= teardown_rank c)%nat) l.

Definition is_release_interface (c : call) : bool :=
  match c with release_interface _ _ => true | _ => false end.

Definition is_claim_interface (c : call) : bool :=
  match c with claim_interface _ _ _ => true | _ => false end.

(** A bulk transfer on either path. *)
Definition is_transfer (c : call) : bool :=
  match c with
  | bulk_transfer _ _ _ _ _ => true
  | WinUsb_ReadPipe _ _ _ _ => true
  | WinUsb_WritePipe _ _ _ => true
  | _ => false
  end.

(** [n] calls of [Close] in a row, with all the calls they make. *)
Fixpoint Close_times {hdr : Headers} (n : nat) : proc :=
  match n with
  | O => fun b => (b, [])
  | S n' => seq Switch2_BulkUSB_Close (Close_times n')
  end.

(** Interface 1 of the descriptor lacks a bulk endpoint of some direction
    (in particular when the descriptor has no interface 1). *)
Definition lacks_bulk_pair {hdr : Headers} (cfg : libusb_config_descriptor)
    : Prop :=
  filter bulk_out (interface1_endpoints cfg) = []
  \/ filter bulk_in (interface1_endpoints cfg) = [].

(** *** Worlds for the runs *)

Definition generic_world (rt shared : pointer) (ctx : pointer)
    (devs : option (list usb_device)) (cfg : libusb_config_descriptor)
    (claimed : Z) : world :=
  {| devinfo := None; stale := fun _ => false;
     runtime := rt; shared_handle := shared;
     vendor_id := 0x057E; product_id := 0x2069;
     private_context := ctx; devices := devs;
     config := fun _ => Some cfg; claim := fun _ _ => claimed |}.

(** Another device first, then the controller, which opens as handle 4. *)
Definition two_devices : list usb_device :=
  [ {| descriptor := Some (0x046D, 0xC52B); opened := Some 9%nat |};
    {| descriptor := Some (0x057E, 0x2069); opened := Some 4%nat |} ].

(** The HID stack shares its libusb handle 2 and all goes well. *)
Definition shared_world : world :=
  generic_world (Some 1%nat) (Some 2%nat) None None composite_config 0.

(** The transport opens its own connection and all goes well. *)
Definition own_world : world :=
  generic_world (Some 1%nat) None (Some 3%nat) (Some two_devices)
    composite_config 0.

(** libusb cannot be initialised. *)
Definition no_runtime_world : world :=
  generic_world None None None None composite_config 0.

(** No shared handle, and no device on the bus matches. *)
Definition no_device_world : world :=
  generic_world (Some 1%nat) None (Some 3%nat) (Some []) composite_config 0.

(** The device has no interface 1; the handle is shared. *)
Definition no_vendor_world : world :=
  generic_world (Some 1%nat) (Some 2%nat) None None no_vendor_config 0.

(** The device has no interface 1; the handle is the transport's own. *)
Definition own_no_vendor_world : world :=
  generic_world (Some 1%nat) None (Some 3%nat) (Some two_devices)
    no_vendor_config 0.

(** Interface 1 is held by somebody else (-6 is LIBUSB_ERROR_BUSY). *)
Definition busy_world : world :=
  generic_world (Some 1%nat) (Some 2%nat) None None composite_config (-6).

(** No interface is claimed and no transfer is attempted by these calls. *)
Definition quiet (l : list call) : Prop :=
  Forall (fun c => is_claim_interface c = false /\ is_transfer c = false) l.

(** The message of the [SDL_SetError] a run ended with, if it ended so. *)
Definition reported (l : list call) : option string :=
  match last l SDL_QuitLibUSB with
  | SDL_SetError msg => Some msg
  | _ => None
  end.

(** The call releases a resource that the context records as acquired. *)
Definition recorded (b : Switch2_BulkUSB) (c : call) : Prop :=
  match c with
  | WinUsb_Free wh => use_winusb b = true /\ winusb_handle b = Some wh
  | CloseHandle fh =>
      use_winusb b = true /\ winusb_file_handle b = fh
      /\ valid_handle fh = true
  | release_interface h n =>
      interface_claimed b = true /\ libusb b <> None
      /\ h = device_handle b /\ n = interface_number b
  | libusb_close h =>
      owns_device_handle b = true /\ libusb b <> None
      /\ device_handle b = Some h
  | libusb_exit ctx => libusb b <> None /\ libusb_ctx b = Some ctx
  | SDL_QuitLibUSB => libusb b <> None
  | _ => False
  end.

Definition releases_of_interface (l : list call) : nat :=
  List.length (filter is_release_interface l).

(** The context a failed discovery leaves when the handle was shared. *)
Definition stranded : Switch2_BulkUSB :=
  {| libusb := Some 1%nat; device_handle := Some 2%nat;
     owns_device_handle := false; libusb_ctx := None;
     interface_claimed := false; interface_number := 0;
     out_endpoint := 0; in_endpoint := 0;
     winusb_file_handle := NULL_HANDLE; winusb_handle := None;
     winusb_out_pipe := 0; winusb_in_pipe := 0; use_winusb := false |}.

(** The context a successful [Open] leaves when the transport opened its
    own connection. *)
Definition own_context : Switch2_BulkUSB :=
  {| libusb := Some 1%nat; device_handle := Some 4%nat;
     owns_device_handle := true; libusb_ctx := Some 3%nat;
     interface_claimed := true; interface_number := 1;
     out_endpoint := 0x02; in_endpoint := 0x82;
     winusb_file_handle := NULL_HANDLE; winusb_handle := None;
     winusb_out_pipe := 0; winusb_in_pipe := 0; use_winusb := false |}.

(** *** Worlds for the native path *)

Definition bulk_pipes : list (option WINUSB_PIPE_INFORMATION) :=
  [ Some {| PipeType := UsbdPipeTypeBulk; PipeId := 0x02 |};
    Some {| PipeType := UsbdPipeTypeBulk; PipeId := 0x82 |} ].

(** The device interface of the controller as the enumeration reports it:
    [fh] is what [CreateFileW] returns and [wh] what [WinUsb_Initialize]
    delivers. *)
Definition controller_interface (fh : HANDLE) (wh : pointer)
    : device_interface :=
  {| detail_allocated := true; detail_filled := true;
     DevicePath := "\\?\usb#vid_057e&pid_2069&mi_01#7&2a1b3c4d&0&0001";
     file := fh; session := wh; pipes := Some bulk_pipes |}.

(** Another vendor's device of the same interface class. *)
Definition foreign_interface : device_interface :=
  {| detail_allocated := true; detail_filled := true;
     DevicePath := "\\?\usb#vid_045e&pid_028e#5&1f2e3d4c&0&2";
     file := Handle 8%nat; session := Some 9%nat; pipes := Some bulk_pipes |}.

Definition native_world (cands : list device_interface) (stale_reads : nat)
    : world :=
  {| devinfo := Some cands;
     stale := fun k => Nat.ltb k stale_reads;
     runtime := Some 1%nat; shared_handle := Some 2%nat;
     vendor_id := 0x057E; product_id := 0x2069;
     private_context := None; devices := None;
     config := fun _ => Some composite_config; claim := fun _ _ => 0 |}.

(** The native path is available, with two stale packets to drain. *)
Definition winusb_world : world :=
  native_world [foreign_interface;
                controller_interface (Handle 5%nat) (Some 6%nat)] 2.

(** Another process holds the interface: [WinUsb_Initialize] fails. *)
Definition locked_world : world :=
  native_world [controller_interface (Handle 5%nat) None] 0.

(** ** Resources *)

(** What [Open] acquires and [Close] gives back. *)
Inductive resource : Type :=
| Runtime                           (* the hold on the libusb runtime *)
| Context (ctx : address)           (* a private libusb context *)
| Device (h : address)              (* a device handle of its own *)
| Interface (h : pointer) (n : Z)   (* a claimed interface *)
| Session (wh : address)            (* a WinUSB session *)
| File (a : address).               (* a device interface file *)

Definition resource_eq_dec (x y : resource) : {x = y} + {x <> y}.
Proof.
  decide equality;
    try apply Nat.eq_dec; try apply Z.eq_dec;
    decide equality; apply Nat.eq_dec.
Defined.
Arguments resource_eq_dec : simpl never.

(** The resource a call acquired, from the value it returned. *)
Definition acquires (c : call) : list resource :=
  match c with
  | SDL_InitLibUSB (Some _) => [Runtime]
  | libusb_init (Some ctx) => [Context ctx]
  | libusb_open _ (Some h) => [Device h]
  | claim_interface h n r => if r <? 0 then [] else [Interface h n]
  | WinUsb_Initialize _ (Some wh) => [Session wh]
  | CreateFileW _ (Handle a) => [File a]
  | _ => []
  end.

(** The resource a call releases. *)
Definition releases (c : call) : list resource :=
  match c with
  | SDL_QuitLibUSB => [Runtime]
  | libusb_exit ctx => [Context ctx]
  | libusb_close h => [Device h]
  | release_interface h n => [Interface h n]
  | WinUsb_Free wh => [Session wh]
  | CloseHandle (Handle a) => [File a]
  | _ => []
  end.

Definition acquired (l : list call) : list resource := flat_map acquires l.
Definition released (l : list call) : list resource := flat_map releases l.

(** How often [r] occurs. *)
Definition tally (r : resource) (l : list resource) : nat :=
  count_occ resource_eq_dec l r.

(** The acquisitions of [l], less its own releases, are [held]. *)
Definition holds (l : list call) (held : list resource) : Prop :=
  forall r, tally r (acquired l) = (tally r (released l) + tally r held)%nat.

(** The resource behind a file handle. *)
Definition file_resource (fh : HANDLE) : list resource :=
  match fh with Handle a => [File a] | _ => [] end.

(** ** Vocabulary for the outputs of endpoint discovery *)

(** The address of the last endpoint of [l], [d] when there is none. *)
Definition last_address (l : list libusb_endpoint_descriptor) (d : Z) : Z :=
  last (map bEndpointAddress l) d.

(** What the scan has recorded once it has passed the endpoints [seen] of
    interface 1, starting from [n], [o], [i] in the out-parameters. *)
Definition scanned {hdr : Headers} (n o i : Z)
    (seen : list libusb_endpoint_descriptor) : scan :=
  {| found := (match filter bulk_out seen with [] => 0 | _ => 1 end)
              + (match filter bulk_in seen with [] => 0 | _ => 2 end);
     iface_num := match filter is_bulk seen with [] => n | _ => 1 end;
     out_ep := last_address (filter bulk_out seen) o;
     in_ep := last_address (filter bulk_in seen) i |}.

(** The endpoints [l] lack a bulk endpoint of some direction. *)
Definition lacks_pair {hdr : Headers} (l : list libusb_endpoint_descriptor)
    : Prop :=
  filter bulk_out l = [] \/ filter bulk_in l = [].

(** Interface 1 with two bulk OUT endpoints and no bulk IN endpoint. *)
Definition out_only_config : libusb_config_descriptor :=
  {| interface :=
       [ {| altsetting :=
              [ {| bInterfaceNumber := 1;
                   endpoint := [ep 0x02 2; ep 0x83 3; ep 0x04 2] |} ] |} ] |}.

(** ** Vocabulary for the native open *)

(** The answers of the [WinUsb_QueryPipe] calls that returned TRUE. *)
Definition pipe_infos (infos : list (option WINUSB_PIPE_INFORMATION))
    : list WINUSB_PIPE_INFORMATION :=
  flat_map (fun q => match q with Some info => [info] | None => [] end) infos.

(** A bulk pipe whose id has the direction bit set, and one whose id has
    not: the two tests of the loop over the endpoints. *)
Definition bulk_in_pipe (info : WINUSB_PIPE_INFORMATION) : bool :=
  is_bulk_pipe (PipeType info) && negb (Z.land (PipeId info) 128 =? 0).

Definition bulk_out_pipe (info : WINUSB_PIPE_INFORMATION) : bool :=
  is_bulk_pipe (PipeType info) && (Z.land (PipeId info) 128 =? 0).

(** The id of the last pipe of [l], [d] when there is none. *)
Definition last_pipe (l : list WINUSB_PIPE_INFORMATION) (d : Z) : Z :=
  last (map PipeId l) d.

(** The pipe pair an interface offers: its last bulk OUT and its last bulk IN
    pipe, provided neither id is 0. *)
Definition picked_pipes (c : device_interface) : option (Z * Z) :=
  match pipes c with
  | Some infos =>
      let o := last_pipe (filter bulk_out_pipe (pipe_infos infos)) 0 in
      let i := last_pipe (filter bulk_in_pipe (pipe_infos infos)) 0 in
      if (o =? 0) || (i =? 0) then None else Some (o, i)
  | None => None
  end.

(** The device path names Nintendo's vendor id. *)
Definition vendor_path (path : string) : bool :=
  wcsstr path "vid_057e" || wcsstr path "VID_057E".

(** A device interface that passes every test of the enumeration loop. *)
Definition usable (c : device_interface) : bool :=
  detail_allocated c && detail_filled c && vendor_path (DevicePath c)
  && match file c with INVALID_HANDLE_VALUE => false | _ => true end
  && non_null (session c)
  && match picked_pipes c with Some _ => true | None => false end.

(** The context after the five assignments that record the interface [c]
    with the pipes [o] and [i]. *)
Definition selected (c : device_interface) (o i : Z) (bulk : Switch2_BulkUSB)
    : Switch2_BulkUSB :=
  set_use_winusb true
    (set_winusb_pipes o i
       (set_winusb_handle (session c) (set_winusb_file_handle (file c) bulk))).

(** The call is [SetupDiDestroyDeviceInfoList]. *)
Definition is_destroy_list (c : call) : bool :=
  match c with SetupDiDestroyDeviceInfoList => true | _ => false end.

(** How often the device information set was destroyed. *)
Definition destroys (l : list call) : nat :=
  List.length (filter is_destroy_list l).

(** ** Vocabulary for the read buffer and the calls of a read *)

(** The bytes the transport places in the buffer for request [j]. *)
Definition packet {hdr : Headers} (usb : nat -> bulk_reply)
    (win : nat -> overlapped_reply) (bulk : Switch2_BulkUSB) (j : nat)
    : list Z :=
  if SDL_PLATFORM_WIN32 && use_winusb bulk then received (win j)
  else payload (usb j).

(** No packet is longer than the request it answers. *)
Definition fits_request (pkt : nat -> list Z) (size : Z) : Prop :=
  forall j : nat,
    64 * Z.of_nat j < size ->
    Z.of_nat (List.length (pkt j)) <= chunk_of (size - 64 * Z.of_nat j).

(** The transport answers the requests a run made: no transfer reports
    more bytes, and no packet is longer, than the request it answers asked
    for.  Request [j] is the one of iteration [j]. *)
Definition counts_within (count : nat -> option Z) (calls : list call)
    : Prop :=
  forall (j : nat) len t,
    nth_error (requests calls) j = Some len -> count j = Some t -> t <= len.

Definition packets_within (pkt : nat -> list Z) (calls : list call) : Prop :=
  forall (j : nat) len,
    nth_error (requests calls) j = Some len ->
    Z.of_nat (List.length (pkt j)) <= len.

(** The handles a run closed, in order. *)
Definition closed (l : list call) : list HANDLE :=
  flat_map (fun c => match c with CloseHandle h => [h] | _ => [] end) l.

(** The calls a native read may make, with the arguments it passes. *)
Definition native_read_call (bulk : Switch2_BulkUSB) (c : call) : Prop :=
  match c with
  | CreateEventW | GetLastError | CloseHandle _ => True
  | WinUsb_ReadPipe wh p _ _ =>
      wh = winusb_handle bulk /\ p = winusb_in_pipe bulk
  | WinUsb_AbortPipe wh p =>
      wh = winusb_handle bulk /\ p = winusb_in_pipe bulk
  | WinUsb_GetOverlappedResult wh => wh = winusb_handle bulk
  | WaitForSingleObject _ ms => ms = 1000 \/ ms = 100
  | _ => False
  end.

(** The calls a generic read may make. *)
Definition generic_read_call (bulk : Switch2_BulkUSB) (c : call) : Prop :=
  match c with
  | bulk_transfer h ep _ _ ms =>
      h = device_handle bulk /\ ep = in_endpoint bulk /\ ms = 500
  | _ => False
  end.

(** The event handle [CreateEventW] returned, if it returned one. *)
Definition created (ev : HANDLE) : list HANDLE :=
  match ev with NULL_HANDLE => [] | _ => [ev] end.

(** ** Vocabulary for the transport's own connection *)

(** The descriptor of the device could be read and carries these ids. *)
Definition matches (vid pid : Z) (d : usb_device) : bool :=
  match descriptor d with
  | Some (idVendor, idProduct) => (idVendor =? vid) && (idProduct =? pid)
  | None => false
  end.

(** The device matches and [open] succeeds on it. *)
Definition opens (vid pid : Z) (d : usb_device) : bool :=
  matches vid pid d && non_null (opened d).

(** ** Vocabulary for the calls of each backend *)

(** A call into SetupAPI, kernel32 or WinUSB. *)
Definition is_native_call (c : call) : bool :=
  match c with
  | SetupDiGetClassDevsW | SetupDiEnumDeviceInterfaces _
  | SetupDiGetDeviceInterfaceDetailW _ | SetupDiDestroyDeviceInfoList
  | CreateFileW _ _ | CloseHandle _ | CreateEventW | GetLastError
  | WaitForSingleObject _ _ | WinUsb_Initialize _ _ | WinUsb_Free _
  | WinUsb_QueryInterfaceSettings _ | WinUsb_QueryPipe _ _
  | WinUsb_SetPipePolicy _ _ _ | WinUsb_WritePipe _ _ _
  | WinUsb_ReadPipe _ _ _ _ | WinUsb_GetOverlappedResult _
  | WinUsb_AbortPipe _ _ | WinUsb_ResetPipe _ _ => true
  | _ => false
  end.

(** A call that belongs to a libusb connection of the transport's own: its
    context, its device list and its device handle. *)
Definition is_own_connection_call (c : call) : bool :=
  match c with
  | libusb_init _ | libusb_exit _ | get_device_list _
  | get_device_descriptor _ | libusb_open _ _ | free_device_list
  | libusb_close _ => true
  | _ => false
  end.

(** The call is [SDL_SetError]. *)
Definition is_set_error (c : call) : bool :=
  match c with SDL_SetError _ => true | _ => false end.

(** The number of times an error message was set. *)
Definition errors (l : list call) : nat :=
  List.length (filter is_set_error l).

(** Every call of [l] is native; none is; every call belongs to an own
    connection. *)
Definition native_calls (l : list call) : Prop :=
  Forall (fun c => is_native_call c = true) l.

Definition generic_calls (l : list call) : Prop :=
  Forall (fun c => is_native_call c = false) l.

Definition own_calls (l : list call) : Prop :=
  Forall (fun c => is_own_connection_call c = true) l.

(** No call of [l] touches a connection of the transport's own. *)
Definition borrowed_calls (l : list call) : Prop :=
  Forall (fun c => is_own_connection_call c = false) l.

(** The same headers, compiled for a platform other than Windows. *)
Definition generic_build (hdr : Headers) : Headers := {|
  SDL_PLATFORM_WIN32 := false;
  LIBUSB_TRANSFER_TYPE_MASK := @LIBUSB_TRANSFER_TYPE_MASK hdr;
  LIBUSB_TRANSFER_TYPE_BULK := @LIBUSB_TRANSFER_TYPE_BULK hdr;
  LIBUSB_ENDPOINT_DIR_MASK := @LIBUSB_ENDPOINT_DIR_MASK hdr;
  LIBUSB_ENDPOINT_OUT := @LIBUSB_ENDPOINT_OUT hdr;
  LIBUSB_ENDPOINT_IN := @LIBUSB_ENDPOINT_IN hdr;
  ERROR_IO_PENDING := @ERROR_IO_PENDING hdr;
  WAIT_OBJECT_0 := @WAIT_OBJECT_0 hdr
|}.

(** The call is [free_device_list]. *)
Definition is_free_device_list (c : call) : bool :=
  match c with free_device_list => true | _ => false end.

(** How often a device list was freed. *)
Definition device_lists_freed (l : list call) : nat :=
  List.length (filter is_free_device_list l).

(** The call of a read or of a write goes to this handle and endpoint. *)
Definition transfer_on (h : pointer) (endpoint : Z) (c : call) : Prop :=
  match c with
  | bulk_transfer h' ep _ _ _ => h' = h /\ ep = endpoint
  | _ => False
  end.

(** The pipe a native transfer call names, if it names one. *)
Definition pipe_of (c : call) : option Z :=
  match c with
  | WinUsb_WritePipe _ p _ | WinUsb_ReadPipe _ p _ _ | WinUsb_AbortPipe _ p =>
      Some p
  | _ => None
  end.

(* ================================================================= *)
(** * Properties *)

(** ** Endpoint discovery *)

Section DiscoveryFacts.
Context {hdr : Headers}.

Lemma scan_endpoints_app (n : Z) (l1 l2 : list libusb_endpoint_descriptor) :
  forall s,
    scan_endpoints n (l1 ++ l2) s =
    match scan_endpoints n l1 s with
    | Return s' => Return s'
    | Continue s' => scan_endpoints n l2 s'
    end.
Proof.
  induction l1 as [|ep l1 IH]; intros s; simpl; [reflexivity|].
  destruct (is_bulk ep); [|apply IH].
  destruct (found (record_endpoint n ep s) =? 3); [reflexivity|apply IH].
Qed.

Lemma scan_altsettings_flat (alts : list libusb_interface_descriptor) :
  forall s,
    scan_altsettings alts s =
    scan_endpoints 1
      (flat_map (fun alt => if bInterfaceNumber alt =? 1 then endpoint alt else [])
                alts) s.
Proof.
  induction alts as [|alt alts IH]; intros s; simpl; [reflexivity|].
  destruct (bInterfaceNumber alt =? 1) eqn:E.
  - apply Z.eqb_eq in E. rewrite E, scan_endpoints_app.
    destruct (scan_endpoints 1 (endpoint alt) s); [apply IH|reflexivity].
  - apply IH.
Qed.

(** The three nested loops are one pass over the endpoints of interface 1. *)
Lemma scan_interfaces_flat (cfg : libusb_config_descriptor) (s : scan) :
  scan_interfaces (interface cfg) s =
  scan_endpoints 1 (interface1_endpoints cfg) s.
Proof.
  unfold interface1_endpoints. revert s.
  induction (interface cfg) as [|iface ifaces IH]; intros s; simpl;
    [reflexivity|].
  rewrite scan_endpoints_app, scan_altsettings_flat.
  match goal with |- context [scan_endpoints 1 ?l s] =>
    destruct (scan_endpoints 1 l s) end; [apply IH|reflexivity].
Qed.

Lemma filter_bulk_cons (ep : libusb_endpoint_descriptor)
    (l : list libusb_endpoint_descriptor) :
  filter bulk_out (ep :: l) =
    (if is_bulk ep && is_out ep then ep :: filter bulk_out l
     else filter bulk_out l)
  /\ filter bulk_in (ep :: l) =
    (if is_bulk ep && is_in ep then ep :: filter bulk_in l
     else filter bulk_in l).
Proof. split; reflexivity. Qed.

(** Proof step shared by the scans below: open one loop iteration and split
    on the three tests the body makes. *)
Ltac scan_step ep s :=
  simpl scan_endpoints;
  repeat match goal with
         | H : filter _ (ep :: _) = _ |- _ =>
             first [rewrite (proj1 (filter_bulk_cons ep _)) in H
                   |rewrite (proj2 (filter_bulk_cons ep _)) in H]
         end;
  unfold record_endpoint;
  destruct (is_bulk ep); destruct (is_out ep); destruct (is_in ep);
  simpl in *.

(** OUT already recorded, the only bulk IN endpoint still ahead. *)
Lemma scan_endpoints_out_seen (n : Z) (ei : libusb_endpoint_descriptor) :
  forall l s,
    found s = 1 ->
    filter bulk_out l = [] ->
    filter bulk_in l = [ei] ->
    scan_endpoints n l s =
    Return {| found := 3; iface_num := n; out_ep := out_ep s;
              in_ep := bEndpointAddress ei |}.
Proof.
  induction l as [|ep l IH]; intros s Hf Ho Hi; [discriminate|].
  scan_step ep s; try discriminate; try (apply IH; assumption).
  - rewrite Hf. simpl. congruence.
  - rewrite Hf. simpl. rewrite IH; auto.
Qed.

(** IN already recorded, the only bulk OUT endpoint still ahead. *)
Lemma scan_endpoints_in_seen (n : Z) (eo : libusb_endpoint_descriptor) :
  forall l s,
    found s = 2 ->
    filter bulk_out l = [eo] ->
    filter bulk_in l = [] ->
    scan_endpoints n l s =
    Return {| found := 3; iface_num := n; out_ep := bEndpointAddress eo;
              in_ep := in_ep s |}.
Proof.
  induction l as [|ep l IH]; intros s Hf Ho Hi; [discriminate|].
  scan_step ep s; try discriminate; try (apply IH; assumption).
  - rewrite Hf. simpl. congruence.
  - rewrite Hf. simpl. rewrite IH; auto.
Qed.

Lemma scan_endpoints_pair (n : Z) (eo ei : libusb_endpoint_descriptor) :
  forall l s,
    found s = 0 ->
    filter bulk_out l = [eo] ->
    filter bulk_in l = [ei] ->
    scan_endpoints n l s =
    Return {| found := 3; iface_num := n; out_ep := bEndpointAddress eo;
              in_ep := bEndpointAddress ei |}.
Proof.
  induction l as [|ep l IH]; intros s Hf Ho Hi; [discriminate|].
  scan_step ep s; try (apply IH; assumption).
  - rewrite Hf. simpl. congruence.
  - rewrite Hf. simpl. injection Ho as <- Ho.
    rewrite (scan_endpoints_out_seen n ei); auto.
  - rewrite Hf. simpl. injection Hi as <- Hi.
    rewrite (scan_endpoints_in_seen n eo); auto.
  - rewrite Hf. simpl. rewrite IH; auto.
Qed.

(** Without a bulk OUT endpoint bit 0 of [found] is never set. *)
Lemma scan_endpoints_no_out (n : Z) :
  forall l s,
    found s = 0 \/ found s = 2 ->
    filter bulk_out l = [] ->
    exists s', scan_endpoints n l s = Continue s'.
Proof.
  induction l as [|ep l IH]; intros s Hf Ho; [eexists; reflexivity|].
  scan_step ep s; try discriminate; try (apply IH; assumption).
  - destruct Hf as [-> | ->]; simpl; apply IH; simpl; auto.
  - destruct Hf as [-> | ->]; simpl; apply IH; simpl; auto.
Qed.

(** Without a bulk IN endpoint bit 1 of [found] is never set. *)
Lemma scan_endpoints_no_in (n : Z) :
  forall l s,
    found s = 0 \/ found s = 1 ->
    filter bulk_in l = [] ->
    exists s', scan_endpoints n l s = Continue s'.
Proof.
  induction l as [|ep l IH]; intros s Hf Hi; [eexists; reflexivity|].
  scan_step ep s; try discriminate; try (apply IH; assumption).
  - destruct Hf as [-> | ->]; simpl; apply IH; simpl; auto.
  - destruct Hf as [-> | ->]; simpl; apply IH; simpl; auto.
Qed.

Lemma FindEndpoints_pair (cfg : libusb_config_descriptor) (n o i : Z)
    (eo ei : libusb_endpoint_descriptor) :
  filter bulk_out (interface1_endpoints cfg) = [eo] ->
  filter bulk_in (interface1_endpoints cfg) = [ei] ->
  Switch2_BulkUSB_FindEndpoints (Some cfg) n o i =
  (true, (1, bEndpointAddress eo, bEndpointAddress ei)).
Proof.
  intros Ho Hi. unfold Switch2_BulkUSB_FindEndpoints.
  rewrite scan_interfaces_flat, (scan_endpoints_pair 1 eo ei); auto.
Qed.

Lemma FindEndpoints_lacking (cfg : libusb_config_descriptor) (n o i : Z) :
  lacks_bulk_pair cfg ->
  fst (Switch2_BulkUSB_FindEndpoints (Some cfg) n o i) = false.
Proof.
  unfold Switch2_BulkUSB_FindEndpoints. rewrite scan_interfaces_flat.
  intros [Ho | Hi].
  - destruct (scan_endpoints_no_out 1 (interface1_endpoints cfg)
                {| found := 0; iface_num := n; out_ep := o; in_ep := i |})
      as [s' ->]; simpl; auto.
  - destruct (scan_endpoints_no_in 1 (interface1_endpoints cfg)
                {| found := 0; iface_num := n; out_ep := o; in_ep := i |})
      as [s' ->]; simpl; auto.
Qed.

End DiscoveryFacts.

(** C1.  When the endpoints carried by interface number 1 include exactly
    one bulk OUT endpoint and exactly one bulk IN endpoint, whatever other
    endpoints and other interface numbers the descriptor has,
    [Switch2_BulkUSB_FindEndpoints] returns true and leaves exactly those two
    addresses in [*out_ep] and [*in_ep] (and 1 in [*iface_num]); when
    interface 1 has no bulk OUT endpoint, or no bulk IN endpoint, it returns
    false. *)
Theorem FindEndpoints_interface1 {hdr : Headers}
    (cfg : libusb_config_descriptor) (n o i : Z) :
  (forall eo ei,
      filter bulk_out (interface1_endpoints cfg) = [eo] ->
      filter bulk_in (interface1_endpoints cfg) = [ei] ->
      Switch2_BulkUSB_FindEndpoints (Some cfg) n o i =
      (true, (1, bEndpointAddress eo, bEndpointAddress ei)))
  /\ (filter bulk_out (interface1_endpoints cfg) = []
      \/ filter bulk_in (interface1_endpoints cfg) = [] ->
      fst (Switch2_BulkUSB_FindEndpoints (Some cfg) n o i) = false).
Proof.
  split.
  - intros eo ei. apply FindEndpoints_pair.
  - apply FindEndpoints_lacking.
Qed.

Lemma FindEndpoints_interface1_witness :
  @Switch2_BulkUSB_FindEndpoints posix (Some composite_config) 0 0 0 =
    (true, (1, 0x02, 0x82))
  /\ fst (@Switch2_BulkUSB_FindEndpoints posix (Some no_vendor_config) 0 0 0)
     = false.
Proof.
  split.
  - apply (proj1 (@FindEndpoints_interface1 posix composite_config 0 0 0)
             (ep 0x02 2) (ep 0x82 2)); reflexivity.
  - apply (proj2 (@FindEndpoints_interface1 posix no_vendor_config 0 0 0)).
    left. reflexivity.
Defined.

(** First match wins across alternate settings: the OUT address recorded
    while scanning the first alternate setting is the one returned when the
    second one supplies the IN endpoint. *)
Example FindEndpoints_two_altsettings :
  @Switch2_BulkUSB_FindEndpoints posix (Some two_altsettings_config) 0 0 0 =
  (true, (1, 0x01, 0x82)).
Proof. reflexivity. Qed.

(** ** Machine arithmetic *)

Lemma u32_range (x : Z) : 0 <= u32 x < 2 ^ 32.
Proof. unfold u32. apply Z.mod_pos_bound. lia. Qed.

Lemma u32_small (x : Z) : 0 <= x < 2 ^ 32 -> u32 x = x.
Proof. unfold u32. apply Z.mod_small. Qed.

Lemma u32_idem (x : Z) : u32 (u32 x) = u32 x.
Proof. apply u32_small, u32_range. Qed.

Lemma u32_sub_l (a b : Z) : u32 (u32 a - b) = u32 (a - b).
Proof. unfold u32. apply Zminus_mod_idemp_l. Qed.

Lemma u32_sub_r (a b : Z) : u32 (a - u32 b) = u32 (a - b).
Proof. unfold u32. apply Zminus_mod_idemp_r. Qed.

Lemma u32_add_l (a b : Z) : u32 (u32 a + b) = u32 (a + b).
Proof. unfold u32. apply Zplus_mod_idemp_l. Qed.

Lemma u32_add_r (a b : Z) : u32 (a + u32 b) = u32 (a + b).
Proof. unfold u32. apply Zplus_mod_idemp_r. Qed.

Lemma i32_congr (a b : Z) : u32 a = u32 b -> i32 a = i32 b.
Proof. unfold i32, u32. intros ->. reflexivity. Qed.

Lemma i32_u32 (x : Z) : i32 (u32 x) = i32 x.
Proof. apply i32_congr, u32_idem. Qed.

Lemma u32_i32 (x : Z) : u32 (i32 x) = u32 x.
Proof.
  unfold i32. fold (u32 x). destruct (u32 x <? 2 ^ 31).
  - apply u32_idem.
  - unfold u32. rewrite Zminus_mod_idemp_l.
    replace (x - 2 ^ 32) with (x + (-1) * 2 ^ 32) by ring.
    apply Z.mod_add. lia.
Qed.

Lemma i32_add_l (a b : Z) : i32 (i32 a + b) = i32 (a + b).
Proof.
  apply i32_congr. rewrite <- u32_add_l, u32_i32. apply u32_add_l.
Qed.

Lemma i32_add_r (a b : Z) : i32 (a + u32 b) = i32 (a + b).
Proof. apply i32_congr, u32_add_r. Qed.

Lemma i32_small (x : Z) : 0 <= x <= INT_MAX -> i32 x = x.
Proof.
  unfold INT_MAX, i32. intros H. rewrite Z.mod_small by lia.
  destruct (x <? 2 ^ 31) eqn:E; [reflexivity|]. apply Z.ltb_ge in E. lia.
Qed.

Lemma i32_idem (x : Z) : i32 (i32 x) = i32 x.
Proof. apply i32_congr, u32_i32. Qed.

Lemma i32_add_mid (a b c : Z) : i32 (a + (u32 b + c)) = i32 (a + b + c).
Proof.
  replace (a + (u32 b + c)) with ((a + c) + u32 b) by ring.
  rewrite i32_add_r. f_equal. ring.
Qed.

Lemma u32_sub_mid (a b c : Z) : u32 (a - (u32 b + c)) = u32 (u32 (a - b) - c).
Proof.
  rewrite u32_sub_l.
  replace (a - (u32 b + c)) with ((a - c) - u32 b) by ring.
  rewrite u32_sub_r. f_equal. ring.
Qed.

(** ** The read loops *)

Lemma chunk_small (size : Z) :
  (0 <? size) = true -> 1 <= (if 64 <? size then 64 else size) <= 64.
Proof.
  intros H. apply Z.ltb_lt in H.
  destruct (64 <? size) eqn:E; [lia|]. apply Z.ltb_ge in E. lia.
Qed.

Lemma prepend_Some {A B : Type} (pre : list call)
    (r : option (A * B * list call)) (v : A) (m : B) (calls : list call) :
  prepend pre r = Some (v, m, calls) ->
  exists cs, r = Some (v, m, cs) /\ calls = pre ++ cs.
Proof.
  destruct r as [[[v0 m0] cs]|]; simpl; [|discriminate].
  intros H. injection H as -> -> <-. eauto.
Qed.

Section ReadLoops.
Context {hdr : Headers}.

Lemma libusb_Read_loop_done (dev : nat -> bulk_reply) (bulk : Switch2_BulkUSB)
    (fuel k : nat) (size data total : Z) (m : memory) :
  size <= 0 ->
  libusb_Read_loop dev bulk fuel k size data total m = Some (total, m, []).
Proof.
  intros H. destruct fuel; simpl;
    (destruct (0 <? size) eqn:E; [apply Z.ltb_lt in E; lia|reflexivity]).
Qed.

(** The run of the libusb loop from iteration [k] on. *)
Lemma libusb_Read_loop_run (dev : nat -> bulk_reply) (bulk : Switch2_BulkUSB) :
  forall fuel k size data total m v m' calls,
    i32 total = total ->
    libusb_Read_loop dev bulk fuel k size data total m = Some (v, m', calls) ->
    let count := fun j => libusb_count (dev j) in
    let n := iterations calls in
    Forall (fun len => 1 <= len <= 64) (requests calls)
    /\ ((forall j, (j < n)%nat -> count (k + j)%nat <> None) ->
        v = i32 (total + sum_counts count k n))
    /\ (forall j,
          (j < n)%nat ->
          (forall t len,
              count (k + j)%nat = Some t ->
              nth_error (requests calls) j = Some len -> t < len) ->
          S j = n)
    /\ (forall j,
          (j < n)%nat ->
          u32 (size - sum_counts count k (S j)) = 0 ->
          S j = n).
Proof.
  induction fuel as [|fuel IH]; intros k size data total m v m' calls Ht;
    (destruct (0 <? size) eqn:Hs;
     [|apply Z.ltb_ge in Hs; rewrite libusb_Read_loop_done by assumption;
       intros H; injection H as <- <- <-; cbv zeta;
       change (iterations []) with 0%nat; simpl; repeat split;
       [apply Forall_nil | intros _; rewrite Z.add_0_r; auto
       | intros j Hj; lia | intros j Hj; lia]]).
  { simpl. rewrite Hs. discriminate. }
  simpl libusb_Read_loop. rewrite Hs.
  set (chunk := if 64 <? size then 64 else size).
  assert (Hchunk : 1 <= chunk <= 64) by (apply chunk_small; assumption).
  destruct (res (dev k) <? 0) eqn:Hres.
  { (* the transfer failed *)
    intros H; injection H as <- <- <-; cbv zeta; unfold iterations; simpl.
    repeat split.
    - constructor; [assumption|constructor].
    - intros Hall. exfalso. apply (Hall 0%nat); [lia|].
      rewrite Nat.add_0_r. unfold libusb_count. rewrite Hres. reflexivity.
    - intros j Hj _. lia.
    - intros j Hj _. lia. }
  assert (Hcount : libusb_count (dev k) = Some (u32 (transferred (dev k))))
    by (unfold libusb_count; rewrite Hres; reflexivity).
  destruct (u32 (transferred (dev k)) <? chunk) eqn:Hshort.
  { (* a short packet *)
    intros H; injection H as <- <- <-; cbv zeta; unfold iterations; simpl.
    repeat split.
    - constructor; [assumption|constructor].
    - intros _. rewrite Hcount. simpl. rewrite Z.add_0_r.
      symmetry. apply i32_add_r.
    - intros j Hj _. lia.
    - intros j Hj _. lia. }
  (* a full chunk: the loop goes on *)
  intros H. apply prepend_Some in H. destruct H as (cs & Hrec & ->).
  pose proof Hrec as Hrec0.
  apply IH in Hrec; [|apply i32_idem].
  destruct Hrec as (Hsmall & Hsum & Hstop & Hfull).
  cbv zeta. change (iterations ([_] ++ cs)) with (S (iterations cs)).
  simpl. repeat split.
  - constructor; assumption.
  - intros Hall. rewrite Hsum.
    + rewrite Hcount. simpl. rewrite i32_add_l. symmetry. apply i32_add_mid.
    + intros j Hj. specialize (Hall (S j)). rewrite Nat.add_succ_r in Hall.
      apply Hall. lia.
  - intros [|j] Hj Hlt.
    + rewrite Nat.add_0_r in Hlt. specialize (Hlt _ chunk Hcount eq_refl).
      apply Z.ltb_ge in Hshort. lia.
    + f_equal. apply Hstop; [lia|].
      intros t len Hc Hnth. apply (Hlt t len); [|exact Hnth].
      rewrite Nat.add_succ_r. exact Hc.
  - intros [|j] Hj Hz.
    + simpl in Hz. rewrite Hcount in Hz. simpl in Hz.
      rewrite Z.add_0_r, u32_sub_r in Hz.
      rewrite libusb_Read_loop_done in Hrec0 by lia.
      injection Hrec0 as _ _ <-. reflexivity.
    + f_equal. apply Hfull; [lia|].
      rewrite <- Hz. simpl. rewrite Hcount. simpl.
      symmetry. apply u32_sub_mid.
Qed.

Lemma WinUSB_Read_loop_done (dev : nat -> overlapped_reply)
    (bulk : Switch2_BulkUSB) (fuel k : nat) (size data total : Z)
    (m : memory) :
  size <= 0 ->
  WinUSB_Read_loop dev bulk fuel k size data total m =
  Some (i32 total, m, []).
Proof.
  intros H. destruct fuel; simpl;
    (destruct (0 <? size) eqn:E; [apply Z.ltb_lt in E; lia|reflexivity]).
Qed.

(** One iteration of the native loop, told by the outcome of its transfer. *)
Lemma WinUSB_Read_loop_step (dev : nat -> overlapped_reply)
    (bulk : Switch2_BulkUSB) (fuel k : nat) (size data total : Z)
    (m : memory) :
  (0 <? size) = true ->
  let chunk := if 64 <? size then 64 else size in
  match winusb_count (dev k) with
  | Some t =>
      exists pre m',
        requests pre = [chunk] /\ iterations pre = 1%nat
        /\ WinUSB_Read_loop dev bulk (S fuel) k size data total m =
           if t <? chunk then Some (i32 (u32 (total + t)), m', pre)
           else prepend pre
                  (WinUSB_Read_loop dev bulk fuel (S k) (u32 (size - t))
                     (data + chunk) (u32 (total + t)) m')
  | None =>
      exists code cs m',
        WinUSB_Read_loop dev bulk (S fuel) k size data total m =
        Some ((if 0 <? total then i32 total else code), m', cs)
        /\ (code = -1 \/ code = -7)
        /\ (requests cs = [] \/ requests cs = [chunk])
        /\ iterations cs = 1%nat
  end.
Proof.
  intros Hs chunk. unfold winusb_count. simpl WinUSB_Read_loop. rewrite Hs.
  fold chunk.
  destruct (event (dev k)) eqn:Hev;
    [exists (-1); do 2 eexists; split; [reflexivity|auto] | |];
    (destruct (pipe_ok (dev k));
     [do 2 eexists; split; [|split; [|reflexivity]]; reflexivity|];
     destruct (last_error (dev k) =? ERROR_IO_PENDING); simpl;
     [destruct (wait (dev k) =? WAIT_OBJECT_0);
      [do 2 eexists; split; [|split; [|reflexivity]]; reflexivity
      |exists (-7); do 2 eexists; split; [reflexivity|auto]]
     |exists (-1); do 2 eexists; split; [reflexivity|auto]]).
Qed.

Lemma iterations_app (l1 l2 : list call) :
  iterations (l1 ++ l2) = (iterations l1 + iterations l2)%nat.
Proof. unfold iterations. rewrite filter_app. apply length_app. Qed.

Lemma requests_app (l1 l2 : list call) :
  requests (l1 ++ l2) = requests l1 ++ requests l2.
Proof. unfold requests. apply flat_map_app. Qed.

(** The run of the native loop from iteration [k] on. *)
Lemma WinUSB_Read_loop_run (dev : nat -> overlapped_reply)
    (bulk : Switch2_BulkUSB) :
  forall fuel k size data total m v m' calls,
    WinUSB_Read_loop dev bulk fuel k size data total m = Some (v, m', calls) ->
    let count := fun j => winusb_count (dev j) in
    let n := iterations calls in
    Forall (fun len => 1 <= len <= 64) (requests calls)
    /\ ((forall j, (j < n)%nat -> count (k + j)%nat <> None) ->
        v = i32 (total + sum_counts count k n))
    /\ (forall j,
          (j < n)%nat ->
          (forall t len,
              count (k + j)%nat = Some t ->
              nth_error (requests calls) j = Some len -> t < len) ->
          S j = n)
    /\ (forall j,
          (j < n)%nat ->
          u32 (size - sum_counts count k (S j)) = 0 ->
          S j = n).
Proof.
  induction fuel as [|fuel IH]; intros k size data total m v m' calls;
    (destruct (0 <? size) eqn:Hs;
     [|apply Z.ltb_ge in Hs; rewrite WinUSB_Read_loop_done by assumption;
       intros H; injection H as <- <- <-; cbv zeta;
       change (iterations []) with 0%nat; simpl; repeat split;
       [apply Forall_nil | intros _; rewrite Z.add_0_r; auto
       | intros j Hj; lia | intros j Hj; lia]]).
  { simpl. rewrite Hs. discriminate. }
  pose proof (WinUSB_Read_loop_step dev bulk fuel k size data total m Hs)
    as Hstep. cbv zeta in Hstep.
  set (chunk := if 64 <? size then 64 else size) in *.
  assert (Hchunk : 1 <= chunk <= 64) by (apply chunk_small; assumption).
  destruct (winusb_count (dev k)) as [t|] eqn:Hcount.
  2: { (* the transfer failed or timed out *)
    destruct Hstep as (code & cs & m1 & -> & _ & Hreq & Hit).
    intros H; injection H as <- <- <-. cbv zeta. rewrite Hit.
    repeat split.
    - destruct Hreq as [-> | ->];
        [constructor | constructor; [assumption|constructor]].
    - intros Hall. exfalso. apply (Hall 0%nat); [lia|].
      rewrite Nat.add_0_r. exact Hcount.
    - intros j Hj _. lia.
    - intros j Hj _. lia. }
  destruct Hstep as (pre & m1 & Hpre & Hit & ->).
  destruct (t <? chunk) eqn:Hshort.
  { (* a short packet *)
    intros H; injection H as <- <- <-. cbv zeta. rewrite Hpre, Hit. simpl.
    repeat split.
    - constructor; [assumption|constructor].
    - intros _. rewrite Hcount. simpl. rewrite Z.add_0_r. apply i32_u32.
    - intros j Hj _. lia.
    - intros j Hj _. lia. }
  (* a full chunk: the loop goes on *)
  intros H. apply prepend_Some in H. destruct H as (cs & Hrec & ->).
  pose proof Hrec as Hrec0.
  apply IH in Hrec.
  destruct Hrec as (Hsmall & Hsum & Hstop & Hfull).
  cbv zeta. rewrite requests_app, iterations_app, Hpre, Hit. simpl.
  repeat split.
  - constructor; assumption.
  - intros Hall. rewrite Hsum.
    + rewrite Hcount. simpl. apply i32_congr.
      rewrite u32_add_l. f_equal. ring.
    + intros j Hj. specialize (Hall (S j)). rewrite Nat.add_succ_r in Hall.
      apply Hall. lia.
  - intros [|j] Hj Hlt.
    + rewrite Nat.add_0_r in Hlt. specialize (Hlt _ chunk Hcount eq_refl).
      apply Z.ltb_ge in Hshort. lia.
    + f_equal. apply Hstop; [lia|].
      intros t' len Hc Hnth. apply (Hlt t' len); [|exact Hnth].
      rewrite Nat.add_succ_r. exact Hc.
  - intros [|j] Hj Hz.
    + simpl in Hz. rewrite Hcount in Hz. simpl in Hz.
      rewrite Z.add_0_r in Hz.
      rewrite WinUSB_Read_loop_done in Hrec0 by lia.
      injection Hrec0 as _ _ <-. reflexivity.
    + f_equal. apply Hfull; [lia|].
      rewrite <- Hz. simpl. rewrite Hcount. simpl.
      rewrite u32_sub_l. f_equal. ring.
Qed.

(** *** Termination *)

(** What the bound on the replies gives for the iterations after a full
    chunk. *)
Lemma within_request_next (count : nat -> option Z) (k : nat) (size : Z) :
  0 < size ->
  (forall (j : nat) t,
      64 * Z.of_nat j < size -> count (k + j)%nat = Some t ->
      0 <= t <= chunk_of (size - 64 * Z.of_nat j)) ->
  forall (j : nat) t,
    64 * Z.of_nat j < size - chunk_of size ->
    count (S k + j)%nat = Some t ->
    0 <= t <= chunk_of (size - chunk_of size - 64 * Z.of_nat j).
Proof.
  intros Hpos H j t Hj Hc. unfold chunk_of at 1 in Hj.
  unfold chunk_of at 2. destruct (64 <? size) eqn:E.
  - replace (size - 64 - 64 * Z.of_nat j)
      with (size - 64 * Z.of_nat (S j)) by lia.
    apply H; [lia|]. rewrite Nat.add_succ_r. exact Hc.
  - lia.
Qed.

Lemma libusb_Read_loop_terminates (dev : nat -> bulk_reply)
    (bulk : Switch2_BulkUSB) :
  forall fuel k size data total m,
    0 <= size < 2 ^ 32 ->
    size <= 64 * Z.of_nat fuel ->
    (forall (j : nat) t,
        64 * Z.of_nat j < size -> libusb_count (dev (k + j)%nat) = Some t ->
        0 <= t <= chunk_of (size - 64 * Z.of_nat j)) ->
    exists v m' calls,
      libusb_Read_loop dev bulk fuel k size data total m = Some (v, m', calls)
      /\ 64 * Z.of_nat (List.length (requests calls)) < size + 64.
Proof.
  induction fuel as [|fuel IH]; intros k size data total m Hsize Hfuel Hdev;
    (destruct (0 <? size) eqn:Hs;
     [apply Z.ltb_lt in Hs
     |apply Z.ltb_ge in Hs; rewrite libusb_Read_loop_done by assumption;
      do 3 eexists; split; [reflexivity|simpl; lia]]).
  { lia. }
  simpl libusb_Read_loop.
  replace (0 <? size) with true by (symmetry; apply Z.ltb_lt; assumption).
  fold (chunk_of size).
  assert (Hchunk : 1 <= chunk_of size <= 64 /\ chunk_of size <= size).
  { unfold chunk_of. destruct (64 <? size) eqn:E; [apply Z.ltb_lt in E|
      apply Z.ltb_ge in E]; lia. }
  destruct (res (dev k) <? 0) eqn:Hres;
    [do 3 eexists; split; [reflexivity|simpl; lia]|].
  destruct (u32 (transferred (dev k)) <? chunk_of size) eqn:Hshort;
    [do 3 eexists; split; [reflexivity|simpl; lia]|].
  apply Z.ltb_ge in Hshort.
  assert (Ht : u32 (transferred (dev k)) = chunk_of size).
  { specialize (Hdev 0%nat (u32 (transferred (dev k)))).
    rewrite Nat.add_0_r, Z.mul_0_r, Z.sub_0_r in Hdev.
    unfold libusb_count in Hdev. rewrite Hres in Hdev.
    specialize (Hdev Hs eq_refl). lia. }
  rewrite <- (u32_sub_r size), Ht, u32_small by lia.
  destruct (IH (S k) (size - chunk_of size) (data + chunk_of size)
              (i32 (total + transferred (dev k)))
              (store m data (payload (dev k))))
    as (v & m' & cs & Hrun & Hn).
  - lia.
  - unfold chunk_of. destruct (64 <? size) eqn:E; lia.
  - exact (within_request_next (fun j => libusb_count (dev j)) k size Hs Hdev).
  - rewrite Hrun. simpl. do 3 eexists. split; [reflexivity|].
    simpl. unfold chunk_of in *. destruct (64 <? size) eqn:E; lia.
Qed.

Lemma WinUSB_Read_loop_terminates (dev : nat -> overlapped_reply)
    (bulk : Switch2_BulkUSB) :
  forall fuel k size data total m,
    0 <= size < 2 ^ 32 ->
    size <= 64 * Z.of_nat fuel ->
    (forall (j : nat) t,
        64 * Z.of_nat j < size -> winusb_count (dev (k + j)%nat) = Some t ->
        0 <= t <= chunk_of (size - 64 * Z.of_nat j)) ->
    exists v m' calls,
      WinUSB_Read_loop dev bulk fuel k size data total m = Some (v, m', calls)
      /\ 64 * Z.of_nat (List.length (requests calls)) < size + 64.
Proof.
  induction fuel as [|fuel IH]; intros k size data total m Hsize Hfuel Hdev;
    (destruct (0 <? size) eqn:Hs;
     [|apply Z.ltb_ge in Hs; rewrite WinUSB_Read_loop_done by assumption;
      do 3 eexists; split; [reflexivity|simpl; lia]]).
  { apply Z.ltb_lt in Hs. lia. }
  pose proof (WinUSB_Read_loop_step dev bulk fuel k size data total m Hs)
    as Hstep. cbv zeta in Hstep. fold (chunk_of size) in Hstep.
  apply Z.ltb_lt in Hs.
  assert (Hchunk : 1 <= chunk_of size <= 64 /\ chunk_of size <= size).
  { unfold chunk_of. destruct (64 <? size) eqn:E; [apply Z.ltb_lt in E|
      apply Z.ltb_ge in E]; lia. }
  destruct (winusb_count (dev k)) as [t|] eqn:Hcount.
  2: { destruct Hstep as (code & cs & m1 & -> & _ & Hreq & _).
       do 3 eexists. split; [reflexivity|].
       destruct Hreq as [-> | ->]; simpl; lia. }
  destruct Hstep as (pre & m1 & Hpre & _ & ->).
  destruct (t <? chunk_of size) eqn:Hshort;
    [do 3 eexists; split; [reflexivity|rewrite Hpre; simpl; lia]|].
  apply Z.ltb_ge in Hshort.
  assert (Ht : t = chunk_of size).
  { specialize (Hdev 0%nat t).
    rewrite Nat.add_0_r, Z.mul_0_r, Z.sub_0_r in Hdev.
    specialize (Hdev Hs Hcount). lia. }
  subst t. rewrite (u32_small (size - chunk_of size)) by lia.
  destruct (IH (S k) (size - chunk_of size) (data + chunk_of size)
              (u32 (total + chunk_of size)) m1)
    as (v & m' & cs & Hrun & Hn).
  - lia.
  - unfold chunk_of. destruct (64 <? size) eqn:E; lia.
  - exact (within_request_next (fun j => winusb_count (dev j)) k size Hs Hdev).
  - rewrite Hrun. simpl. do 3 eexists. split; [reflexivity|].
    unfold requests in *. rewrite flat_map_app, Hpre, length_app. simpl.
    unfold chunk_of in *. destruct (64 <? size) eqn:E; lia.
Qed.

(** *** Fuel only bounds the number of iterations *)

Lemma libusb_Read_loop_more_fuel (dev : nat -> bulk_reply)
    (bulk : Switch2_BulkUSB) :
  forall fuel k size data total m r,
    libusb_Read_loop dev bulk fuel k size data total m = Some r ->
    libusb_Read_loop dev bulk (S fuel) k size data total m = Some r.
Proof.
  induction fuel as [|fuel IH]; intros k size data total m r.
  - simpl. destruct (0 <? size); [discriminate|auto].
  - intros H. remember (S fuel) as fuel1 eqn:Ef.
    simpl libusb_Read_loop. subst fuel1. simpl libusb_Read_loop in H.
    destruct (0 <? size); [|exact H].
    destruct (res (dev k) <? 0); [exact H|].
    destruct (u32 (transferred (dev k)) <? (if 64 <? size then 64 else size));
      [exact H|].
    destruct (libusb_Read_loop dev bulk fuel (S k) _ _ _ _) as [r'|] eqn:E;
      [|discriminate].
    rewrite (IH _ _ _ _ _ _ E). exact H.
Qed.

Lemma WinUSB_Read_loop_more_fuel (dev : nat -> overlapped_reply)
    (bulk : Switch2_BulkUSB) :
  forall fuel k size data total m r,
    WinUSB_Read_loop dev bulk fuel k size data total m = Some r ->
    WinUSB_Read_loop dev bulk (S fuel) k size data total m = Some r.
Proof.
  induction fuel as [|fuel IH]; intros k size data total m r.
  - simpl. destruct (0 <? size); [discriminate|auto].
  - intros H. remember (S fuel) as fuel1 eqn:Ef.
    simpl WinUSB_Read_loop. subst fuel1. simpl WinUSB_Read_loop in H.
    destruct (0 <? size); [|exact H].
    destruct (event (dev k)); [exact H| |];
      (destruct (pipe_ok (dev k));
       [|destruct (last_error (dev k) =? ERROR_IO_PENDING); [|exact H];
         destruct (wait (dev k) =? WAIT_OBJECT_0); [|exact H]];
       match goal with
       | |- context [if ?c then _ else _] => destruct c; [exact H|]
       end;
       match type of H with
       | prepend _ ?x = _ =>
           destruct x as [r'|] eqn:E; [|discriminate];
           rewrite (IH _ _ _ _ _ _ E); exact H
       end).
Qed.

(** *** Progress *)

(** The size that remains one iteration later. *)
Lemma remaining_next (count : nat -> option Z) (k : nat) (size : Z) (j : nat) :
  remaining count (S k) (u32 (size - delivered (count k))) j =
  remaining count k size (S j).
Proof.
  induction j as [|j IH].
  - simpl. rewrite Nat.add_0_r. reflexivity.
  - simpl remaining at 1. rewrite IH. simpl.
    rewrite Nat.add_succ_r. reflexivity.
Qed.

(** What remains is what was asked for less what was delivered. *)
Lemma remaining_sum (count : nat -> option Z) :
  forall j k size,
    remaining count k size (S j) = u32 (size - sum_counts count k (S j)).
Proof.
  induction j as [|j IH]; intros k size.
  - simpl. rewrite Nat.add_0_r, Z.add_0_r. reflexivity.
  - rewrite <- remaining_next, IH.
    change (sum_counts count k (S (S j)))
      with (delivered (count k) + sum_counts count (S k) (S j)).
    rewrite u32_sub_l. f_equal. ring.
Qed.

(** A loop that is not entered. *)
Lemma reads_on_nothing (count : nat -> option Z) (k : nat) (size : Z) :
  size <= 0 -> reads_on count k size [].
Proof.
  intros Hs. unfold reads_on. change (iterations []) with 0%nat. simpl.
  repeat split; try lia.
  - intros [|j] len; discriminate.
  - intros [|j] E; contradiction.
Qed.

(** An iteration that is the last: its transfer failed, or was short. *)
Lemma reads_on_last (count : nat -> option Z) (k : nat) (size : Z)
    (cs : list call) :
  0 < size ->
  iterations cs = 1%nat ->
  requests cs = [chunk_of size] \/ (requests cs = [] /\ count k = None) ->
  count k = None \/ (exists t, count k = Some t /\ t < chunk_of size) ->
  reads_on count k size cs.
Proof.
  intros Hs Hit Hreq Hlast. unfold reads_on. rewrite Hit. repeat split.
  - intros _. exact Hs.
  - intros _. lia.
  - intros j len E. destruct Hreq as [Hreq | [Hreq _]]; rewrite Hreq in E.
    + destruct j as [|[|j]]; try discriminate. injection E as <-. reflexivity.
    + destruct j; discriminate.
  - intros [|j] Hj Hc; [|lia]. rewrite Nat.add_0_r in Hc.
    destruct Hreq as [-> | [_ E]]; [discriminate|contradiction].
  - intros [|j] E; [lia|]. exfalso. apply E.
    destruct Hreq as [-> | [-> _]]; destruct j; reflexivity.
  - intros [|j] t Hj Hc Ht _; [|lia]. exfalso.
    rewrite Nat.add_0_r in Hc. simpl in Ht.
    destruct Hlast as [E | (t' & E & Hlt)]; rewrite E in Hc; [discriminate|].
    injection Hc as <-. lia.
Qed.

(** An iteration that transferred a full chunk, and the rest of the run. *)
Lemma reads_on_next (count : nat -> option Z) (k : nat) (size : Z)
    (pre cs : list call) :
  0 < size ->
  iterations pre = 1%nat ->
  requests pre = [chunk_of size] ->
  reads_on count (S k) (u32 (size - delivered (count k))) cs ->
  reads_on count k size (pre ++ cs).
Proof.
  intros Hs Hit Hreq (Hstart & Hlen & Hmade & Hof & Hgo). unfold reads_on.
  rewrite iterations_app, requests_app, Hit, Hreq.
  change (1 + iterations cs)%nat with (S (iterations cs)).
  change ([chunk_of size] ++ requests cs) with (chunk_of size :: requests cs).
  repeat split.
  - intros _. exact Hs.
  - intros _. lia.
  - intros [|j] len E.
    + injection E as <-. reflexivity.
    + rewrite <- remaining_next. apply Hlen. exact E.
  - intros [|j] Hj Hc; [discriminate|].
    apply Hmade; [lia|]. rewrite Nat.add_succ_r in Hc. exact Hc.
  - intros [|j] E; [lia|]. apply -> Nat.succ_lt_mono. apply Hof. exact E.
  - intros [|j] t Hj Hc Ht Hrem.
    + apply -> Nat.succ_lt_mono. apply Hstart.
      rewrite <- remaining_next in Hrem. simpl in Hrem.
      pose proof (u32_range (size - delivered (count k))). lia.
    + apply -> Nat.succ_lt_mono.
      rewrite <- remaining_next in Ht, Hrem.
      apply (Hgo j t); [lia| |exact Ht|exact Hrem].
      rewrite Nat.add_succ_r in Hc. exact Hc.
Qed.

(** The generic loop goes on for as long as it is meant to. *)
Lemma libusb_Read_loop_progress (dev : nat -> bulk_reply)
    (bulk : Switch2_BulkUSB) :
  forall fuel k size data total m v m' calls,
    libusb_Read_loop dev bulk fuel k size data total m = Some (v, m', calls) ->
    reads_on (fun j => libusb_count (dev j)) k size calls.
Proof.
  induction fuel as [|fuel IH]; intros k size data total m v m' calls;
    (destruct (0 <? size) eqn:Hs;
     [|apply Z.ltb_ge in Hs; rewrite libusb_Read_loop_done by assumption;
       intros H; injection H as <- <- <-; apply reads_on_nothing, Hs]).
  { simpl. rewrite Hs. discriminate. }
  simpl libusb_Read_loop. rewrite Hs. fold (chunk_of size).
  apply Z.ltb_lt in Hs.
  destruct (res (dev k) <? 0) eqn:Hres.
  { intros H; injection H as <- <- <-.
    apply reads_on_last; [exact Hs|reflexivity|left; reflexivity|].
    left. unfold libusb_count. rewrite Hres. reflexivity. }
  assert (Hcount : libusb_count (dev k) = Some (u32 (transferred (dev k))))
    by (unfold libusb_count; rewrite Hres; reflexivity).
  destruct (u32 (transferred (dev k)) <? chunk_of size) eqn:Hshort.
  { intros H; injection H as <- <- <-.
    apply reads_on_last; [exact Hs|reflexivity|left; reflexivity|].
    right. eexists. split; [exact Hcount|]. apply Z.ltb_lt. exact Hshort. }
  intros H. apply prepend_Some in H. destruct H as (cs & Hrec & ->).
  apply IH in Hrec.
  apply reads_on_next; [exact Hs|reflexivity|reflexivity|].
  rewrite Hcount. simpl. rewrite u32_sub_r. exact Hrec.
Qed.

(** So does the native loop. *)
Lemma WinUSB_Read_loop_progress (dev : nat -> overlapped_reply)
    (bulk : Switch2_BulkUSB) :
  forall fuel k size data total m v m' calls,
    WinUSB_Read_loop dev bulk fuel k size data total m = Some (v, m', calls) ->
    reads_on (fun j => winusb_count (dev j)) k size calls.
Proof.
  induction fuel as [|fuel IH]; intros k size data total m v m' calls;
    (destruct (0 <? size) eqn:Hs;
     [|apply Z.ltb_ge in Hs; rewrite WinUSB_Read_loop_done by assumption;
       intros H; injection H as <- <- <-; apply reads_on_nothing, Hs]).
  { simpl. rewrite Hs. discriminate. }
  pose proof (WinUSB_Read_loop_step dev bulk fuel k size data total m Hs)
    as Hstep. cbv zeta in Hstep. fold (chunk_of size) in Hstep.
  apply Z.ltb_lt in Hs.
  destruct (winusb_count (dev k)) as [t|] eqn:Hcount.
  2: { destruct Hstep as (code & cs & m1 & -> & _ & Hreq & Hit).
       intros H; injection H as <- <- <-.
       apply reads_on_last; [exact Hs|exact Hit| |left; exact Hcount].
       destruct Hreq as [E | E]; [right; split; assumption|left; exact E]. }
  destruct Hstep as (pre & m1 & Hpre & Hit & ->).
  destruct (t <? chunk_of size) eqn:Hshort.
  { intros H; injection H as <- <- <-.
    apply reads_on_last; [exact Hs|exact Hit|left; exact Hpre|].
    right. exists t. split; [exact Hcount|]. apply Z.ltb_lt. exact Hshort. }
  intros H. apply prepend_Some in H. destruct H as (cs & Hrec & ->).
  apply IH in Hrec.
  apply reads_on_next; [exact Hs|exact Hit|exact Hpre|].
  rewrite Hcount. exact Hrec.
Qed.

(** *** The public [Read] *)

Lemma Read_more_fuel (usb : nat -> bulk_reply) (win : nat -> overlapped_reply)
    (bulk : Switch2_BulkUSB) (size : Z) (m : memory)
    (r : Z * memory * list call) :
  forall fuel extra,
    Switch2_BulkUSB_Read usb win fuel bulk size m = Some r ->
    Switch2_BulkUSB_Read usb win (extra + fuel) bulk size m = Some r.
Proof.
  intros fuel extra H. induction extra as [|extra IH]; [exact H|].
  revert IH. unfold Switch2_BulkUSB_Read, Switch2_BulkUSB_WinUSB_Read.
  destruct (SDL_PLATFORM_WIN32 && use_winusb bulk); simpl Nat.add.
  - apply WinUSB_Read_loop_more_fuel.
  - apply libusb_Read_loop_more_fuel.
Qed.

Lemma Read_run (usb : nat -> bulk_reply) (win : nat -> overlapped_reply)
    (fuel : nat) (bulk : Switch2_BulkUSB) (size : Z) (m : memory)
    (v : Z) (m' : memory) (calls : list call) :
  Switch2_BulkUSB_Read usb win fuel bulk size m = Some (v, m', calls) ->
  chunked_read
    (fun j => if SDL_PLATFORM_WIN32 && use_winusb bulk
              then winusb_count (win j) else libusb_count (usb j))
    size v calls.
Proof.
  unfold Switch2_BulkUSB_Read, Switch2_BulkUSB_WinUSB_Read.
  destruct (SDL_PLATFORM_WIN32 && use_winusb bulk); intros H.
  - pose proof (WinUSB_Read_loop_progress _ _ _ _ _ _ _ _ _ _ _ H)
      as (P1 & P2 & P3 & P4 & P5).
    apply WinUSB_Read_loop_run in H.
    destruct H as (H1 & H2 & H3 & H4). split; auto.
  - pose proof (libusb_Read_loop_progress _ _ _ _ _ _ _ _ _ _ _ H)
      as (P1 & P2 & P3 & P4 & P5).
    apply libusb_Read_loop_run in H; [|reflexivity].
    destruct H as (H1 & H2 & H3 & H4). split; auto.
Qed.

End ReadLoops.

(** The number of iterations is fixed by the size asked for and by the
    outcome of the transfers: two runs that read by chunks against the same
    replies make the same number of iterations. *)
Lemma chunked_read_iterations_le (count : nat -> option Z) (size v v' : Z)
    (calls calls' : list call) :
  chunked_read count size v calls ->
  chunked_read count size v' calls' ->
  (iterations calls <= iterations calls')%nat.
Proof.
  intros H H'.
  destruct (le_lt_dec (iterations calls) (iterations calls')) as [Hle | Hlt];
    [exact Hle|exfalso].
  destruct (iterations calls') as [|n'] eqn:En'.
  - (* the second run made no iteration *)
    assert (Hsize : 0 < size).
    { apply (starts_when_asked _ _ _ _ H). lia. }
    apply (starts_when_asked _ _ _ _ H') in Hsize. lia.
  - (* iteration n' is the last of the second run, not of the first *)
    assert (Hn : (n' < iterations calls')%nat) by lia.
    destruct (count n') as [t|] eqn:Hc.
    2: { assert (S n' = iterations calls); [|lia].
         apply (stops_when_short _ _ _ _ H); [lia|].
         intros t len E. rewrite Hc in E. discriminate. }
    assert (Hreq : nth_error (requests calls) n' <> None).
    { apply (requested _ _ _ _ H); [lia|]. rewrite Hc. discriminate. }
    destruct (nth_error (requests calls) n') as [len|] eqn:Elen;
      [clear Hreq|contradiction].
    pose proof (requests_remaining _ _ _ _ H _ _ Elen) as Hlen.
    destruct (Z_lt_le_dec t len) as [Hshort | Hfull].
    { assert (S n' = iterations calls); [|lia].
      apply (stops_when_short _ _ _ _ H); [lia|].
      intros t0 len0 E0 E1. rewrite Hc in E0. rewrite Elen in E1.
      injection E0 as <-. injection E1 as <-. exact Hshort. }
    destruct (Z.eq_dec (remaining count 0 size (S n')) 0) as [Hz | Hnz].
    { assert (S n' = iterations calls); [|lia].
      apply (stops_when_full _ _ _ _ H); [lia|].
      rewrite <- remaining_sum. exact Hz. }
    assert (S n' < iterations calls')%nat; [|lia].
    apply (goes_on _ _ _ _ H' n' t); [lia|exact Hc| |exact Hnz].
    rewrite <- Hlen. exact Hfull.
Qed.

Lemma chunked_read_iterations (count : nat -> option Z) (size v v' : Z)
    (calls calls' : list call) :
  chunked_read count size v calls ->
  chunked_read count size v' calls' ->
  iterations calls = iterations calls'.
Proof.
  intros H H'. apply Nat.le_antisymm; eapply chunked_read_iterations_le;
    eassumption.
Qed.

(** When no reply delivers more than [within_request] allows, the bound it
    states for iteration [j] is the length of the request of that
    iteration: request [j] asks for [min 64 (size - 64 j)], and [64 j]
    bytes have been read before it. *)
Lemma chunked_read_requests (count : nat -> option Z) (size v : Z)
    (calls : list call) :
  0 <= size < 2 ^ 32 ->
  chunked_read count size v calls ->
  within_request count size ->
  forall (j : nat) len,
    nth_error (requests calls) j = Some len ->
    64 * Z.of_nat j < size
    /\ remaining count 0 size j = size - 64 * Z.of_nat j
    /\ len = chunk_of (size - 64 * Z.of_nat j).
Proof.
  intros Hsize H Hdev.
  assert (Hall : forall j : nat,
             nth_error (requests calls) j <> None ->
             64 * Z.of_nat j < size
             /\ remaining count 0 size j = size - 64 * Z.of_nat j).
  { induction j as [|j IH]; intros Hj.
    - apply (requests_of_iterations _ _ _ _ H) in Hj.
      assert (0 < size) by (apply (starts_when_asked _ _ _ _ H); lia).
      simpl. lia.
    - assert (Hprev : nth_error (requests calls) j <> None).
      { intros E. apply Hj. apply nth_error_None in E.
        apply nth_error_None. lia. }
      destruct (IH Hprev) as [Hlt Hrem].
      destruct (nth_error (requests calls) j) as [len|] eqn:Elen;
        [clear Hprev|contradiction].
      pose proof (requests_remaining _ _ _ _ H _ _ Elen) as Hlen.
      rewrite Hrem in Hlen.
      pose proof (requests_of_iterations _ _ _ _ H _ Hj) as Hn.
      assert (Hchunk : 1 <= len <= 64 /\ len <= size - 64 * Z.of_nat j).
      { subst len. unfold chunk_of.
        destruct (64 <? size - 64 * Z.of_nat j) eqn:E;
          [apply Z.ltb_lt in E|apply Z.ltb_ge in E]; lia. }
      (* iteration [j] is not the last one *)
      destruct (count j) as [t|] eqn:Hc.
      2: { assert (S j = iterations calls); [|lia].
           apply (stops_when_short _ _ _ _ H); [lia|].
           intros t len' E. rewrite Hc in E. discriminate. }
      pose proof (Hdev j t Hlt Hc) as Ht. rewrite <- Hlen in Ht.
      destruct (Z_lt_le_dec t len) as [Hshort | Hfull].
      { assert (S j = iterations calls); [|lia].
        apply (stops_when_short _ _ _ _ H); [lia|].
        intros t0 len0 E0 E1. rewrite Hc in E0. rewrite Elen in E1.
        injection E0 as <-. injection E1 as <-. exact Hshort. }
      assert (t = len) by lia. subst t.
      assert (Hnext : remaining count 0 size (S j)
                      = size - 64 * Z.of_nat j - len).
      { change (remaining count 0 size (S j))
          with (u32 (remaining count 0 size j - delivered (count j))).
        rewrite Hrem, Hc. apply u32_small. simpl delivered. lia. }
      destruct (Z.eq_dec (remaining count 0 size (S j)) 0) as [Hz | Hnz].
      { assert (S j = iterations calls); [|lia].
        apply (stops_when_full _ _ _ _ H); [lia|].
        rewrite <- remaining_sum. exact Hz. }
      rewrite Hnext in *.
      assert (len = 64).
      { subst len. unfold chunk_of in *.
        destruct (64 <? size - 64 * Z.of_nat j); [reflexivity|lia]. }
      lia. }
  intros j len E.
  destruct (Hall j) as [Hlt Hrem]; [rewrite E; discriminate|].
  split; [exact Hlt|]. split; [exact Hrem|].
  rewrite <- Hrem. apply (requests_remaining _ _ _ _ H _ _ E).
Qed.

(** So for [Switch2_BulkUSB_Read]: under [within_request] the bound on the
    reply to iteration [j] is the length that iteration asked for. *)
Lemma Read_requests_cut {hdr : Headers} (usb : nat -> bulk_reply)
    (win : nat -> overlapped_reply) (fuel : nat) (bulk : Switch2_BulkUSB)
    (size : Z) (m : memory) (v : Z) (m' : memory) (calls : list call) :
  0 <= size < 2 ^ 32 ->
  within_request
    (fun j => if SDL_PLATFORM_WIN32 && use_winusb bulk
              then winusb_count (win j) else libusb_count (usb j)) size ->
  Switch2_BulkUSB_Read usb win fuel bulk size m = Some (v, m', calls) ->
  forall (j : nat) len,
    nth_error (requests calls) j = Some len ->
    64 * Z.of_nat j < size /\ len = chunk_of (size - 64 * Z.of_nat j).
Proof.
  intros Hsize Hdev H j len E. apply Read_run in H.
  destruct (chunked_read_requests _ _ _ _ Hsize H Hdev j len E)
    as (Hlt & _ & Hlen).
  split; assumption.
Qed.

(** *** A failed iteration after some progress *)

Section PartialProgress.
Context {hdr : Headers}.

(** The libusb loop returns the error code of a failed transfer whatever
    [total] is by then. *)
Lemma Read_libusb_discards_progress (dev : nat -> bulk_reply)
    (bulk : Switch2_BulkUSB) (fuel k : nat) (size data total : Z)
    (m : memory) :
  0 < size ->
  res (dev k) < 0 ->
  libusb_Read_loop dev bulk (S fuel) k size data total m =
  Some (res (dev k), store m data (payload (dev k)),
        [bulk_transfer (device_handle bulk) (in_endpoint bulk) data
           (if 64 <? size then 64 else size) 500]).
Proof.
  intros Hs Hr. simpl.
  apply Z.ltb_lt in Hs, Hr. rewrite Hs, Hr. reflexivity.
Qed.

(** The native loop returns [total] when a transfer fails or times out
    after some bytes were received, and -7 (time-out) or -1 (failure) when
    none were. *)
Lemma Read_WinUSB_keeps_progress (dev : nat -> overlapped_reply)
    (bulk : Switch2_BulkUSB) (fuel k : nat) (size data total : Z)
    (m : memory) :
  0 < size ->
  winusb_count (dev k) = None ->
  exists m' calls,
    WinUSB_Read_loop dev bulk (S fuel) k size data total m =
    Some ((if 0 <? total then i32 total
           else if timed_out (dev k) then -7 else -1), m', calls).
Proof.
  intros Hs. apply Z.ltb_lt in Hs.
  unfold winusb_count, timed_out. simpl WinUSB_Read_loop. rewrite Hs.
  destruct (event (dev k)); [intros _; do 2 eexists; reflexivity| |];
    (destruct (pipe_ok (dev k)); [discriminate|];
     destruct (last_error (dev k) =? ERROR_IO_PENDING); simpl;
     [destruct (wait (dev k) =? WAIT_OBJECT_0); [discriminate|]|];
     intros _; do 2 eexists; reflexivity).
Qed.

End PartialProgress.

(** With replies that stay within what was requested [Read] does finish,
    within [size] iterations at most. *)
Lemma Read_finishes {hdr : Headers} (usb : nat -> bulk_reply)
    (win : nat -> overlapped_reply) (bulk : Switch2_BulkUSB) (size : Z)
    (m : memory) (fuel : nat) :
  0 <= size < 2 ^ 32 ->
  size <= 64 * Z.of_nat fuel ->
  within_request (fun j => libusb_count (usb j)) size ->
  within_request (fun j => winusb_count (win j)) size ->
  exists v m' calls,
    Switch2_BulkUSB_Read usb win fuel bulk size m = Some (v, m', calls)
    /\ 64 * Z.of_nat (List.length (requests calls)) < size + 64.
Proof.
  intros Hsize Hfuel Husb Hwin. unfold Switch2_BulkUSB_Read.
  destruct (SDL_PLATFORM_WIN32 && use_winusb bulk).
  - apply WinUSB_Read_loop_terminates; auto.
  - apply libusb_Read_loop_terminates; auto.
Qed.

(** C2.  On either backend and for every requested size and every sequence
    of replies, a finished [Switch2_BulkUSB_Read] has requested at most 64
    bytes per iteration, each time what remained of the size or 64 bytes,
    whichever is less, and returns the sum of the transferred counts (as
    the [int] it is returned in) when the transfers completed.  It made an
    iteration when the size was not 0, and a further one after every
    iteration that transferred all it had asked for and left something to
    read; it made none after an iteration that failed or transferred less
    than it requested, nor after one that left nothing to read: the number
    of iterations is fixed by the size and the replies
    ([chunked_read_iterations]).  The read does finish when no reply
    delivers more than was requested ([within_request], whose bound for
    iteration [j] is the length of request [j] by [Read_requests_cut]).  In
    particular a read of 256 bytes answered by 64, 64, 64 and 30 bytes
    returns 222 after exactly four requests, on the generic and on the
    native path. *)
Theorem Read_chunked :
  (forall (hdr : Headers) usb win fuel bulk size m v m' calls,
      Switch2_BulkUSB_Read usb win fuel bulk size m = Some (v, m', calls) ->
      chunked_read
        (fun j => if SDL_PLATFORM_WIN32 && use_winusb bulk
                  then winusb_count (win j) else libusb_count (usb j))
        size v calls)
  /\ (forall (hdr : Headers) usb win bulk size m,
        0 <= size < 2 ^ 32 ->
        within_request (fun j => libusb_count (usb j)) size ->
        within_request (fun j => winusb_count (win j)) size ->
        exists v m' calls,
          Switch2_BulkUSB_Read usb win (Z.to_nat size) bulk size m
          = Some (v, m', calls))
  /\ (forall extra, exists m' calls,
        @Switch2_BulkUSB_Read posix usb_four_packets win_four_packets
          (extra + 4) generic_context 256 zeroed = Some (222, m', calls)
        /\ requests calls = [64; 64; 64; 64])
  /\ (forall extra, exists m' calls,
        @Switch2_BulkUSB_Read win32 usb_four_packets win_four_packets
          (extra + 4) native_context 256 zeroed = Some (222, m', calls)
        /\ requests calls = [64; 64; 64; 64]).
Proof.
  split; [|split; [|split]].
  - intros. eapply Read_run. eassumption.
  - intros hdr usb win bulk size m Hsize Husb Hwin.
    destruct (@Read_finishes hdr usb win bulk size m (Z.to_nat size))
      as (v & m' & calls & H & _); auto; [lia|eauto].
  - intros extra. do 2 eexists. split.
    + apply Read_more_fuel. reflexivity.
    + reflexivity.
  - intros extra. do 2 eexists. split.
    + apply Read_more_fuel. reflexivity.
    + reflexivity.
Qed.

Lemma Read_chunked_witness :
  chunked_read (fun j => libusb_count (usb_four_packets j)) 256 222
    [bulk_transfer (Some 2%nat) 0x82 0 64 500;
     bulk_transfer (Some 2%nat) 0x82 64 64 500;
     bulk_transfer (Some 2%nat) 0x82 128 64 500;
     bulk_transfer (Some 2%nat) 0x82 192 64 500].
Proof.
  eapply (proj1 Read_chunked posix usb_four_packets win_four_packets 4%nat
            generic_context 256 zeroed).
  reflexivity.
Defined.

(** C9.  Both read loops terminate: for every requested size and every
    sequence of replies whose completed transfers never deliver more than
    the chunk requested, [size / 64] rounded up iterations suffice, and the
    run issues no more requests than that. *)
Theorem Read_terminates {hdr : Headers} (usb : nat -> bulk_reply)
    (win : nat -> overlapped_reply) (bulk : Switch2_BulkUSB) (size : Z)
    (m : memory) (fuel : nat) :
  0 <= size < 2 ^ 32 ->
  size <= 64 * Z.of_nat fuel ->
  within_request (fun j => libusb_count (usb j)) size ->
  within_request (fun j => winusb_count (win j)) size ->
  (exists v m' calls,
      Switch2_BulkUSB_Read usb win fuel bulk size m = Some (v, m', calls)
      /\ 64 * Z.of_nat (List.length (requests calls)) < size + 64)
  /\ (exists v m' calls,
        Switch2_BulkUSB_WinUSB_Read win fuel bulk size m = Some (v, m', calls)
        /\ 64 * Z.of_nat (List.length (requests calls)) < size + 64).
Proof.
  intros Hsize Hfuel Husb Hwin. split.
  - apply Read_finishes; assumption.
  - apply WinUSB_Read_loop_terminates; auto.
Qed.

Lemma four_packets_within_request :
  within_request (fun j => libusb_count (usb_four_packets j)) 256
  /\ within_request (fun j => @winusb_count win32 (win_four_packets j)) 256.
Proof.
  split; intros j t Hj;
    (destruct j as [|[|[|[|j]]]]; [| | | |lia]);
    intros H; vm_compute in H; injection H as <-; vm_compute; split;
    discriminate.
Qed.

Lemma Read_terminates_witness :
  (exists v m' calls,
      @Switch2_BulkUSB_Read win32 usb_four_packets win_four_packets 4
        native_context 256 zeroed = Some (v, m', calls)
      /\ 64 * Z.of_nat (List.length (requests calls)) < 256 + 64)
  /\ (exists v m' calls,
        @Switch2_BulkUSB_WinUSB_Read win32 win_four_packets 4 native_context
          256 zeroed = Some (v, m', calls)
        /\ 64 * Z.of_nat (List.length (requests calls)) < 256 + 64).
Proof.
  apply (@Read_terminates win32 usb_four_packets win_four_packets).
  - lia.
  - simpl. lia.
  - exact (proj1 four_packets_within_request).
  - exact (proj2 four_packets_within_request).
Defined.

(** C10.  A read of size 0 returns 0 on either backend, makes no call at
    all and leaves the caller's buffer as it was. *)
Theorem Read_nothing {hdr : Headers} (usb : nat -> bulk_reply)
    (win : nat -> overlapped_reply) (fuel : nat) (bulk : Switch2_BulkUSB)
    (m : memory) :
  Switch2_BulkUSB_Read usb win fuel bulk 0 m = Some (0, m, [])
  /\ Switch2_BulkUSB_WinUSB_Read win fuel bulk 0 m = Some (0, m, []).
Proof.
  unfold Switch2_BulkUSB_Read, Switch2_BulkUSB_WinUSB_Read.
  rewrite WinUSB_Read_loop_done, libusb_Read_loop_done by lia.
  destruct (SDL_PLATFORM_WIN32 && use_winusb bulk); split; reflexivity.
Qed.

(** C3, at the input where the two backends part.  A read of 128 bytes
    whose first chunk delivers 64 bytes and whose second chunk times out
    returns 64 on the native path, but the timeout code -7 of libusb on the
    generic path: there the 64 bytes already received are not reported. *)
Theorem Read_timeout_after_progress :
  (exists m' calls,
      @Switch2_BulkUSB_Read posix usb_packet_then_timeout
        win_packet_then_timeout 2 generic_context 128 zeroed
      = Some (-7, m', calls) /\ requests calls = [64; 64])
  /\ (exists m' calls,
        @Switch2_BulkUSB_Read win32 usb_packet_then_timeout
          win_packet_then_timeout 2 native_context 128 zeroed
        = Some (64, m', calls) /\ requests calls = [64; 64]).
Proof. split; do 2 eexists; split; reflexivity. Qed.

(** ** Write *)

Section WriteFacts.
Context {hdr : Headers}.

Lemma WinUSB_Write_completed (io : overlapped_reply) (bulk : Switch2_BulkUSB)
    (size timeout_ms t : Z) :
  winusb_count io = Some t ->
  fst (Switch2_BulkUSB_WinUSB_Write io bulk size timeout_ms) = i32 t.
Proof.
  unfold winusb_count, Switch2_BulkUSB_WinUSB_Write.
  destruct (event io); [discriminate| |];
    (destruct (pipe_ok io); [intros H; injection H as <-; reflexivity|];
     destruct (last_error io =? ERROR_IO_PENDING); [|discriminate];
     destruct (wait io =? WAIT_OBJECT_0); [|discriminate];
     intros H; injection H as <-; reflexivity).
Qed.

(** The calls of a native write that completes: at once, or within the
    wait of [timeout_ms]. *)
Lemma WinUSB_Write_completed_calls (io : overlapped_reply)
    (bulk : Switch2_BulkUSB) (size timeout_ms t : Z) :
  winusb_count io = Some t ->
  let wr := WinUsb_WritePipe (winusb_handle bulk) (winusb_out_pipe bulk) size in
  let calls := snd (Switch2_BulkUSB_WinUSB_Write io bulk size timeout_ms) in
  calls = [CreateEventW; wr; CloseHandle (event io)]
  \/ calls = [CreateEventW; wr; GetLastError;
              WaitForSingleObject (event io) timeout_ms;
              WinUsb_GetOverlappedResult (winusb_handle bulk);
              CloseHandle (event io)].
Proof.
  unfold winusb_count, Switch2_BulkUSB_WinUSB_Write.
  destruct (event io); [discriminate| |];
    (destruct (pipe_ok io); [intros _; left; reflexivity|];
     destruct (last_error io =? ERROR_IO_PENDING); [|discriminate];
     destruct (wait io =? WAIT_OBJECT_0); [|discriminate];
     intros _; right; reflexivity).
Qed.

Lemma WinUSB_Write_timed_out (io : overlapped_reply) (bulk : Switch2_BulkUSB)
    (size timeout_ms : Z) :
  timed_out io = true ->
  Switch2_BulkUSB_WinUSB_Write io bulk size timeout_ms =
  (-7, [CreateEventW;
        WinUsb_WritePipe (winusb_handle bulk) (winusb_out_pipe bulk) size;
        GetLastError; WaitForSingleObject (event io) timeout_ms;
        WinUsb_AbortPipe (winusb_handle bulk) (winusb_out_pipe bulk);
        WaitForSingleObject (event io) 100; CloseHandle (event io)]).
Proof.
  unfold timed_out, Switch2_BulkUSB_WinUSB_Write.
  destruct (event io); [discriminate| |];
    (destruct (pipe_ok io); [discriminate|];
     destruct (last_error io =? ERROR_IO_PENDING); [|discriminate];
     destruct (wait io =? WAIT_OBJECT_0); [discriminate|];
     intros _; reflexivity).
Qed.

Lemma WinUSB_Write_failed (io : overlapped_reply) (bulk : Switch2_BulkUSB)
    (size timeout_ms : Z) :
  failed io = true ->
  fst (Switch2_BulkUSB_WinUSB_Write io bulk size timeout_ms) = -1.
Proof.
  unfold failed, Switch2_BulkUSB_WinUSB_Write.
  destruct (event io); [reflexivity| |];
    (destruct (pipe_ok io); [discriminate|];
     destruct (last_error io =? ERROR_IO_PENDING); [discriminate|];
     reflexivity).
Qed.

(** Once it has its event, a native write submits the whole buffer to the
    OUT pipe. *)
Lemma WinUSB_Write_submits (io : overlapped_reply) (bulk : Switch2_BulkUSB)
    (size timeout_ms : Z) :
  event io <> NULL_HANDLE ->
  exists rest,
    snd (Switch2_BulkUSB_WinUSB_Write io bulk size timeout_ms) =
    CreateEventW
    :: WinUsb_WritePipe (winusb_handle bulk) (winusb_out_pipe bulk) size
    :: rest.
Proof.
  unfold Switch2_BulkUSB_WinUSB_Write.
  destruct (event io); [contradiction| |]; intros _;
    (destruct (pipe_ok io); [eexists; reflexivity|];
     destruct (last_error io =? ERROR_IO_PENDING); [|eexists; reflexivity];
     destruct (wait io =? WAIT_OBJECT_0); eexists; reflexivity).
Qed.

End WriteFacts.

(** C4, amended.  A write of [N] bytes, [N] being at most INT_MAX, submits
    [N] bytes to the OUT endpoint (the OUT pipe on the native path) with
    [timeout_ms] as the time allowed; when it completes it returns [N];
    when it does not complete within [timeout_ms] it returns a timeout
    value that differs from the value returned for a generic failure.  On
    the native path these are -7 and -1, and the timed-out write waits
    [timeout_ms], aborts the OUT pipe, waits 100 ms for the cancellation
    and closes the event before returning; on the generic path the one
    call is the bulk transfer, and the negative code libusb reports is
    returned as it is. *)
Theorem Write_result {hdr : Headers} (usb : bulk_reply)
    (win : overlapped_reply) (bulk : Switch2_BulkUSB) (N timeout_ms : Z) :
  let native := SDL_PLATFORM_WIN32 && use_winusb bulk in
  let r := Switch2_BulkUSB_Write usb win bulk N timeout_ms in
  let wr := WinUsb_WritePipe (winusb_handle bulk) (winusb_out_pipe bulk) N in
  0 <= N <= INT_MAX ->
  (native = false ->
   snd r = [bulk_transfer (device_handle bulk) (out_endpoint bulk) 0 N
              timeout_ms]
   /\ (0 <= res usb -> transferred usb = N -> fst r = N)
   /\ (res usb < 0 -> fst r = res usb))
  /\ (native = true ->
      (event win <> NULL_HANDLE ->
       exists rest, snd r = CreateEventW :: wr :: rest)
      /\ (winusb_count win = Some N ->
          fst r = N
          /\ (snd r = [CreateEventW; wr; CloseHandle (event win)]
              \/ snd r = [CreateEventW; wr; GetLastError;
                          WaitForSingleObject (event win) timeout_ms;
                          WinUsb_GetOverlappedResult (winusb_handle bulk);
                          CloseHandle (event win)]))
      /\ (timed_out win = true ->
          fst r = -7
          /\ snd r = [CreateEventW; wr; GetLastError;
                      WaitForSingleObject (event win) timeout_ms;
                      WinUsb_AbortPipe (winusb_handle bulk)
                        (winusb_out_pipe bulk);
                      WaitForSingleObject (event win) 100;
                      CloseHandle (event win)])
      /\ (failed win = true -> fst r = -1 /\ -1 <> -7)).
Proof.
  intros native r wr HN. subst native r wr. unfold Switch2_BulkUSB_Write.
  destruct (SDL_PLATFORM_WIN32 && use_winusb bulk).
  - split; [discriminate|]. intros _. split; [|split; [|split]].
    + apply WinUSB_Write_submits.
    + intros H. split.
      * rewrite (WinUSB_Write_completed _ _ _ _ _ H). apply i32_small, HN.
      * exact (WinUSB_Write_completed_calls win bulk N timeout_ms N H).
    + intros H. rewrite (WinUSB_Write_timed_out win bulk N timeout_ms H).
      split; reflexivity.
    + intros H. split; [apply WinUSB_Write_failed, H|discriminate].
  - split; [|discriminate]. intros _. simpl. split; [|split].
    + rewrite i32_small by exact HN. reflexivity.
    + intros H1 H2.
      destruct (res usb <? 0) eqn:E; [apply Z.ltb_lt in E; lia|exact H2].
    + intros H.
      destruct (res usb <? 0) eqn:E; [reflexivity|apply Z.ltb_ge in E; lia].
Qed.

Lemma Write_result_witness :
  (fst (@Switch2_BulkUSB_Write posix usb_completes_20 win_completes_20
          generic_context 20 250) = 20
   /\ snd (@Switch2_BulkUSB_Write posix usb_completes_20 win_completes_20
             generic_context 20 250) = [bulk_transfer (Some 2%nat) 2 0 20 250])
  /\ fst (@Switch2_BulkUSB_Write win32 usb_completes_20 win_completes_20
            native_context 20 250) = 20
  /\ fst (@Switch2_BulkUSB_Write posix usb_times_out win_never_completes
            generic_context 20 250) = -7
  /\ fst (@Switch2_BulkUSB_Write win32 usb_times_out win_never_completes
            native_context 20 250) = -7.
Proof.
  assert (HN : 0 <= 20 <= INT_MAX) by (unfold INT_MAX; lia).
  split; [|split; [|split]].
  - destruct (proj1 (@Write_result posix usb_completes_20 win_completes_20
                       generic_context 20 250 HN) eq_refl)
      as (Hcalls & Hdone & _).
    split; [apply Hdone; [simpl; lia|reflexivity]|exact Hcalls].
  - apply (proj2 (@Write_result win32 usb_completes_20 win_completes_20
                    native_context 20 250 HN) eq_refl).
    reflexivity.
  - apply (proj1 (@Write_result posix usb_times_out win_never_completes
                    generic_context 20 250 HN) eq_refl).
    simpl. lia.
  - apply (proj2 (@Write_result win32 usb_times_out win_never_completes
                    native_context 20 250 HN) eq_refl).
    reflexivity.
Defined.

(** C4 as it was stated, at a size the [int] result cannot hold: a native
    write of 2^31 bytes completes within the timeout, all 2^31 bytes
    transferred, and the value returned is -2^31. *)
Theorem Write_beyond_int :
  @winusb_count win32 win_completes_beyond_int = Some 2147483648
  /\ fst (@Switch2_BulkUSB_Write win32 usb_completes_20
            win_completes_beyond_int native_context 2147483648 250)
     = -2147483648.
Proof. split; reflexivity. Qed.

(** ** Close *)

Section CloseFacts.
Context {hdr : Headers}.

(** Every proof about one call of [Close] goes by the cases of the fields
    its guards read. *)
Ltac cases_of_context b :=
  unfold Switch2_BulkUSB_Close, Switch2_BulkUSB_CloseWinUSB, seq, when;
  destruct b as [lib dh owns ctx claimed num oep iep fh wh wop wip use];
  simpl;
  destruct SDL_PLATFORM_WIN32, use, wh, fh, claimed, lib, owns, dh, ctx;
  simpl.

(** The calls of one [Close], guard by guard, read off the context it is
    given. *)
Lemma Close_calls (b : Switch2_BulkUSB) :
  snd (Switch2_BulkUSB_Close b) =
  (if SDL_PLATFORM_WIN32 && use_winusb b then
     match winusb_handle b with Some wh => [WinUsb_Free wh] | None => [] end
   else [])
  ++ (if SDL_PLATFORM_WIN32 && use_winusb b
         && valid_handle (winusb_file_handle b)
      then [CloseHandle (winusb_file_handle b)] else [])
  ++ (if interface_claimed b && non_null (libusb b)
      then [release_interface (device_handle b) (interface_number b)]
      else [])
  ++ (if owns_device_handle b && non_null (libusb b) then
        match device_handle b with Some h => [libusb_close h] | None => [] end
      else [])
  ++ (if non_null (libusb b) then
        match libusb_ctx b with Some c => [libusb_exit c] | None => [] end
      else [])
  ++ (if non_null (libusb b) then [SDL_QuitLibUSB] else []).
Proof. cases_of_context b; reflexivity. Qed.

(** The context one [Close] leaves. *)
Lemma Close_state (b : Switch2_BulkUSB) :
  let b' := fst (Switch2_BulkUSB_Close b) in
  libusb b' = None
  /\ (SDL_PLATFORM_WIN32 && use_winusb b') = false
  /\ interface_claimed b' =
     (if non_null (libusb b) then false else interface_claimed b)
  /\ device_handle b' =
     (if owns_device_handle b && non_null (libusb b) then None
      else device_handle b)
  /\ libusb_ctx b' = (if non_null (libusb b) then None else libusb_ctx b)
  /\ owns_device_handle b' = owns_device_handle b.
Proof. cases_of_context b; repeat split; reflexivity. Qed.

(** With no runtime recorded and the native path not active, [Close]
    does nothing. *)
Lemma Close_nothing_to_do (b : Switch2_BulkUSB) :
  libusb b = None ->
  (SDL_PLATFORM_WIN32 && use_winusb b) = false ->
  Switch2_BulkUSB_Close b = (b, []).
Proof.
  cases_of_context b; intros H1 H2; try discriminate; reflexivity.
Qed.

Lemma Close_twice (b : Switch2_BulkUSB) :
  Switch2_BulkUSB_Close (fst (Switch2_BulkUSB_Close b)) =
  (fst (Switch2_BulkUSB_Close b), []).
Proof.
  destruct (Close_state b) as (H1 & H2 & _).
  apply Close_nothing_to_do; assumption.
Qed.

Lemma Close_times_after_Close (n : nat) (b : Switch2_BulkUSB) :
  Close_times n (fst (Switch2_BulkUSB_Close b)) =
  (fst (Switch2_BulkUSB_Close b), []).
Proof.
  induction n as [|n IH]; [reflexivity|].
  simpl. unfold seq. rewrite Close_twice, IH. reflexivity.
Qed.

(** All calls of [n + 1] successive [Close]s are those of the first. *)
Lemma Close_times_calls (n : nat) (b : Switch2_BulkUSB) :
  Close_times (S n) b =
  (fst (Switch2_BulkUSB_Close b), snd (Switch2_BulkUSB_Close b)).
Proof.
  simpl. unfold seq. destruct (Switch2_BulkUSB_Close b) as [b1 l1] eqn:E.
  change b1 with (fst (b1, l1)). rewrite <- E, Close_times_after_Close.
  rewrite E. simpl. rewrite app_nil_r. reflexivity.
Qed.

(** *** Order *)

Lemma from_step_nil (i : nat) : from_step i [].
Proof. split; constructor. Qed.

Lemma from_step_weaken (i j : nat) (l : list call) :
  (i <= j)%nat -> from_step j l -> from_step i l.
Proof.
  intros Hij [Hs Hf]. split; [assumption|].
  eapply Forall_impl; [|exact Hf]. simpl. intros c Hc. lia.
Qed.

Lemma from_step_cons (i : nat) (c : call) (l : list call) :
  teardown_rank c = i -> from_step (S i) l -> from_step i (c :: l).
Proof.
  intros Hc [Hs Hf]. split.
  - constructor; [assumption|].
    eapply Forall_impl; [|exact Hf]. unfold before. simpl. intros d Hd. lia.
  - constructor; [lia|].
    eapply Forall_impl; [|exact Hf]. simpl. intros d Hd. lia.
Qed.

Lemma Close_in_order (b : Switch2_BulkUSB) :
  StronglySorted before (snd (Switch2_BulkUSB_Close b)).
Proof.
  rewrite Close_calls.
  assert (H5 : from_step 5 (if non_null (libusb b) then [SDL_QuitLibUSB]
                            else [])).
  { destruct (non_null (libusb b));
      [apply from_step_cons; [reflexivity|]|]; apply from_step_nil. }
  match goal with |- StronglySorted _ (?l0 ++ ?l1 ++ ?l2 ++ ?l3 ++ ?l4 ++ _) =>
    assert (H4 : from_step 4 (l4 ++ if non_null (libusb b)
                                    then [SDL_QuitLibUSB] else []));
    [|assert (H3 : from_step 3 (l3 ++ l4 ++ if non_null (libusb b)
                                            then [SDL_QuitLibUSB] else []));
      [|assert (H2 : from_step 2 (l2 ++ l3 ++ l4 ++ if non_null (libusb b)
                                            then [SDL_QuitLibUSB] else []));
        [|assert (H1 : from_step 1 (l1 ++ l2 ++ l3 ++ l4
                                    ++ if non_null (libusb b)
                                       then [SDL_QuitLibUSB] else []));
          [|assert (H0 : from_step 0 (l0 ++ l1 ++ l2 ++ l3 ++ l4
                                      ++ if non_null (libusb b)
                                         then [SDL_QuitLibUSB] else []));
            [|exact (proj1 H0)]]]]]
  end.
  - destruct (non_null (libusb b)) eqn:E; [destruct (libusb_ctx b)|];
      simpl; try (apply from_step_cons; [reflexivity|]);
      try exact H5; apply (from_step_weaken 4 5); auto; exact H5.
  - destruct (owns_device_handle b && non_null (libusb b));
      [destruct (device_handle b)|];
      simpl; try (apply from_step_cons; [reflexivity|]);
      try exact H4; apply (from_step_weaken 3 4); auto; exact H4.
  - destruct (interface_claimed b && non_null (libusb b));
      simpl; try (apply from_step_cons; [reflexivity|]);
      try exact H3; apply (from_step_weaken 2 3); auto; exact H3.
  - destruct (SDL_PLATFORM_WIN32 && use_winusb b
              && valid_handle (winusb_file_handle b));
      simpl; try (apply from_step_cons; [reflexivity|]);
      try exact H2; apply (from_step_weaken 1 2); auto; exact H2.
  - destruct (SDL_PLATFORM_WIN32 && use_winusb b);
      [destruct (winusb_handle b)|];
      simpl; try (apply from_step_cons; [reflexivity|]);
      try exact H1; apply (from_step_weaken 0 1); auto; exact H1.
Qed.

(** *** What is released, and how often *)

(** [Close] makes release calls only. *)
Lemma Close_calls_ranked (b : Switch2_BulkUSB) :
  Forall (fun c => (teardown_rank c < 6)%nat) (snd (Switch2_BulkUSB_Close b)).
Proof. cases_of_context b; repeat constructor. Qed.

(** [Close] makes a call exactly when the context records the resource the
    call releases (the native ones on Windows builds only). *)
Lemma Close_calls_recorded (b : Switch2_BulkUSB) (c : call) :
  In c (snd (Switch2_BulkUSB_Close b))
  <-> recorded b c
      /\ ((teardown_rank c < 2)%nat -> SDL_PLATFORM_WIN32 = true).
Proof.
  pose proof (Close_calls_ranked b) as Hrank.
  rewrite Forall_forall in Hrank. specialize (Hrank c).
  rewrite Close_calls in *.
  destruct b as [lib dh owns ctx claimed num oep iep fh wh wop wip use].
  destruct c; simpl;
    (* calls that release nothing *)
    try solve [split; [intros H; apply Hrank in H; simpl in H; lia
                      |intros ([] & _)]];
    clear Hrank;
    destruct SDL_PLATFORM_WIN32, use, wh, fh, claimed, lib, owns, dh, ctx;
    simpl; (split; [intros H | intros (H & Hw)]);
    (* left to right: the call is one of those listed *)
    try solve [repeat (destruct H as [H | H]); try contradiction;
               try discriminate H; inversion H; subst; clear H;
               repeat split; try discriminate; try reflexivity;
               intros Hr; simpl in Hr; lia];
    (* right to left: what is recorded is listed *)
    try solve [exfalso; specialize (Hw ltac:(simpl; lia)); discriminate Hw];
    try solve [decompose [and] H; subst; try discriminate; try congruence;
               repeat match goal with
                      | E : Some _ = Some _ |- _ => injection E as <-
                      end; tauto].
Qed.

Lemma Close_releases_interface (b : Switch2_BulkUSB) :
  releases_of_interface (snd (Switch2_BulkUSB_Close b)) =
  if interface_claimed b && non_null (libusb b) then 1%nat else 0%nat.
Proof. cases_of_context b; reflexivity. Qed.

End CloseFacts.

(** ** Open *)

Lemma quiet_app (l1 l2 : list call) : quiet l1 -> quiet l2 -> quiet (l1 ++ l2).
Proof. unfold quiet. intros H1 H2. apply Forall_app. auto. Qed.

Lemma quiet_cons (c : call) (l : list call) :
  is_claim_interface c = false -> is_transfer c = false -> quiet l ->
  quiet (c :: l).
Proof. unfold quiet. intros H1 H2 H. constructor; auto. Qed.

Create HintDb quiet.
#[local] Hint Resolve quiet_app quiet_cons : quiet.
#[local] Hint Extern 1 (quiet []) => apply Forall_nil : quiet.
#[local] Hint Extern 1 (_ = false) => reflexivity : quiet.

Lemma query_pipes_quiet (wh : address) :
  forall infos ep o i, quiet (snd (query_pipes wh ep infos o i)).
Proof.
  induction infos as [|q infos IH]; intros ep o i; simpl; auto with quiet.
  destruct (match q with
            | Some info =>
                if is_bulk_pipe (PipeType info) then
                  if negb (Z.land (PipeId info) 128 =? 0)
                  then (o, PipeId info) else (PipeId info, i)
                else (o, i)
            | None => (o, i)
            end) as [o1 i1].
  specialize (IH (S ep) o1 i1).
  destruct (query_pipes wh (S ep) infos o1 i1) as [[o2 i2] cs].
  simpl in *. auto with quiet.
Qed.

(** The enumeration claims nothing and transfers nothing; when it finds no
    usable interface it leaves the context as it was, and when it finds one
    it touches the native fields only. *)
Lemma enumerate_interfaces_spec :
  forall cands i bulk,
    let r := enumerate_interfaces cands i bulk in
    quiet (snd r)
    /\ (fst (fst r) = false -> snd (fst r) = bulk)
    /\ (fst (fst r) = true ->
        use_winusb (snd (fst r)) = true
        /\ libusb (snd (fst r)) = libusb bulk
        /\ device_handle (snd (fst r)) = device_handle bulk
        /\ owns_device_handle (snd (fst r)) = owns_device_handle bulk
        /\ libusb_ctx (snd (fst r)) = libusb_ctx bulk
        /\ interface_claimed (snd (fst r)) = interface_claimed bulk).
Proof.
  induction cands as [|c cands IH]; intros i bulk; cbv zeta.
  - simpl. repeat split; auto with quiet. discriminate.
  - specialize (IH (S i) bulk). cbv zeta in IH.
    simpl enumerate_interfaces.
    destruct (enumerate_interfaces cands (S i) bulk) as [[ok b] cs].
    simpl in IH. destruct IH as (Hq & Hf & Ht).
    destruct (detail_allocated c); simpl; [|auto 6 with quiet].
    destruct (detail_filled c); simpl; [|auto 6 with quiet].
    destruct (negb (wcsstr (DevicePath c) "vid_057e")
              && negb (wcsstr (DevicePath c) "VID_057E")); simpl;
      [auto 6 with quiet|].
    destruct (file c); simpl; try solve [auto 8 with quiet];
      (destruct (session c) as [wh|]; [|simpl; auto 8 with quiet];
       destruct (pipes c) as [infos|]; [|simpl; auto 10 with quiet];
       pose proof (query_pipes_quiet wh infos 0%nat 0 0) as Hqs;
       destruct (query_pipes wh 0 infos 0 0) as [[o1 i1] qs]; simpl in Hqs;
       destruct ((o1 =? 0) || (i1 =? 0)); simpl;
       [split; [auto 12 with quiet|auto]
       |split; [auto 12 with quiet
               |split; [discriminate|intros _; repeat split]]]).
Qed.

Lemma OpenWinUSB_spec (info : option (list device_interface))
    (bulk : Switch2_BulkUSB) :
  let r := Switch2_BulkUSB_OpenWinUSB info bulk in
  quiet (snd r)
  /\ (fst (fst r) = false -> snd (fst r) = bulk)
  /\ (fst (fst r) = true ->
      use_winusb (snd (fst r)) = true
      /\ libusb (snd (fst r)) = libusb bulk
      /\ device_handle (snd (fst r)) = device_handle bulk
      /\ owns_device_handle (snd (fst r)) = owns_device_handle bulk
      /\ libusb_ctx (snd (fst r)) = libusb_ctx bulk
      /\ interface_claimed (snd (fst r)) = interface_claimed bulk).
Proof.
  unfold Switch2_BulkUSB_OpenWinUSB. destruct info as [cands|]; cbv zeta.
  - pose proof (enumerate_interfaces_spec cands 0 bulk) as H. cbv zeta in H.
    destruct (enumerate_interfaces cands 0 bulk) as [[ok b] cs].
    simpl in H. destruct H as (Hq & Hf & Ht).
    destruct ok; simpl; (split; [auto 6 with quiet|auto]).
  - simpl. repeat split; auto with quiet; discriminate.
Qed.

Lemma open_matching_quiet (vid pid : Z) :
  forall devs i, quiet (snd (open_matching vid pid devs i)).
Proof.
  induction devs as [|d devs IH]; intros i; simpl; auto with quiet.
  specialize (IH (S i)).
  destruct (open_matching vid pid devs (S i)) as [h cs]. simpl in IH.
  destruct (descriptor d) as [[v p]|]; simpl; auto with quiet.
  destruct ((v =? vid) && (p =? pid)); simpl; auto with quiet.
  destruct (opened d); simpl; auto 6 with quiet.
Qed.

(** Opening an own connection either changes nothing or records the
    handle, the ownership and the private context together. *)
Lemma open_own_connection_spec (w : world) (b : Switch2_BulkUSB) :
  device_handle b = None ->
  let r := open_own_connection w b in
  quiet (snd r)
  /\ (fst r = b
      \/ exists h usb_ctx,
           fst r = set_libusb_ctx (Some usb_ctx)
                     (set_owns_device_handle true
                        (set_device_handle (Some h) b))).
Proof.
  intros Hb. unfold open_own_connection. cbv zeta.
  destruct (private_context w) as [usb_ctx|]; [|simpl; auto with quiet].
  destruct (devices w) as [devs|].
  - pose proof (open_matching_quiet (vendor_id w) (product_id w) devs 0) as Hq.
    destruct (open_matching (vendor_id w) (product_id w) devs 0) as [h cs].
    simpl in Hq. destruct h as [h|]; simpl.
    + split; [auto 8 with quiet|eauto].
    + rewrite Hb. simpl. split; [auto 8 with quiet|auto].
  - simpl. rewrite Hb. simpl. split; [auto 8 with quiet|auto].
Qed.

Section OpenFacts.
Context {hdr : Headers}.

Lemma reported_app (l1 l2 : list call) :
  l2 <> [] -> reported (l1 ++ l2) = reported l2.
Proof.
  intros H. unfold reported. f_equal.
  induction l1 as [|c l1 IH]; [reflexivity|].
  simpl. destruct (l1 ++ l2) eqn:E; [|exact IH].
  apply app_eq_nil in E. tauto.
Qed.

Lemma reported_cons (c : call) (l : list call) :
  l <> [] -> reported (c :: l) = reported l.
Proof. apply (reported_app [c]). Qed.

(** Side condition of the two lemmas above: the list ends with an element. *)
Ltac not_nil :=
  let E := fresh "E" in
  intros E;
  repeat first [discriminate E
               |apply app_eq_nil in E; destruct E as [_ E]].

Lemma reported_last (l : list call) (msg : string) :
  reported (l ++ [SDL_SetError msg]) = Some msg.
Proof. rewrite reported_app; [reflexivity|discriminate]. Qed.

(** Discovery and claim: what they leave in the context and in the log. *)
Lemma discover_and_claim_spec (w : world) (h : address)
    (b : Switch2_BulkUSB) :
  let r := discover_and_claim w h b in
  exists eps,
    (fst (fst r) = false ->
     snd (fst r) = set_endpoints eps b
     /\ exists pre msg,
          snd r = pre ++ [SDL_SetError msg]
          /\ (msg = "Couldn't find bulk endpoints"%string
              \/ msg = ("Couldn't claim interface %d: %d" ++ LF)%string))
    /\ (fst (fst r) = true ->
        snd (fst r) = set_interface_claimed true (set_endpoints eps b)).
Proof.
  unfold discover_and_claim. cbv zeta.
  destruct (Switch2_BulkUSB_FindEndpoints _ _ _ _) as [ok eps].
  exists eps. destruct ok; simpl.
  - destruct (claim w h (interface_number (set_endpoints eps b)) <? 0); simpl.
    + split; [intros _|discriminate]. split; [reflexivity|].
      eexists (_ :: _ ++ [_; _]), _. split; [|right; reflexivity].
      simpl. rewrite <- app_assoc. reflexivity.
    + split; [discriminate|reflexivity].
  - split; [intros _|discriminate]. split; [reflexivity|].
    eexists (_ :: _), _. split; [|left; reflexivity]. reflexivity.
Qed.

(** When discovery fails nothing is claimed and nothing transferred. *)
Lemma discover_and_claim_quiet (w : world) (h : address)
    (b : Switch2_BulkUSB) :
  fst (Switch2_BulkUSB_FindEndpoints (config w h) (interface_number b)
         (out_endpoint b) (in_endpoint b)) = false ->
  exists eps l,
    discover_and_claim w h b = (false, set_endpoints eps b, l) /\ quiet l.
Proof.
  unfold discover_and_claim.
  destruct (Switch2_BulkUSB_FindEndpoints _ _ _ _) as [ok eps]. simpl.
  intros ->. simpl. do 2 eexists. split; [reflexivity|].
  destruct (config w h); auto 6 with quiet.
Qed.

Lemma projections_set_endpoints (eps : Z * Z * Z) (b : Switch2_BulkUSB) :
  libusb (set_endpoints eps b) = libusb b
  /\ device_handle (set_endpoints eps b) = device_handle b
  /\ owns_device_handle (set_endpoints eps b) = owns_device_handle b
  /\ libusb_ctx (set_endpoints eps b) = libusb_ctx b
  /\ interface_claimed (set_endpoints eps b) = interface_claimed b
  /\ use_winusb (set_endpoints eps b) = use_winusb b.
Proof. destruct eps as [[n o] i]. repeat split. Qed.

(** The generic path, failure by failure. *)
Lemma Open_libusb_failure (w : world) (b b' : Switch2_BulkUSB)
    (l : list call) :
  device_handle b = None -> owns_device_handle b = false ->
  libusb_ctx b = None -> interface_claimed b = false ->
  Open_libusb w b = (false, b', l) ->
  interface_claimed b' = false
  /\ use_winusb b' = use_winusb b
  /\ (((reported l = Some "Couldn't initialize libusb"%string
        \/ reported l = Some "Couldn't get libusb device handle"%string)
       /\ no_reference b' /\ owns_device_handle b' = false)
      \/ ((reported l = Some "Couldn't find bulk endpoints"%string
           \/ reported l
              = Some ("Couldn't claim interface %d: %d" ++ LF)%string)
          /\ libusb b' <> None /\ device_handle b' <> None
          /\ (libusb_ctx b' <> None <-> owns_device_handle b' = true))).
Proof.
  intros Hh Ho Hc Hi. unfold Open_libusb, InitLibUSB, when. simpl.
  destruct (runtime w) as [lib|]; simpl.
  2: { intros H. injection H as <- <-. simpl.
       repeat split; auto. left. split; [left; apply (reported_last [_])|].
       unfold no_reference. simpl. auto. }
  set (b1 := set_device_handle (shared_handle w) (set_libusb (Some lib) b)).
  assert (Hb2 : exists b2 l2,
             (if negb (non_null (shared_handle w))
              then open_own_connection w b1 else (b1, [])) = (b2, l2)
             /\ libusb b2 = Some lib
             /\ interface_claimed b2 = false
             /\ use_winusb b2 = use_winusb b
             /\ ((device_handle b2 = None /\ libusb_ctx b2 = None
                  /\ owns_device_handle b2 = false)
                 \/ (device_handle b2 <> None
                     /\ (libusb_ctx b2 <> None
                         <-> owns_device_handle b2 = true)))).
  { destruct (shared_handle w) as [h|] eqn:Hs; simpl.
    - exists b1, []. subst b1. simpl. repeat split; auto.
      right. rewrite Hc, Ho. split; [discriminate|]. split; intros; congruence.
    - destruct (open_own_connection_spec w b1 eq_refl) as (_ & Hown).
      destruct (open_own_connection w b1) as [b2 l2]. exists b2, l2.
      simpl in Hown. destruct Hown as [-> | (h & c & ->)]; subst b1; simpl;
        repeat split; auto.
      right. split; [discriminate|]. split; intros; congruence. }
  destruct Hb2 as (b2 & l2 & -> & Hlib & Hcl & Huse & Hshape).
  destruct (device_handle b2) as [h|] eqn:Hdh.
  - (* a handle: discovery or claim failed *)
    pose proof (discover_and_claim_spec w h b2) as Hd. cbv zeta in Hd.
    destruct (discover_and_claim w h b2) as [[ok b3] l3]. simpl in Hd.
    destruct Hd as (eps & Hfail & _).
    intros H. injection H as -> <- <-.
    destruct (Hfail eq_refl) as (-> & pre & msg & -> & Hmsg).
    destruct (projections_set_endpoints eps b2)
      as (E1 & E2 & E3 & E4 & E5 & E6).
    rewrite E1, E2, E3, E4, E5, E6, Hdh.
    repeat split; auto. right.
    split.
    { rewrite !reported_cons, app_assoc, reported_last by not_nil.
      destruct Hmsg as [-> | ->]; auto. }
    destruct Hshape as [(Hn & _) | (_ & Hiff)]; [discriminate|].
    rewrite Hlib. repeat split; try discriminate; apply Hiff.
  - (* no handle *)
    intros H. injection H as <- <-. simpl.
    destruct Hshape as [(_ & Hx & Hy) | (Hn & _)]; [|congruence].
    rewrite Hcl, Huse. repeat split; auto. left.
    split.
    { right.
      rewrite !reported_cons, reported_app by not_nil. reflexivity. }
    unfold no_reference. simpl. auto.
Qed.

Lemma Open_libusb_success (w : world) (b b' : Switch2_BulkUSB)
    (l : list call) :
  Open_libusb w b = (true, b', l) ->
  interface_claimed b' = true /\ libusb b' <> None /\ device_handle b' <> None
  /\ use_winusb b' = use_winusb b.
Proof.
  unfold Open_libusb, InitLibUSB, when. simpl.
  destruct (runtime w) as [lib|]; simpl; [|discriminate].
  set (b1 := set_device_handle (shared_handle w) (set_libusb (Some lib) b)).
  assert (Hb2 : exists b2 l2,
             (if negb (non_null (shared_handle w))
              then open_own_connection w b1 else (b1, [])) = (b2, l2)
             /\ libusb b2 = Some lib /\ use_winusb b2 = use_winusb b).
  { destruct (shared_handle w) as [h|] eqn:Hs; simpl.
    - exists b1, []. subst b1. simpl. auto.
    - destruct (open_own_connection_spec w b1 eq_refl) as (_ & Hown).
      destruct (open_own_connection w b1) as [b2 l2]. exists b2, l2.
      simpl in Hown. destruct Hown as [-> | (h & c & ->)]; subst b1; simpl;
        auto. }
  destruct Hb2 as (b2 & l2 & -> & Hlib & Huse).
  destruct (device_handle b2) as [h|] eqn:Hdh; [|discriminate].
  pose proof (discover_and_claim_spec w h b2) as Hd. cbv zeta in Hd.
  destruct (discover_and_claim w h b2) as [[ok b3] l3]. simpl in Hd.
  destruct Hd as (eps & _ & Hok).
  intros H. injection H as -> <- <-. rewrite (Hok eq_refl). simpl.
  destruct (projections_set_endpoints eps b2) as (E1 & E2 & _ & _ & _ & E6).
  rewrite E1, E2, E6, Hlib, Hdh, Huse. repeat split; discriminate.
Qed.

(** Without a bulk pair on interface 1 the generic path fails before the
    claim. *)
Lemma Open_libusb_without_vendor (w : world) (b : Switch2_BulkUSB) :
  (forall h cfg, config w h = Some cfg -> lacks_bulk_pair cfg) ->
  exists b' l,
    Open_libusb w b = (false, b', l) /\ quiet l
    /\ interface_claimed b' = interface_claimed b.
Proof.
  intros Hcfg. unfold Open_libusb, InitLibUSB, when. simpl.
  destruct (runtime w) as [lib|]; simpl;
    [|do 2 eexists; split; [reflexivity|split; [auto with quiet|reflexivity]]].
  set (b1 := set_device_handle (shared_handle w) (set_libusb (Some lib) b)).
  assert (Hb2 : exists b2 l2,
             (if negb (non_null (shared_handle w))
              then open_own_connection w b1 else (b1, [])) = (b2, l2)
             /\ quiet l2 /\ interface_claimed b2 = interface_claimed b).
  { destruct (shared_handle w) as [h|] eqn:Hs; simpl.
    - exists b1, []. subst b1. simpl. auto with quiet.
    - destruct (open_own_connection_spec w b1 eq_refl) as (Hq & Hown).
      destruct (open_own_connection w b1) as [b2 l2]. exists b2, l2.
      simpl in Hown, Hq.
      destruct Hown as [-> | (h & c & ->)]; subst b1; simpl; auto. }
  destruct Hb2 as (b2 & l2 & -> & Hq & Hcl).
  destruct (device_handle b2) as [h|] eqn:Hdh.
  - destruct (discover_and_claim_quiet w h b2) as (eps & l3 & -> & Hq3).
    { destruct (config w h) as [cfg|] eqn:E; [|reflexivity].
      apply FindEndpoints_lacking. eapply Hcfg. eassumption. }
    do 2 eexists. split; [reflexivity|].
    destruct (projections_set_endpoints eps b2) as (_ & _ & _ & _ & E5 & _).
    rewrite E5. split; [auto 6 with quiet|assumption].
  - do 2 eexists. split; [reflexivity|]. simpl.
    split; [auto 8 with quiet|assumption].
Qed.

Lemma reported_not_nil (l : list call) (msg : string) :
  reported l = Some msg -> l <> [].
Proof. intros H ->. discriminate. Qed.

(** The public [Open], as far as a failure is concerned: it is the generic
    path that failed, from the context it was given. *)
Lemma Open_failed_generic (w : world) (fuel : nat) (b b' : Switch2_BulkUSB)
    (l : list call) :
  Switch2_BulkUSB_Open w fuel b = Some (false, b', l) ->
  exists l1 l2, l = l1 ++ l2 /\ quiet l1 /\ Open_libusb w b = (false, b', l2).
Proof.
  unfold Switch2_BulkUSB_Open.
  destruct SDL_PLATFORM_WIN32.
  - pose proof (OpenWinUSB_spec (devinfo w) b) as H. cbv zeta in H.
    destruct (Switch2_BulkUSB_OpenWinUSB (devinfo w) b) as [[native b1] l1].
    simpl in H. destruct H as (Hq & Hf & _).
    destruct native.
    + destruct (Switch2_BulkUSB_FlushWinUSB (stale w) fuel b1); discriminate.
    + rewrite (Hf eq_refl).
      destruct (Open_libusb w b) as [[ok b2] l2].
      intros E. injection E as -> -> <-. eauto.
  - destruct (Open_libusb w b) as [[ok b2] l2].
    intros E. injection E as -> -> <-. exists [], l2. auto with quiet.
Qed.

End OpenFacts.

(** ** Nothing leaks, nothing is released twice *)

Lemma tally_app (r : resource) (l1 l2 : list resource) :
  tally r (l1 ++ l2) = (tally r l1 + tally r l2)%nat.
Proof. apply count_occ_app. Qed.

Lemma acquired_app (l1 l2 : list call) :
  acquired (l1 ++ l2) = acquired l1 ++ acquired l2.
Proof. apply flat_map_app. Qed.

Lemma released_app (l1 l2 : list call) :
  released (l1 ++ l2) = released l1 ++ released l2.
Proof. apply flat_map_app. Qed.

Lemma holds_app (l1 l2 : list call) (h1 h2 : list resource) :
  holds l1 h1 -> holds l2 h2 -> holds (l1 ++ l2) (h1 ++ h2).
Proof.
  intros H1 H2 r. rewrite acquired_app, released_app, !tally_app, H1, H2. lia.
Qed.

Lemma holds_nil : holds [] [].
Proof. intros r. reflexivity. Qed.

(** A call that acquires [a] and releases [d], in front of a log. *)
Lemma holds_cons (c : call) (l : list call) (held held' : list resource) :
  holds l held ->
  (forall r, (tally r (acquires c) + tally r held
              = tally r (releases c) + tally r held')%nat) ->
  holds (c :: l) held'.
Proof.
  intros H Hc r. specialize (H r). specialize (Hc r).
  unfold acquired, released in *. simpl. rewrite !tally_app. lia.
Qed.

Lemma holds_plain (c : call) (l : list call) (held : list resource) :
  acquires c = [] -> releases c = [] -> holds l held -> holds (c :: l) held.
Proof.
  intros Ha Hr H. apply (holds_cons c l held held H).
  intros r. rewrite Ha, Hr. reflexivity.
Qed.

(** Rearranging what is held. *)
Lemma holds_same (l : list call) (h1 h2 : list resource) :
  (forall r, tally r h1 = tally r h2) -> holds l h1 -> holds l h2.
Proof. intros E H r. rewrite <- E. apply H. Qed.

Create HintDb holds.
#[local] Hint Resolve holds_nil holds_plain : holds.
#[local] Hint Extern 1 (_ = []) => reflexivity : holds.

Lemma query_pipes_holds (wh : address) :
  forall infos ep o i, holds (snd (query_pipes wh ep infos o i)) [].
Proof.
  induction infos as [|q infos IH]; intros ep o i; simpl; auto with holds.
  destruct (match q with
            | Some info =>
                if is_bulk_pipe (PipeType info) then
                  if negb (Z.land (PipeId info) 128 =? 0)
                  then (o, PipeId info) else (PipeId info, i)
                else (o, i)
            | None => (o, i)
            end) as [o1 i1].
  specialize (IH (S ep) o1 i1).
  destruct (query_pipes wh (S ep) infos o1 i1) as [[o2 i2] cs].
  simpl in *. auto with holds.
Qed.

Lemma open_matching_holds (vid pid : Z) :
  forall devs i,
    holds (snd (open_matching vid pid devs i))
      (match fst (open_matching vid pid devs i) with
       | Some h => [Device h]
       | None => []
       end).
Proof.
  induction devs as [|d devs IH]; intros i; simpl; auto with holds.
  specialize (IH (S i)).
  destruct (open_matching vid pid devs (S i)) as [h cs]. simpl in IH.
  destruct (descriptor d) as [[v p]|]; simpl; auto with holds.
  destruct ((v =? vid) && (p =? pid)); simpl; auto with holds.
  destruct (opened d) as [h'|]; simpl; auto with holds.
  apply holds_plain; auto with holds.
  apply (holds_cons _ [] []); auto with holds.
Qed.




(** Settles a goal [holds l held] on logs made of explicit calls and of
    sublogs known to hold something: count, resource by resource. *)
Ltac tally_up :=
  let r := fresh "r" in
  intros r;
  repeat match goal with H : holds _ _ |- _ => specialize (H r) end;
  unfold acquired, released, tally, file_resource in *; simpl in *;
  repeat match goal with
         | E : ?c = true |- context [if ?c then _ else _] => rewrite E
         | E : ?c = false |- context [if ?c then _ else _] => rewrite E
         end;
  repeat (rewrite ?flat_map_app, ?count_occ_app in *; simpl in *);
  repeat match goal with
         | |- context [resource_eq_dec ?x ?y] =>
             destruct (resource_eq_dec x y)
         | H : context [resource_eq_dec ?x ?y] |- _ =>
             destruct (resource_eq_dec x y)
         end;
  repeat match goal with
         | |- context [count_occ resource_eq_dec ?l r] =>
             let n := fresh "n" in
             set (n := count_occ resource_eq_dec l r) in *; clearbody n
         end;
  try congruence; lia.

Lemma enumerate_interfaces_holds :
  forall cands i bulk,
    let r := enumerate_interfaces cands i bulk in
    holds (snd r)
      (if fst (fst r)
       then file_resource (winusb_file_handle (snd (fst r)))
            ++ match winusb_handle (snd (fst r)) with
               | Some wh => [Session wh]
               | None => []
               end
       else []).
Proof.
  induction cands as [|c cands IH]; intros i bulk; cbv zeta.
  - simpl. auto with holds.
  - specialize (IH (S i) bulk). cbv zeta in IH.
    simpl enumerate_interfaces.
    destruct (enumerate_interfaces cands (S i) bulk) as [[ok b] cs].
    simpl in IH.
    destruct (detail_allocated c); simpl; [|auto with holds].
    destruct (detail_filled c); simpl; [|auto with holds].
    destruct (negb (wcsstr (DevicePath c) "vid_057e")
              && negb (wcsstr (DevicePath c) "VID_057E")); simpl;
      [auto with holds|].
    destruct (file c); simpl; try solve [auto 6 with holds];
      (destruct (session c) as [wh|]; [|simpl; tally_up];
       destruct (pipes c) as [infos|]; [|simpl; tally_up];
       pose proof (query_pipes_holds wh infos 0%nat 0 0) as Hqs;
       destruct (query_pipes wh 0 infos 0 0) as [[o1 i1] qs]; simpl in Hqs;
       destruct ((o1 =? 0) || (i1 =? 0)); simpl; tally_up).
Qed.

Lemma OpenWinUSB_holds (info : option (list device_interface))
    (bulk : Switch2_BulkUSB) :
  let r := Switch2_BulkUSB_OpenWinUSB info bulk in
  holds (snd r)
    (if fst (fst r)
     then file_resource (winusb_file_handle (snd (fst r)))
          ++ match winusb_handle (snd (fst r)) with
             | Some wh => [Session wh]
             | None => []
             end
     else []).
Proof.
  unfold Switch2_BulkUSB_OpenWinUSB. destruct info as [cands|]; cbv zeta.
  - pose proof (enumerate_interfaces_holds cands 0 bulk) as H. cbv zeta in H.
    destruct (enumerate_interfaces cands 0 bulk) as [[ok b] cs].
    simpl in H. destruct ok; simpl; tally_up.
  - simpl. auto with holds.
Qed.

Lemma drain_holds (stale : nat -> bool) (bulk : Switch2_BulkUSB) :
  forall fuel k l, drain stale bulk fuel k = Some l -> holds l [].
Proof.
  induction fuel as [|fuel IH]; intros k l; simpl;
    destruct (stale k); try discriminate;
    try (intros H; injection H as <-; auto with holds).
  destruct (drain stale bulk fuel (S k)) as [l'|] eqn:E; [|discriminate].
  simpl. intros H. injection H as <-. eauto with holds.
Qed.

Lemma FlushWinUSB_holds (stale : nat -> bool) (fuel : nat)
    (bulk : Switch2_BulkUSB) (l : list call) :
  Switch2_BulkUSB_FlushWinUSB stale fuel bulk = Some l -> holds l [].
Proof.
  unfold Switch2_BulkUSB_FlushWinUSB.
  destruct (drain stale bulk fuel 0) as [reads|] eqn:E; [|discriminate].
  apply drain_holds in E. simpl. intros H. injection H as <-. tally_up.
Qed.

(** Opening an own connection: the context and the device, or nothing. *)
Lemma open_own_connection_holds (w : world) (b : Switch2_BulkUSB) :
  device_handle b = None ->
  let r := open_own_connection w b in
  (fst r = b /\ holds (snd r) [])
  \/ exists h usb_ctx,
       fst r = set_libusb_ctx (Some usb_ctx)
                 (set_owns_device_handle true (set_device_handle (Some h) b))
       /\ holds (snd r) [Context usb_ctx; Device h].
Proof.
  intros Hb. unfold open_own_connection. cbv zeta.
  destruct (private_context w) as [usb_ctx|]; [|left; simpl; auto with holds].
  destruct (devices w) as [devs|].
  - pose proof (open_matching_holds (vendor_id w) (product_id w) devs 0) as Hq.
    destruct (open_matching (vendor_id w) (product_id w) devs 0) as [h cs].
    simpl in Hq. destruct h as [h|]; simpl.
    + right. exists h, usb_ctx. split; [reflexivity|]. tally_up.
    + left. rewrite Hb. simpl. split; [reflexivity|]. tally_up.
  - left. simpl. rewrite Hb. simpl. split; [reflexivity|]. tally_up.
Qed.

Section Balance.
Context {hdr : Headers}.

Lemma discover_and_claim_holds (w : world) (h : address)
    (b : Switch2_BulkUSB) :
  let r := discover_and_claim w h b in
  holds (snd r)
    (if fst (fst r) then [Interface (Some h) (interface_number (snd (fst r)))]
     else []).
Proof.
  unfold discover_and_claim. cbv zeta.
  destruct (Switch2_BulkUSB_FindEndpoints _ _ _ _) as [ok [[n o] i]].
  destruct ok; simpl.
  - destruct (claim w h n <? 0) eqn:E; simpl;
      destruct (config w h); tally_up.
  - destruct (config w h); tally_up.
Qed.

(** The generic path leaves in the context exactly what it acquired and
    did not give back itself: what [Close] will release. *)
Lemma Open_libusb_holds (w : world) (b : Switch2_BulkUSB) :
  owns_device_handle b = false -> libusb_ctx b = None ->
  interface_claimed b = false ->
  (SDL_PLATFORM_WIN32 && use_winusb b) = false ->
  let r := Open_libusb w b in
  holds (snd r) (released (snd (Switch2_BulkUSB_Close (snd (fst r))))).
Proof.
  intros Ho Hc Hi Hw. unfold Open_libusb, InitLibUSB, when. cbv zeta. simpl.
  destruct (runtime w) as [lib|] eqn:Hrt; simpl.
  2: { rewrite Close_calls. simpl. rewrite ?Hw, ?Ho, ?Hc, ?Hi. simpl.
       tally_up. }
  set (b1 := set_device_handle (shared_handle w) (set_libusb (Some lib) b)).
  destruct (shared_handle w) as [h|] eqn:Hs; simpl.
  - (* the shared handle *)
    pose proof (discover_and_claim_holds w h b1) as Hd. cbv zeta in Hd.
    destruct (discover_and_claim_spec w h b1) as (eps & Hfail & Hok).
    destruct (discover_and_claim w h b1) as [[ok b3] l3]. simpl in *.
    destruct eps as [[n o] i].
    destruct ok; [rewrite (Hok eq_refl) in *|
                  rewrite (proj1 (Hfail eq_refl)) in *];
      rewrite Close_calls; subst b1; simpl in *;
      rewrite ?Hw, ?Ho, ?Hc, ?Hi; simpl; tally_up.
  - (* an own connection *)
    destruct (open_own_connection_holds w b1 eq_refl)
      as [(E & Hl) | (h & ctx & E & Hl)];
      destruct (open_own_connection w b1) as [b2 l2]; simpl in E, Hl; subst b2.
    + subst b1. simpl. rewrite Close_calls. simpl.
      rewrite ?Hw, ?Ho, ?Hc, ?Hi. simpl. tally_up.
    + simpl.
      set (b2 := set_libusb_ctx (Some ctx)
                   (set_owns_device_handle true
                      (set_device_handle (Some h) b1))).
      pose proof (discover_and_claim_holds w h b2) as Hd. cbv zeta in Hd.
      destruct (discover_and_claim_spec w h b2) as (eps & Hfail & Hok).
      destruct (discover_and_claim w h b2) as [[ok b3] l3]. simpl in *.
      destruct eps as [[n o] i].
      destruct ok; [rewrite (Hok eq_refl) in *|
                    rewrite (proj1 (Hfail eq_refl)) in *];
        rewrite Close_calls; subst b2 b1; simpl in *;
        rewrite ?Hw, ?Ho, ?Hc, ?Hi; simpl; tally_up.
Qed.

End Balance.

Lemma Close_acquires_nothing {hdr : Headers} (b : Switch2_BulkUSB) :
  acquired (snd (Switch2_BulkUSB_Close b)) = [].
Proof.
  pose proof (Close_calls_ranked b) as H.
  induction H as [|c l Hc _ IH]; [reflexivity|].
  unfold acquired in *. simpl. rewrite IH, app_nil_r.
  destruct c; simpl in Hc; try reflexivity; lia.
Qed.

(** From an unopened context, whatever [Open] acquires and does not give
    back itself is what the following [Close] releases. *)
Lemma Open_holds {hdr : Headers} (w : world) (fuel : nat)
    (b b' : Switch2_BulkUSB) (ok : bool) (l : list call) :
  unopened b ->
  Switch2_BulkUSB_Open w fuel b = Some (ok, b', l) ->
  holds l (released (snd (Switch2_BulkUSB_Close b'))).
Proof.
  intros (Hl & Hh & Ho & Hc & Hi & Hu & Hwh & Hfh).
  assert (Hw : (SDL_PLATFORM_WIN32 && use_winusb b) = false)
    by (rewrite Hu; apply andb_false_r).
  pose proof (Open_libusb_holds w b Ho Hc Hi Hw) as Hgen. cbv zeta in Hgen.
  unfold Switch2_BulkUSB_Open.
  destruct SDL_PLATFORM_WIN32 eqn:HW.
  - pose proof (OpenWinUSB_spec (devinfo w) b) as Hn.
    pose proof (OpenWinUSB_holds (devinfo w) b) as Hhold.
    cbv zeta in Hn, Hhold.
    destruct (Switch2_BulkUSB_OpenWinUSB (devinfo w) b) as [[native b1] l1].
    simpl in Hn, Hhold. destruct Hn as (_ & Hf & Ht). destruct native.
    + destruct (Switch2_BulkUSB_FlushWinUSB (stale w) fuel b1) as [lf|] eqn:E;
        [|discriminate].
      apply FlushWinUSB_holds in E.
      simpl. intros H. injection H as <- <- <-.
      destruct (Ht eq_refl) as (E1 & E2 & E3 & E4 & E5 & E6).
      rewrite Close_calls, HW, E1, E2, E3, E4, E5, E6, Hl, Ho, Hc, Hi.
      simpl.
      destruct (winusb_handle b1), (winusb_file_handle b1); simpl in *;
        tally_up.
    + rewrite (Hf eq_refl) in *.
      destruct (Open_libusb w b) as [[ok2 b2] l2]. simpl in Hgen.
      intros H. injection H as <- <- <-. tally_up.
  - destruct (Open_libusb w b) as [[ok2 b2] l2]. simpl in Hgen.
    intros H. injection H as <- <- <-. exact Hgen.
Qed.

(** X1.  Over [Open], whatever its outcome, and the [Close] that follows,
    the resources released are the resources acquired, each as often as it
    was acquired: nothing leaks and nothing is released twice. *)
Theorem Open_then_Close_balanced {hdr : Headers} (w : world) (fuel : nat)
    (b b' : Switch2_BulkUSB) (ok : bool) (l : list call) :
  unopened b ->
  Switch2_BulkUSB_Open w fuel b = Some (ok, b', l) ->
  Permutation (acquired (l ++ snd (Switch2_BulkUSB_Close b')))
              (released (l ++ snd (Switch2_BulkUSB_Close b'))).
Proof.
  intros Hb H. apply (Permutation_count_occ resource_eq_dec). intros r.
  pose proof (Open_holds w fuel b b' ok l Hb H r) as Hh.
  rewrite acquired_app, released_app, Close_acquires_nothing, app_nil_r.
  unfold tally in Hh. rewrite count_occ_app. exact Hh.
Qed.

Lemma unopened_inert : unopened inert.
Proof. repeat split. Qed.

Lemma Open_then_Close_balanced_witness :
  Permutation
    [Runtime; Context 3%nat; Device 4%nat; Interface (Some 4%nat) 1]
    [Interface (Some 4%nat) 1; Device 4%nat; Context 3%nat; Runtime].
Proof.
  exact (@Open_then_Close_balanced posix own_world 0 inert own_context true _
           unopened_inert eq_refl).
Defined.

(** C5, as stated, fails: when discovery finds no bulk endpoints on a
    shared handle, [Open] returns false and the context still records the
    libusb runtime and the device handle. *)
Lemma Open_failure_keeps_references :
  unopened inert
  /\ @Switch2_BulkUSB_Open posix no_vendor_world 0 inert =
     Some (false, stranded,
           [SDL_InitLibUSB (Some 1%nat); SDL_GetPointerProperty;
            get_config_descriptor (Some 2%nat); free_config_descriptor;
            SDL_SetError "Couldn't find bulk endpoints"])
  /\ ~ no_reference stranded.
Proof.
  split; [exact unopened_inert|]. split; [reflexivity|].
  intros (H & _). discriminate H.
Qed.

(** C5, amended.  Every failure of [Open] on an unopened context leaves no
    backend marked active.  After a failure to initialise libusb or to get a
    device handle no reference to an acquired resource is recorded; after a
    failure of the endpoint discovery or of the claim the libusb runtime and
    the device handle stay recorded, together with the private libusb
    context exactly when the handle is the transport's own. *)
Theorem Open_failure_state {hdr : Headers} (w : world) (fuel : nat)
    (b b' : Switch2_BulkUSB) (l : list call) :
  unopened b ->
  Switch2_BulkUSB_Open w fuel b = Some (false, b', l) ->
  no_backend b'
  /\ (((reported l = Some "Couldn't initialize libusb"%string
        \/ reported l = Some "Couldn't get libusb device handle"%string)
       /\ no_reference b' /\ owns_device_handle b' = false)
      \/ ((reported l = Some "Couldn't find bulk endpoints"%string
           \/ reported l
              = Some ("Couldn't claim interface %d: %d" ++ LF)%string)
          /\ libusb b' <> None /\ device_handle b' <> None
          /\ (libusb_ctx b' <> None <-> owns_device_handle b' = true))).
Proof.
  intros (_ & Hh & Ho & Hc & Hi & Hu & _) H.
  apply Open_failed_generic in H. destruct H as (l1 & l2 & -> & _ & H).
  apply Open_libusb_failure in H; auto.
  destruct H as (Hcl & Huse & Hcases).
  split; [split; congruence|].
  assert (Hrep : forall msg, reported l2 = Some msg ->
                             reported (l1 ++ l2) = Some msg).
  { intros msg E. rewrite reported_app; [exact E|].
    eapply reported_not_nil, E. }
  destruct Hcases as [([E | E] & Hrest) | ([E | E] & Hrest)];
    apply Hrep in E; auto.
Qed.

Lemma Open_failure_state_witness :
  no_backend stranded /\ libusb stranded <> None.
Proof.
  destruct (@Open_failure_state posix no_vendor_world 0 inert stranded _
              unopened_inert eq_refl) as (Hb & [(_ & (H & _) & _) | (_ & H & _)]).
  - discriminate H.
  - split; assumption.
Defined.

(** C6.  When interface 1 of the device has no bulk endpoint of some
    direction, or does not exist, endpoint discovery fails, and [Open] on
    the generic path returns false without having called [claim_interface]
    or attempted a transfer; [interface_claimed] stays false. *)
Theorem Open_without_vendor_interface {hdr : Headers} (w : world)
    (fuel : nat) (b : Switch2_BulkUSB) :
  interface_claimed b = false ->
  SDL_PLATFORM_WIN32 = false
  \/ fst (fst (Switch2_BulkUSB_OpenWinUSB (devinfo w) b)) = false ->
  (forall h cfg, config w h = Some cfg -> lacks_bulk_pair cfg) ->
  (forall h n o i,
      fst (Switch2_BulkUSB_FindEndpoints (config w h) n o i) = false)
  /\ exists b' l,
       Switch2_BulkUSB_Open w fuel b = Some (false, b', l)
       /\ interface_claimed b' = false /\ quiet l.
Proof.
  intros Hi Hgen Hcfg. split.
  - intros h n o i. destruct (config w h) as [cfg|] eqn:E; [|reflexivity].
    apply FindEndpoints_lacking. eapply Hcfg. eassumption.
  - destruct (Open_libusb_without_vendor w b Hcfg) as (b' & l & E & Hq & Hc).
    unfold Switch2_BulkUSB_Open.
    destruct SDL_PLATFORM_WIN32.
    + destruct Hgen as [Hgen | Hgen]; [discriminate|].
      pose proof (OpenWinUSB_spec (devinfo w) b) as H. cbv zeta in H.
      destruct (Switch2_BulkUSB_OpenWinUSB (devinfo w) b) as [[native b1] l1].
      simpl in *. subst native. destruct H as (Hq1 & Hf & _).
      rewrite (Hf eq_refl), E. do 2 eexists. split; [reflexivity|].
      split; [congruence|auto with quiet].
    + rewrite E. do 2 eexists. split; [reflexivity|].
      split; [congruence|assumption].
Qed.

Lemma Open_without_vendor_interface_witness :
  exists b' l,
    @Switch2_BulkUSB_Open win32 own_no_vendor_world 0 inert
    = Some (false, b', l)
    /\ interface_claimed b' = false /\ quiet l.
Proof.
  refine (proj2 (@Open_without_vendor_interface win32 own_no_vendor_world 0
                   inert eq_refl _ _)).
  - right. reflexivity.
  - intros h cfg E. injection E as <-. left. reflexivity.
Defined.

(** ** Open followed by Close *)

(** In a context [Open] produced, a claimed interface comes with the libusb
    runtime that [Close] needs to release it. *)
Lemma Open_claimed_has_runtime {hdr : Headers} (w : world) (fuel : nat)
    (b b' : Switch2_BulkUSB) (ok : bool) (l : list call) :
  unopened b ->
  Switch2_BulkUSB_Open w fuel b = Some (ok, b', l) ->
  interface_claimed b' = true -> libusb b' <> None.
Proof.
  intros Hb H Hcl. destruct ok.
  - revert H. unfold Switch2_BulkUSB_Open.
    destruct Hb as (_ & _ & _ & _ & Hi & _).
    assert (Hgen : forall l1, (let '(ok, b2, l2) := Open_libusb w b in
                               Some (ok, b2, l1 ++ l2)) = Some (true, b', l) ->
                              libusb b' <> None).
    { intros l1. destruct (Open_libusb w b) as [[ok b2] l2] eqn:E.
      intros E'. injection E' as -> -> _.
      apply Open_libusb_success in E. tauto. }
    destruct SDL_PLATFORM_WIN32; [|apply Hgen].
    pose proof (OpenWinUSB_spec (devinfo w) b) as Hn. cbv zeta in Hn.
    destruct (Switch2_BulkUSB_OpenWinUSB (devinfo w) b) as [[native b1] l1].
    simpl in Hn. destruct Hn as (_ & Hf & Ht). destruct native.
    + destruct (Switch2_BulkUSB_FlushWinUSB (stale w) fuel b1);
        [|discriminate].
      simpl. intros E. injection E as -> _.
      destruct (Ht eq_refl) as (_ & _ & _ & _ & _ & E). congruence.
    + rewrite (Hf eq_refl). apply Hgen.
  - apply Open_failed_generic in H. destruct H as (l1 & l2 & _ & _ & H).
    destruct Hb as (_ & Hh & Ho & Hc & Hi & _).
    apply Open_libusb_failure in H; auto. destruct H as (H & _). congruence.
Qed.

Lemma releases_after_Close {hdr : Headers} (n : nat) (b : Switch2_BulkUSB) :
  releases_of_interface (snd (Close_times (S n) b)) =
  if interface_claimed b && non_null (libusb b) then 1%nat else 0%nat.
Proof. rewrite Close_times_calls. simpl. apply Close_releases_interface. Qed.

(** C7.  [Close] releases in a fixed order: the native session handle and
    file handle first, then the claimed interface, then the device handle,
    then the private libusb context, and last the hold on the libusb
    runtime.  Each of these calls is made exactly when the context records
    the resource: the interface only if [interface_claimed], the device
    handle only if [owns_device_handle], the private context only if one
    was created.  Over any number of successive calls a claimed interface
    is released exactly once, and an unclaimed one never. *)
Theorem Close_releases_in_order {hdr : Headers} (b : Switch2_BulkUSB) :
  let calls := snd (Switch2_BulkUSB_Close b) in
  StronglySorted before calls
  /\ (forall c,
        In c calls <->
        recorded b c
        /\ ((teardown_rank c < 2)%nat -> SDL_PLATFORM_WIN32 = true))
  /\ (forall n,
        interface_claimed b = true -> libusb b <> None ->
        releases_of_interface (snd (Close_times (S n) b)) = 1%nat)
  /\ (forall n,
        interface_claimed b = false ->
        releases_of_interface (snd (Close_times n b)) = 0%nat)
  /\ (forall w fuel b0 ok l n,
        unopened b0 ->
        Switch2_BulkUSB_Open w fuel b0 = Some (ok, b, l) ->
        releases_of_interface (snd (Close_times (S n) b)) =
        if interface_claimed b then 1%nat else 0%nat).
Proof.
  cbv zeta. split; [apply Close_in_order|].
  split; [apply Close_calls_recorded|].
  split; [|split].
  - intros n Hc Hl. rewrite releases_after_Close, Hc.
    destruct (libusb b); [reflexivity|congruence].
  - intros [|n] Hc; [reflexivity|]. rewrite releases_after_Close, Hc.
    reflexivity.
  - intros w fuel b0 ok l n Hb0 Hopen. rewrite releases_after_Close.
    destruct (interface_claimed b) eqn:Hc; [|reflexivity].
    pose proof (Open_claimed_has_runtime w fuel b0 b ok l Hb0 Hopen Hc) as Hl.
    destruct (libusb b); [reflexivity|congruence].
Qed.

Lemma Close_releases_in_order_witness :
  releases_of_interface (snd (@Close_times posix 3 own_context)) = 1%nat
  /\ releases_of_interface (snd (@Close_times posix 3 stranded)) = 0%nat
  /\ releases_of_interface (snd (@Close_times posix 3 own_context)) =
     (if interface_claimed own_context then 1%nat else 0%nat).
Proof.
  destruct (@Close_releases_in_order posix own_context)
    as (_ & _ & H1 & _ & H3).
  destruct (@Close_releases_in_order posix stranded) as (_ & _ & _ & H2 & _).
  split; [|split].
  - apply H1; [reflexivity|discriminate].
  - apply H2. reflexivity.
  - eapply (H3 own_world 0%nat inert true); [exact unopened_inert|].
    reflexivity.
Defined.



(** ** Open, then Close: concrete runs *)

(** After a failed [Open], [Close] releases what was left recorded and makes
    the context one on which a further [Close] does nothing. *)
Lemma Close_after_failed_Open {hdr : Headers} (w : world) (fuel : nat)
    (b b' : Switch2_BulkUSB) (l : list call) :
  unopened b ->
  Switch2_BulkUSB_Open w fuel b = Some (false, b', l) ->
  let b'' := fst (Switch2_BulkUSB_Close b') in
  libusb b'' = None /\ libusb_ctx b'' = None /\ interface_claimed b'' = false
  /\ (owns_device_handle b' = true -> device_handle b'' = None)
  /\ (libusb b' <> None -> In SDL_QuitLibUSB (snd (Switch2_BulkUSB_Close b')))
  /\ releases_of_interface (snd (Switch2_BulkUSB_Close b')) = 0%nat.
Proof.
  intros Hb H. pose proof Hb as (_ & Hh & Ho & Hc & Hi & _).
  apply Open_failed_generic in H. destruct H as (l1 & l2 & _ & _ & H).
  apply Open_libusb_failure in H; auto.
  destruct H as (Hcl & _ & Hcases). cbv zeta.
  destruct (Close_state b') as (E1 & _ & E3 & E4 & E5 & _).
  rewrite E1, E3, E4, E5, Hcl, Close_releases_interface, Hcl.
  split; [reflexivity|]. split; [|split; [|split; [|split]]].
  - destruct Hcases as [(_ & (_ & _ & E) & _) | (_ & Hl & _)];
      destruct (libusb b'); simpl; congruence.
  - destruct (libusb b'); reflexivity.
  - intros Hown. rewrite Hown.
    destruct Hcases as [(_ & _ & E) | (_ & Hl & _)]; [congruence|].
    destruct (libusb b'); simpl; congruence.
  - intros Hl. apply Close_calls_recorded. split; [exact Hl|].
    simpl. intros Hr. lia.
  - reflexivity.
Qed.

Example Open_no_runtime :
  @Switch2_BulkUSB_Open posix no_runtime_world 0 inert =
  Some (false, inert,
        [SDL_InitLibUSB None; SDL_SetError "Couldn't initialize libusb"]).
Proof. reflexivity. Qed.

Example Open_no_device :
  @Switch2_BulkUSB_Open posix no_device_world 0 inert =
  Some (false, inert,
        [SDL_InitLibUSB (Some 1%nat); SDL_GetPointerProperty;
         libusb_init (Some 3%nat); get_device_list 3%nat; free_device_list;
         libusb_exit 3%nat;
         SDL_QuitLibUSB; SDL_SetError "Couldn't get libusb device handle"]).
Proof. reflexivity. Qed.

Example Open_busy :
  option_map (fun r => (fst (fst r), interface_claimed (snd (fst r)),
                        libusb (snd (fst r)), reported (snd r)))
    (@Switch2_BulkUSB_Open posix busy_world 0 inert) =
  Some (false, false, Some 1%nat,
        Some ("Couldn't claim interface %d: %d" ++ LF)%string).
Proof. reflexivity. Qed.

Example Open_shared_then_Close :
  option_map (fun r => (fst (fst r), snd (@Close_times posix 2 (snd (fst r)))))
    (@Switch2_BulkUSB_Open posix shared_world 0 inert) =
  Some (true, [release_interface (Some 2%nat) 1; SDL_QuitLibUSB]).
Proof. reflexivity. Qed.

Example Open_own_then_Close :
  option_map (fun r => (snd (fst r), snd (@Close_times posix 2 (snd (fst r)))))
    (@Switch2_BulkUSB_Open posix own_world 0 inert) =
  Some (own_context,
        [release_interface (Some 4%nat) 1; libusb_close 4%nat;
         libusb_exit 3%nat; SDL_QuitLibUSB]).
Proof. reflexivity. Qed.

(** The native path wins when it is available; the flush needs a budget of
    two reads here. *)
Example Open_native_then_Close :
  option_map (fun r => (fst (fst r), use_winusb (snd (fst r)),
                        interface_claimed (snd (fst r)),
                        snd (@Close_times win32 2 (snd (fst r)))))
    (@Switch2_BulkUSB_Open win32 winusb_world 2 inert) =
  Some (true, true, false,
        [WinUsb_Free 6%nat; CloseHandle (Handle 5%nat)]).
Proof. reflexivity. Qed.

(** When the native path is locked [Open] falls back to the generic one. *)
Example Open_fallback :
  option_map (fun r => (fst (fst r), use_winusb (snd (fst r)),
                        interface_claimed (snd (fst r)),
                        snd (@Close_times win32 2 (snd (fst r)))))
    (@Switch2_BulkUSB_Open win32 locked_world 0 inert) =
  Some (true, false, true,
        [release_interface (Some 2%nat) 1; SDL_QuitLibUSB]).
Proof. reflexivity. Qed.

Example Open_own_then_Close_resources :
  option_map (fun r => (acquired (snd r),
                        released (snd (@Switch2_BulkUSB_Close posix
                                         (snd (fst r))))))
    (@Switch2_BulkUSB_Open posix own_world 0 inert) =
  Some ([Runtime; Context 3%nat; Device 4%nat; Interface (Some 4%nat) 1],
        [Interface (Some 4%nat) 1; Device 4%nat; Context 3%nat; Runtime]).
Proof. reflexivity. Qed.

(* ================================================================= *)
(** * Further properties *)

(** ** Lists *)

Lemma last_cons {A : Type} (x : A) (l : list A) (d : A) :
  last (x :: l) d = last l x.
Proof.
  revert x d. induction l as [|y l IH]; intros x d; [reflexivity|].
  change (last (x :: y :: l) d) with (last (y :: l) d).
  rewrite !IH. reflexivity.
Qed.

Lemma last_skip {A : Type} (l1 l2 : list A) (d : A) :
  l2 <> [] -> last (l1 ++ l2) d = last l2 d.
Proof.
  intros H. induction l1 as [|c l1 IH]; [reflexivity|].
  simpl. destruct (l1 ++ l2) eqn:E; [|exact IH].
  apply app_eq_nil in E. tauto.
Qed.

Lemma last_filter_In {A : Type} (f : A -> bool) (g : A -> Z) (l : list A)
    (d : Z) :
  (filter f l = [] /\ last (map g (filter f l)) d = d)
  \/ exists x, In x l /\ f x = true /\ last (map g (filter f l)) d = g x.
Proof.
  destruct (filter f l) as [|y l'] eqn:E; [left; split; reflexivity|].
  right.
  assert (Hne : y :: l' <> []) by discriminate.
  destruct (exists_last Hne) as (l'' & z & Ez). rewrite Ez.
  exists z. rewrite map_app. simpl. rewrite last_last.
  assert (Hin : In z (filter f l)).
  { rewrite E, Ez. apply in_or_app. right. left. reflexivity. }
  apply filter_In in Hin. tauto.
Qed.

Lemma filter_snoc {A : Type} (f : A -> bool) (l : list A) (x : A) :
  filter f (l ++ [x]) = if f x then filter f l ++ [x] else filter f l.
Proof.
  rewrite filter_app. simpl. destruct (f x); [reflexivity|apply app_nil_r].
Qed.

Lemma snoc_not_nil {A : Type} (l : list A) (x : A) T (a b : T) :
  match l ++ [x] with [] => a | _ => b end = b.
Proof. destruct l; reflexivity. Qed.

Lemma nth_error_length {A : Type} (l : list A) (t : nat) (x : A) :
  nth_error l t = Some x -> (t < List.length l)%nat.
Proof. intros H. apply nth_error_Some. congruence. Qed.

(** ** Endpoint discovery on any descriptor *)

Section DiscoveryOutputs.
Context {hdr : Headers}.

Lemma last_address_snoc (l : list libusb_endpoint_descriptor)
    (e : libusb_endpoint_descriptor) (d : Z) :
  last_address (l ++ [e]) d = bEndpointAddress e.
Proof. unfold last_address. rewrite map_app. simpl. apply last_last. Qed.

(** One more endpoint, after [seen]. *)
Lemma scanned_snoc (n o i : Z) (seen : list libusb_endpoint_descriptor)
    (e : libusb_endpoint_descriptor) :
  scanned n o i (seen ++ [e]) =
  if is_bulk e then record_endpoint 1 e (scanned n o i seen)
  else scanned n o i seen.
Proof.
  unfold scanned, record_endpoint, bulk_out, bulk_in.
  rewrite !filter_snoc. simpl.
  destruct (is_bulk e), (is_out e), (is_in e); simpl;
    rewrite ?snoc_not_nil, ?last_address_snoc;
    try reflexivity;
    destruct (filter (fun ep => is_bulk ep && is_out ep) seen),
             (filter (fun ep => is_bulk ep && is_in ep) seen);
    reflexivity.
Qed.

Lemma found_scanned (n o i : Z) (seen : list libusb_endpoint_descriptor) :
  (found (scanned n o i seen) =? 3) =
  negb (match filter bulk_out seen with [] => true | _ => false end
        || match filter bulk_in seen with [] => true | _ => false end).
Proof.
  unfold scanned. simpl.
  destruct (filter bulk_out seen), (filter bulk_in seen); reflexivity.
Qed.

Lemma lacking_prefix (l : list libusb_endpoint_descriptor)
    (e : libusb_endpoint_descriptor) :
  lacks_pair (l ++ [e]) -> lacks_pair l.
Proof.
  unfold lacks_pair. rewrite !filter_app.
  intros [H | H]; apply app_eq_nil in H; tauto.
Qed.

Lemma found_lacking (n o i : Z) (l : list libusb_endpoint_descriptor) :
  lacks_pair l -> (found (scanned n o i l) =? 3) = false.
Proof.
  intros H. rewrite found_scanned.
  destruct H as [-> | ->]; rewrite ?orb_true_r; reflexivity.
Qed.

Lemma found_complete (n o i : Z) (l : list libusb_endpoint_descriptor) :
  filter bulk_out l <> [] -> filter bulk_in l <> [] ->
  (found (scanned n o i l) =? 3) = true.
Proof.
  intros Ho Hi. rewrite found_scanned.
  destruct (filter bulk_out l), (filter bulk_in l); simpl; congruence.
Qed.

(** While no pair is complete the scan goes on, and its state is [scanned]. *)
Lemma scan_endpoints_lacking (n o i : Z) :
  forall seen,
    lacks_pair seen ->
    scan_endpoints 1 seen
      {| found := 0; iface_num := n; out_ep := o; in_ep := i |} =
    Continue (scanned n o i seen).
Proof.
  induction seen as [|e seen IH] using rev_ind; intros H; [reflexivity|].
  rewrite scan_endpoints_app, (IH (lacking_prefix _ _ H)). simpl.
  pose proof (found_lacking n o i _ H) as Hf.
  rewrite scanned_snoc in *. destruct (is_bulk e); [|reflexivity].
  rewrite Hf. reflexivity.
Qed.

(** The scan returns at the endpoint that completes the first pair. *)
Lemma scan_endpoints_completes (n o i : Z)
    (pre post : list libusb_endpoint_descriptor)
    (e : libusb_endpoint_descriptor) :
  lacks_pair pre ->
  filter bulk_out (pre ++ [e]) <> [] -> filter bulk_in (pre ++ [e]) <> [] ->
  scan_endpoints 1 (pre ++ e :: post)
    {| found := 0; iface_num := n; out_ep := o; in_ep := i |} =
  Return (scanned n o i (pre ++ [e])).
Proof.
  intros Hpre Ho Hi.
  rewrite scan_endpoints_app, (scan_endpoints_lacking n o i pre Hpre). simpl.
  pose proof (found_complete n o i _ Ho Hi) as Hf.
  rewrite scanned_snoc in *. destruct (is_bulk e) eqn:Hb.
  - rewrite Hf. reflexivity.
  - rewrite (found_lacking n o i pre Hpre) in Hf. discriminate.
Qed.

Lemma lacking_dec (l : list libusb_endpoint_descriptor) :
  lacks_pair l \/ (filter bulk_out l <> [] /\ filter bulk_in l <> []).
Proof.
  unfold lacks_pair.
  destruct (filter bulk_out l); [left; left; reflexivity|].
  destruct (filter bulk_in l); [left; right; reflexivity|].
  right. split; discriminate.
Qed.

(** A list with a pair has a shortest prefix with a pair. *)
Lemma first_pair (l : list libusb_endpoint_descriptor) :
  filter bulk_out l <> [] -> filter bulk_in l <> [] ->
  exists pre e post,
    l = pre ++ e :: post /\ lacks_pair pre
    /\ filter bulk_out (pre ++ [e]) <> [] /\ filter bulk_in (pre ++ [e]) <> [].
Proof.
  induction l as [|x l IH] using rev_ind; intros Ho Hi;
    [exfalso; apply Ho; reflexivity|].
  destruct (lacking_dec l) as [H | [Ho' Hi']].
  - exists l, x, []. auto.
  - destruct (IH Ho' Hi') as (pre & e & post & -> & H).
    exists pre, e, (post ++ [x]). split; [|exact H].
    rewrite <- app_assoc. reflexivity.
Qed.

End DiscoveryOutputs.

(** X2.  Discovery succeeds exactly when the alternate settings numbered 1
    carry, between them, at least one bulk OUT endpoint and at least one
    bulk IN endpoint. *)
Theorem FindEndpoints_succeeds_iff {hdr : Headers}
    (cfg : libusb_config_descriptor) (n o i : Z) :
  fst (Switch2_BulkUSB_FindEndpoints (Some cfg) n o i) = true
  <-> filter bulk_out (interface1_endpoints cfg) <> []
      /\ filter bulk_in (interface1_endpoints cfg) <> [].
Proof.
  unfold Switch2_BulkUSB_FindEndpoints. rewrite scan_interfaces_flat. split.
  - intros H. destruct (lacking_dec (interface1_endpoints cfg)) as [L | P];
      [|exact P].
    rewrite (scan_endpoints_lacking n o i _ L) in H. discriminate.
  - intros [Ho Hi].
    destruct (first_pair _ Ho Hi) as (pre & e & post & -> & L & Ho' & Hi').
    rewrite (scan_endpoints_completes n o i pre post e L Ho' Hi'). reflexivity.
Qed.

(** X3.  The pair returned is the first one completed in descriptor order.
    When [e] is the first endpoint at which interface 1 has shown a bulk
    endpoint of each direction, discovery returns there with 1 in
    [*iface_num] and, in [*out_ep] and [*in_ep], the last bulk OUT and the
    last bulk IN address seen up to and including [e]; the two may come from
    different alternate settings, and the endpoints after [e] play no
    part. *)
Theorem FindEndpoints_first_pair {hdr : Headers}
    (cfg : libusb_config_descriptor) (n o i : Z)
    (pre post : list libusb_endpoint_descriptor)
    (e : libusb_endpoint_descriptor) :
  interface1_endpoints cfg = pre ++ e :: post ->
  filter bulk_out pre = [] \/ filter bulk_in pre = [] ->
  filter bulk_out (pre ++ [e]) <> [] ->
  filter bulk_in (pre ++ [e]) <> [] ->
  Switch2_BulkUSB_FindEndpoints (Some cfg) n o i =
  (true, (1, last_address (filter bulk_out (pre ++ [e])) o,
          last_address (filter bulk_in (pre ++ [e])) i)).
Proof.
  intros E L Ho Hi. unfold Switch2_BulkUSB_FindEndpoints.
  rewrite scan_interfaces_flat, E,
    (scan_endpoints_completes n o i pre post e L Ho Hi).
  unfold scanned. simpl.
  assert (Hb : filter is_bulk (pre ++ [e]) <> []).
  { intros Hn. apply Ho.
    assert (forall l, filter is_bulk l = [] -> filter bulk_out l = []) as F.
    { induction l as [|x l IH]; simpl; [reflexivity|]. unfold bulk_out at 1.
      destruct (is_bulk x); simpl; [discriminate|exact IH]. }
    apply F, Hn. }
  destruct (filter is_bulk (pre ++ [e])); [congruence|reflexivity].
Qed.

Lemma FindEndpoints_first_pair_witness :
  @Switch2_BulkUSB_FindEndpoints posix (Some two_altsettings_config) 7 8 9 =
  (true, (1, 0x01, 0x82)).
Proof.
  apply (@FindEndpoints_first_pair posix two_altsettings_config 7 8 9
           [ep 0x01 2] [ep 0x02 2] (ep 0x82 2));
    [reflexivity|right; reflexivity|discriminate|discriminate].
Defined.

(** X4.  A failed discovery may have written through its out-parameters.
    When the descriptor cannot be read they are untouched.  When interface 1
    lacks a bulk endpoint of some direction, false is returned, [*iface_num]
    is 1 as soon as interface 1 has any bulk endpoint, and [*out_ep] and
    [*in_ep] hold the last bulk address seen of their direction, or their
    old value when there was none. *)
Theorem FindEndpoints_failure_outputs {hdr : Headers}
    (cfg : libusb_config_descriptor) (n o i : Z) :
  Switch2_BulkUSB_FindEndpoints None n o i = (false, (n, o, i))
  /\ (filter bulk_out (interface1_endpoints cfg) = []
      \/ filter bulk_in (interface1_endpoints cfg) = [] ->
      Switch2_BulkUSB_FindEndpoints (Some cfg) n o i =
      (false,
       (match filter is_bulk (interface1_endpoints cfg) with
        | [] => n
        | _ => 1
        end,
        last_address (filter bulk_out (interface1_endpoints cfg)) o,
        last_address (filter bulk_in (interface1_endpoints cfg)) i))).
Proof.
  split; [reflexivity|]. intros L. unfold Switch2_BulkUSB_FindEndpoints.
  rewrite scan_interfaces_flat, (scan_endpoints_lacking n o i _ L).
  reflexivity.
Qed.

Lemma FindEndpoints_failure_outputs_witness :
  @Switch2_BulkUSB_FindEndpoints posix (Some out_only_config) 7 8 9 =
  (false, (1, 0x04, 9)).
Proof.
  apply (proj2 (@FindEndpoints_failure_outputs posix out_only_config 7 8 9)).
  right. reflexivity.
Defined.

(** What a successful discovery stored: 1, and the addresses of a bulk OUT
    and of a bulk IN endpoint of interface 1. *)
Lemma FindEndpoints_sound {hdr : Headers} (cfg : libusb_config_descriptor)
    (n o i n' o' i' : Z) :
  Switch2_BulkUSB_FindEndpoints (Some cfg) n o i = (true, (n', o', i')) ->
  n' = 1
  /\ exists eo ei,
       In eo (interface1_endpoints cfg) /\ bulk_out eo = true
       /\ o' = bEndpointAddress eo
       /\ In ei (interface1_endpoints cfg) /\ bulk_in ei = true
       /\ i' = bEndpointAddress ei.
Proof.
  unfold Switch2_BulkUSB_FindEndpoints. rewrite scan_interfaces_flat.
  destruct (lacking_dec (interface1_endpoints cfg)) as [L | [Ho Hi]].
  { rewrite (scan_endpoints_lacking n o i _ L). discriminate. }
  destruct (first_pair _ Ho Hi) as (pre & e & post & E & L & Ho' & Hi').
  rewrite E, (scan_endpoints_completes n o i pre post e L Ho' Hi').
  unfold scanned, last_address. simpl.
  assert (Hsub : forall x, In x (pre ++ [e]) -> In x (pre ++ e :: post)).
  { intros x Hx. apply in_app_iff in Hx. apply in_app_iff.
    destruct Hx as [Hx | [<- | []]]; [left; exact Hx|right; left; reflexivity]. }
  destruct (last_filter_In bulk_out bEndpointAddress (pre ++ [e]) o)
    as [[Eo _] | (eo & Hino & Hbo & Eo)]; [congruence|].
  destruct (last_filter_In bulk_in bEndpointAddress (pre ++ [e]) i)
    as [[Ei _] | (ei & Hini & Hbi & Ei)]; [congruence|].
  rewrite Eo, Ei.
  assert (Hb : filter is_bulk (pre ++ [e]) <> []).
  { intros Hn.
    assert (Hin : In eo (filter is_bulk (pre ++ [e]))).
    { apply filter_In. split; [exact Hino|].
      unfold bulk_out in Hbo. apply andb_true_iff in Hbo. tauto. }
    rewrite Hn in Hin. destruct Hin. }
  destruct (filter is_bulk (pre ++ [e])); [congruence|].
  intros H. injection H as <- <- <-. split; [reflexivity|].
  exists eo, ei. repeat split; auto.
Qed.

(** ** The native open, interface by interface *)

(** The loop over the pipes keeps the last bulk pipe of each direction and
    queries every pipe index once. *)
Lemma query_pipes_spec (wh : address) :
  forall infos ep o i,
    query_pipes wh ep infos o i =
    (last_pipe (filter bulk_out_pipe (pipe_infos infos)) o,
     last_pipe (filter bulk_in_pipe (pipe_infos infos)) i,
     map (WinUsb_QueryPipe wh) (List.seq ep (List.length infos))).
Proof.
  induction infos as [|q infos IH]; intros ep o i; [reflexivity|].
  simpl query_pipes.
  destruct q as [info|]; simpl.
  - unfold bulk_out_pipe at 1, bulk_in_pipe at 1.
    destruct (is_bulk_pipe (PipeType info)); simpl.
    + destruct (Z.land (PipeId info) 128 =? 0); simpl;
        rewrite IH; unfold last_pipe; simpl map; rewrite last_cons;
        reflexivity.
    + rewrite IH. reflexivity.
  - rewrite IH. reflexivity.
Qed.

(** The enumeration is a search for the first usable interface. *)
Lemma enumerate_interfaces_selects :
  forall cands i bulk,
    fst (enumerate_interfaces cands i bulk) =
    match find usable cands with
    | Some c =>
        match picked_pipes c with
        | Some (o, i') => (true, selected c o i' bulk)
        | None => (false, bulk)
        end
    | None => (false, bulk)
    end.
Proof.
  induction cands as [|c cands IH]; intros i bulk; [reflexivity|].
  specialize (IH (S i) bulk). simpl enumerate_interfaces. simpl find.
  destruct (enumerate_interfaces cands (S i) bulk) as [[ok b] cs].
  simpl in IH. unfold usable at 1, vendor_path.
  destruct (detail_allocated c); simpl; [|exact IH].
  destruct (detail_filled c); simpl; [|exact IH].
  destruct (wcsstr (DevicePath c) "vid_057e"),
           (wcsstr (DevicePath c) "VID_057E"); simpl; try exact IH;
    (destruct (file c) eqn:Ef; simpl; try exact IH;
     (destruct (session c) as [wh|] eqn:Es; simpl; [|exact IH];
      unfold picked_pipes, selected;
      destruct (pipes c) as [infos|] eqn:Ep; simpl; [|exact IH];
      rewrite query_pipes_spec;
      destruct ((last_pipe (filter bulk_out_pipe (pipe_infos infos)) 0 =? 0)
                || (last_pipe (filter bulk_in_pipe (pipe_infos infos)) 0 =? 0))
        eqn:Eo;
      simpl; [exact IH|rewrite Ef, Es, Ep, Eo; reflexivity])).
Qed.

(** X5.  [Switch2_BulkUSB_OpenWinUSB] selects the first device interface of
    the enumeration that passes every test of the loop (detail obtained,
    vendor path, file opened, WinUSB session, interface settings, a bulk pipe
    of each direction) and records its file, its session and its pipes.
    When no interface passes, or the enumeration cannot start, it returns
    false and the context is as it was. *)
Theorem OpenWinUSB_first_usable (cands : list device_interface)
    (bulk : Switch2_BulkUSB) :
  fst (Switch2_BulkUSB_OpenWinUSB None bulk) = (false, bulk)
  /\ match find usable cands with
     | None =>
         fst (Switch2_BulkUSB_OpenWinUSB (Some cands) bulk) = (false, bulk)
     | Some c =>
         exists o i,
           picked_pipes c = Some (o, i)
           /\ fst (Switch2_BulkUSB_OpenWinUSB (Some cands) bulk) =
              (true, selected c o i bulk)
     end.
Proof.
  split; [reflexivity|].
  unfold Switch2_BulkUSB_OpenWinUSB.
  pose proof (enumerate_interfaces_selects cands 0 bulk) as H.
  destruct (enumerate_interfaces cands 0 bulk) as [[ok b] cs]. simpl in H.
  destruct (find usable cands) as [c|] eqn:F.
  - apply find_some in F. destruct F as [_ F]. unfold usable in F.
    destruct (picked_pipes c) as [[o i]|];
      [|rewrite andb_false_r in F; discriminate].
    exists o, i. split; [reflexivity|].
    injection H as -> ->. reflexivity.
  - injection H as -> ->. reflexivity.
Qed.

(** A pair of pipes that was picked: neither id is 0, and bit 7 tells the
    direction. *)
Lemma picked_pipes_directions (c : device_interface) (o i : Z) :
  picked_pipes c = Some (o, i) ->
  o <> 0 /\ i <> 0 /\ Z.land o 128 = 0 /\ Z.land i 128 <> 0.
Proof.
  unfold picked_pipes. destruct (pipes c) as [infos|]; [|discriminate].
  cbv zeta. unfold last_pipe.
  destruct (last_filter_In bulk_out_pipe PipeId (pipe_infos infos) 0)
    as [[_ Eo] | (xo & _ & Hxo & Eo)];
  destruct (last_filter_In bulk_in_pipe PipeId (pipe_infos infos) 0)
    as [[_ Ei] | (xi & _ & Hxi & Ei)];
    rewrite Eo, Ei; simpl; try discriminate;
    try (rewrite orb_true_r; discriminate).
  destruct (PipeId xo =? 0) eqn:Zo; [discriminate|].
  destruct (PipeId xi =? 0) eqn:Zi; [discriminate|].
  simpl. intros H. injection H as <- <-.
  apply Z.eqb_neq in Zo, Zi.
  unfold bulk_out_pipe in Hxo. unfold bulk_in_pipe in Hxi.
  apply andb_true_iff in Hxo, Hxi.
  destruct Hxo as [_ Hxo]. destruct Hxi as [_ Hxi].
  apply Z.eqb_eq in Hxo. apply negb_true_iff, Z.eqb_neq in Hxi. auto.
Qed.

(** X6.  After a successful native open the OUT pipe id is not 0 and has
    bit 7 clear, the IN pipe id is not 0 and has bit 7 set. *)
Theorem OpenWinUSB_pipe_directions (devinfo : option (list device_interface))
    (bulk : Switch2_BulkUSB) :
  let r := Switch2_BulkUSB_OpenWinUSB devinfo bulk in
  fst (fst r) = true ->
  winusb_out_pipe (snd (fst r)) <> 0
  /\ Z.land (winusb_out_pipe (snd (fst r))) 128 = 0
  /\ winusb_in_pipe (snd (fst r)) <> 0
  /\ Z.land (winusb_in_pipe (snd (fst r))) 128 <> 0.
Proof.
  cbv zeta. destruct devinfo as [cands|]; [|discriminate].
  unfold Switch2_BulkUSB_OpenWinUSB.
  pose proof (enumerate_interfaces_selects cands 0 bulk) as H.
  destruct (enumerate_interfaces cands 0 bulk) as [[ok b] cs]. simpl in H.
  destruct ok; simpl; [|discriminate]. intros _.
  destruct (find usable cands) as [c|]; [|discriminate].
  destruct (picked_pipes c) as [[o i]|] eqn:P; [|discriminate].
  injection H as ->. apply picked_pipes_directions in P. simpl. tauto.
Qed.

Lemma OpenWinUSB_pipe_directions_witness :
  winusb_out_pipe native_context <> 0
  /\ Z.land (winusb_out_pipe native_context) 128 = 0
  /\ winusb_in_pipe native_context <> 0
  /\ Z.land (winusb_in_pipe native_context) 128 <> 0.
Proof.
  apply (OpenWinUSB_pipe_directions (devinfo winusb_world) inert).
  reflexivity.
Defined.

Lemma destroys_app (l1 l2 : list call) :
  destroys (l1 ++ l2) = (destroys l1 + destroys l2)%nat.
Proof. unfold destroys. rewrite filter_app. apply length_app. Qed.

Lemma destroys_queries (wh : address) (ep n : nat) :
  destroys (map (WinUsb_QueryPipe wh) (List.seq ep n)) = 0%nat.
Proof.
  revert ep. induction n as [|n IH]; intros ep; [reflexivity|apply IH].
Qed.

(** The loop destroys the device information set itself only when it
    selects an interface, as its last call. *)
Lemma enumerate_interfaces_destroys :
  forall cands i bulk,
    let r := enumerate_interfaces cands i bulk in
    destroys (snd r) = (if fst (fst r) then 1 else 0)%nat
    /\ (fst (fst r) = true ->
        last (snd r) SetupDiGetClassDevsW = SetupDiDestroyDeviceInfoList).
Proof.
  induction cands as [|c cands IH]; intros i bulk; cbv zeta.
  - split; [reflexivity|discriminate].
  - specialize (IH (S i) bulk). cbv zeta in IH.
    simpl enumerate_interfaces.
    destruct (enumerate_interfaces cands (S i) bulk) as [[ok b] cs].
    simpl in IH. destruct IH as [IH1 IH2].
    assert (Hne : ok = true -> cs <> []).
    { intros -> ->. discriminate. }
    assert (Hnext : forall pre,
               destroys pre = 0%nat ->
               destroys (SetupDiEnumDeviceInterfaces i
                           :: SetupDiGetDeviceInterfaceDetailW i :: pre ++ cs)
               = (if ok then 1 else 0)%nat
               /\ (ok = true ->
                   last (SetupDiEnumDeviceInterfaces i
                           :: SetupDiGetDeviceInterfaceDetailW i :: pre ++ cs)
                     SetupDiGetClassDevsW = SetupDiDestroyDeviceInfoList)).
    { intros pre Hpre. split.
      - change (destroys (pre ++ cs) = (if ok then 1 else 0)%nat).
        rewrite destroys_app, Hpre. exact IH1.
      - intros Hok.
        change (last ([SetupDiEnumDeviceInterfaces i;
                       SetupDiGetDeviceInterfaceDetailW i] ++ pre ++ cs)
                  SetupDiGetClassDevsW = SetupDiDestroyDeviceInfoList).
        rewrite app_assoc, last_skip by auto. auto. }
    destruct (detail_allocated c); simpl; [|apply (Hnext []); reflexivity].
    destruct (detail_filled c); simpl; [|apply (Hnext [_]); reflexivity].
    destruct (negb (wcsstr (DevicePath c) "vid_057e")
              && negb (wcsstr (DevicePath c) "VID_057E")); simpl;
      [apply (Hnext [_]); reflexivity|].
    destruct (file c); simpl; try (apply (Hnext [_; _]); reflexivity);
      (destruct (session c) as [wh|]; simpl;
       [|apply (Hnext [_; _; _; _]); reflexivity];
       destruct (pipes c) as [infos|]; simpl;
       [|apply (Hnext [_; _; _; _; _; _]); reflexivity];
       rewrite query_pipes_spec;
       pose proof (destroys_queries wh 0 (List.length infos)) as Hq;
       set (qs := map (WinUsb_QueryPipe wh) (List.seq 0 (List.length infos)))
         in *;
       match goal with |- context [if ?c then _ else _] => destruct c end;
       cbn [fst snd];
       [apply (Hnext ([_; _; _; _] ++ qs ++ [_; _]));
        rewrite !destroys_app, Hq; reflexivity
       |split;
        [unfold destroys; simpl; rewrite filter_app, length_app;
         fold (destroys qs); rewrite Hq; reflexivity
        |intros _;
         match goal with
         | |- last (?a :: ?b :: ?c :: ?d :: ?e :: ?f :: qs ++ ?l) _ = _ =>
             change (last (([a; b; c; d; e; f] ++ qs) ++ l)
                       SetupDiGetClassDevsW = SetupDiDestroyDeviceInfoList)
         end;
         rewrite last_skip by discriminate; reflexivity]]).
Qed.


(** X7.  When the device information set was obtained it is destroyed
    exactly once, by the last call, whether an interface was selected or
    not; when it was not obtained no other call is made. *)
Theorem OpenWinUSB_destroys_info_list
    (devinfo : option (list device_interface)) (bulk : Switch2_BulkUSB) :
  let l := snd (Switch2_BulkUSB_OpenWinUSB devinfo bulk) in
  match devinfo with
  | None => l = [SetupDiGetClassDevsW]
  | Some _ =>
      destroys l = 1%nat
      /\ last l SetupDiGetClassDevsW = SetupDiDestroyDeviceInfoList
  end.
Proof.
  cbv zeta. destruct devinfo as [cands|]; [|reflexivity].
  unfold Switch2_BulkUSB_OpenWinUSB.
  pose proof (enumerate_interfaces_destroys cands 0 bulk) as H.
  cbv zeta in H.
  destruct (enumerate_interfaces cands 0 bulk) as [[ok b] cs]. simpl in H.
  destruct H as [H1 H2]. destruct ok; cbn [snd].
  - split; [exact H1|].
    change (last ([SetupDiGetClassDevsW] ++ cs) SetupDiGetClassDevsW
            = SetupDiDestroyDeviceInfoList).
    rewrite last_skip; [auto|]. intros ->. discriminate.
  - split.
    + change (destroys (cs ++ [SetupDiDestroyDeviceInfoList]) = 1%nat).
      rewrite destroys_app, H1. reflexivity.
    + change (last ([SetupDiGetClassDevsW] ++ cs
                    ++ [SetupDiDestroyDeviceInfoList]) SetupDiGetClassDevsW
              = SetupDiDestroyDeviceInfoList).
      rewrite app_assoc, last_skip by discriminate. reflexivity.
Qed.

Lemma In_queries (wh : address) (ep n : nat) (c : call) :
  In c (map (WinUsb_QueryPipe wh) (List.seq ep n)) ->
  exists k, c = WinUsb_QueryPipe wh k.
Proof.
  intros H. apply in_map_iff in H. destruct H as (k & <- & _). eauto.
Qed.

(** Every file the enumeration opens belongs to a listed interface whose
    path names the vendor. *)
Lemma enumerate_interfaces_files :
  forall cands i bulk j fh,
    In (CreateFileW j fh) (snd (enumerate_interfaces cands i bulk)) ->
    exists c,
      (i <= j)%nat /\ nth_error cands (j - i) = Some c
      /\ file c = fh /\ vendor_path (DevicePath c) = true
      /\ detail_allocated c = true /\ detail_filled c = true.
Proof.
  induction cands as [|c cands IH]; intros i bulk j fh.
  - simpl. intros [H | []]. discriminate.
  - specialize (IH (S i) bulk j fh). simpl enumerate_interfaces.
    destruct (enumerate_interfaces cands (S i) bulk) as [[ok b] cs].
    simpl in IH.
    assert (Hcs : In (CreateFileW j fh) cs ->
                  exists c0,
                    (i <= j)%nat /\ nth_error (c :: cands) (j - i) = Some c0
                    /\ file c0 = fh /\ vendor_path (DevicePath c0) = true
                    /\ detail_allocated c0 = true /\ detail_filled c0 = true).
    { intros H. destruct (IH H) as (c0 & Hle & Hn & Hrest).
      exists c0. split; [lia|]. split; [|exact Hrest].
      replace (j - i)%nat with (S (j - S i)) by lia. exact Hn. }
    unfold vendor_path in *.
    destruct (detail_allocated c) eqn:Ea; simpl;
      [|intros [H | [H | H]]; [discriminate|discriminate|auto]].
    destruct (detail_filled c) eqn:Ed; simpl;
      [|intros [H | [H | [H | H]]]; try discriminate; auto].
    destruct (wcsstr (DevicePath c) "vid_057e") eqn:E1,
             (wcsstr (DevicePath c) "VID_057E") eqn:E2; simpl;
      try (intros [H | [H | [H | H]]]; try discriminate; auto; fail).
    all: destruct (file c) eqn:Ef; simpl.
    all: try (destruct (session c) as [wh|]; simpl;
              [destruct (pipes c) as [infos|]; simpl;
               [rewrite query_pipes_spec;
                match goal with
                | |- context [if ?t then _ else _] => destruct t
                end; cbn [snd]|]|]).
    all: intros H; simpl in H; rewrite ?in_app_iff in H; simpl in H;
      repeat match goal with
             | H : _ \/ _ |- _ => destruct H as [H | H]
             | H : False |- _ => destruct H
             | H : In _ (map (WinUsb_QueryPipe _) _) |- _ =>
                 apply In_queries in H; destruct H as [? H]
             end;
      try discriminate; auto;
      try (injection H as <- <-; exists c; rewrite Nat.sub_diag; simpl;
           rewrite ?E1, ?E2, ?orb_true_r; repeat split; auto).
Qed.

(** X8.  Every [CreateFileW] of the enumeration is for a listed device
    interface whose path names the vendor id 057E (in either spelling), and
    the handle is the one the system returned for it. *)
Theorem OpenWinUSB_opens_vendor_paths (cands : list device_interface)
    (bulk : Switch2_BulkUSB) (j : nat) (fh : HANDLE) :
  In (CreateFileW j fh)
    (snd (Switch2_BulkUSB_OpenWinUSB (Some cands) bulk)) ->
  exists c,
    nth_error cands j = Some c /\ file c = fh
    /\ vendor_path (DevicePath c) = true.
Proof.
  unfold Switch2_BulkUSB_OpenWinUSB.
  pose proof (enumerate_interfaces_files cands 0 bulk j fh) as H.
  destruct (enumerate_interfaces cands 0 bulk) as [[ok b] cs]. simpl in H.
  intros Hin.
  assert (Hcs : In (CreateFileW j fh) cs).
  { destruct ok; simpl in Hin.
    - destruct Hin as [Hin | Hin]; [discriminate|exact Hin].
    - destruct Hin as [Hin | Hin]; [discriminate|].
      apply in_app_iff in Hin. destruct Hin as [Hin | [Hin | []]];
        [exact Hin|discriminate]. }
  destruct (H Hcs) as (c & _ & Hn & Hf & Hv & _).
  rewrite Nat.sub_0_r in Hn. eauto.
Qed.

Lemma OpenWinUSB_opens_vendor_paths_witness :
  exists c,
    nth_error [foreign_interface;
               controller_interface (Handle 5%nat) (Some 6%nat)] 1
    = Some c
    /\ file c = Handle 5%nat /\ vendor_path (DevicePath c) = true.
Proof.
  apply (OpenWinUSB_opens_vendor_paths _ inert).
  simpl. repeat first [left; reflexivity | right].
Defined.

(** ** The flush *)

(** The drain loop reads up to and including the first read that fails. *)
Lemma drain_until (stale : nat -> bool) (bulk : Switch2_BulkUSB) :
  forall n fuel k,
    stale (k + n)%nat = false ->
    (forall j, (j < n)%nat -> stale (k + j)%nat = true) ->
    (n <= fuel)%nat ->
    drain stale bulk fuel k =
    Some (repeat (WinUsb_ReadPipe (winusb_handle bulk) (winusb_in_pipe bulk)
                    0 64) (S n)).
Proof.
  induction n as [|n IH]; intros fuel k Hn Hlt Hfuel.
  - rewrite Nat.add_0_r in Hn. destruct fuel; simpl; rewrite Hn; reflexivity.
  - destruct fuel as [|fuel]; [lia|].
    simpl drain. rewrite <- (Nat.add_0_r k) at 1. rewrite (Hlt 0%nat) by lia.
    rewrite (IH fuel (S k)); [reflexivity| | |lia].
    + rewrite <- Hn. f_equal. lia.
    + intros j Hj. rewrite <- (Hlt (S j)) by lia. f_equal. lia.
Qed.

(** A drain loop that returns has met a failed read. *)
Lemma drain_returns (stale : nat -> bool) (bulk : Switch2_BulkUSB) :
  forall fuel k l,
    drain stale bulk fuel k = Some l ->
    exists n, (n <= fuel)%nat /\ stale (k + n)%nat = false.
Proof.
  induction fuel as [|fuel IH]; intros k l; simpl;
    destruct (stale k) eqn:E; try discriminate.
  - intros _. exists 0%nat. rewrite Nat.add_0_r. auto.
  - destruct (drain stale bulk fuel (S k)) as [l'|] eqn:D; [|discriminate].
    intros _. destruct (IH (S k) l' D) as (n & Hn & Hs).
    exists (S n). split; [lia|]. rewrite <- Hs. f_equal. lia.
  - intros _. exists 0%nat. rewrite Nat.add_0_r. split; [lia|exact E].
Qed.

(** A failed read within reach has a first one. *)
Lemma first_failed_read (stale : nat -> bool) :
  forall n, stale n = false ->
    exists k, (k <= n)%nat /\ stale k = false
              /\ forall j, (j < k)%nat -> stale j = true.
Proof.
  induction n as [n IH] using lt_wf_ind. intros Hn.
  destruct (forallb stale (List.seq 0 n)) eqn:F.
  - exists n. split; [lia|]. split; [exact Hn|]. intros j Hj.
    rewrite forallb_forall in F. apply F, in_seq. lia.
  - assert (exists j, (j < n)%nat /\ stale j = false) as (j & Hj & Hs).
    { clear -F. induction n as [|n IH]; [discriminate|].
      rewrite seq_S, forallb_app in F. simpl in F.
      destruct (forallb stale (List.seq 0 n)).
      - simpl in F. rewrite andb_true_r in F. exists n. split; [lia|exact F].
      - destruct IH as (j & Hj & Hs); [reflexivity|]. exists j. split; [lia|auto]. }
    destruct (IH j Hj Hs) as (k & Hk & Hsk & Hlt).
    exists k. split; [lia|auto].
Qed.

(** X9.  The flush resets both pipes, lowers the IN timeout to 50 ms, reads
    64 bytes at a time up to and including the first read that fails (one
    read more than there were stale packets) and restores the IN timeout of
    1000 ms. *)
Theorem FlushWinUSB_drains (stale : nat -> bool) (bulk : Switch2_BulkUSB)
    (n fuel : nat) :
  stale n = false ->
  (forall j, (j < n)%nat -> stale j = true) ->
  (n <= fuel)%nat ->
  Switch2_BulkUSB_FlushWinUSB stale fuel bulk =
  Some ([WinUsb_ResetPipe (winusb_handle bulk) (winusb_out_pipe bulk);
         WinUsb_ResetPipe (winusb_handle bulk) (winusb_in_pipe bulk);
         WinUsb_SetPipePolicy (winusb_handle bulk) (winusb_in_pipe bulk) 50]
        ++ repeat (WinUsb_ReadPipe (winusb_handle bulk) (winusb_in_pipe bulk)
                     0 64) (S n)
        ++ [WinUsb_SetPipePolicy (winusb_handle bulk) (winusb_in_pipe bulk)
              1000]).
Proof.
  intros Hn Hlt Hfuel. unfold Switch2_BulkUSB_FlushWinUSB.
  rewrite (drain_until stale bulk n fuel 0); auto.
Qed.

Lemma FlushWinUSB_drains_witness :
  Switch2_BulkUSB_FlushWinUSB (stale winusb_world) 2 native_context =
  Some [WinUsb_ResetPipe (Some 6%nat) 0x02; WinUsb_ResetPipe (Some 6%nat) 0x82;
        WinUsb_SetPipePolicy (Some 6%nat) 0x82 50;
        WinUsb_ReadPipe (Some 6%nat) 0x82 0 64;
        WinUsb_ReadPipe (Some 6%nat) 0x82 0 64;
        WinUsb_ReadPipe (Some 6%nat) 0x82 0 64;
        WinUsb_SetPipePolicy (Some 6%nat) 0x82 1000].
Proof.
  apply (FlushWinUSB_drains (stale winusb_world) native_context 2 2).
  - reflexivity.
  - intros [|[|j]] Hj; [reflexivity|reflexivity|lia].
  - lia.
Defined.

(** X10.  The flush returns exactly when some read fails: with a budget of
    [fuel] successful reads it returns iff one of the first [fuel + 1] reads
    fails.  No bound other than the device's silence ends the drain loop. *)
Theorem FlushWinUSB_returns_iff (stale : nat -> bool) (fuel : nat)
    (bulk : Switch2_BulkUSB) :
  (exists l, Switch2_BulkUSB_FlushWinUSB stale fuel bulk = Some l)
  <-> exists k, (k <= fuel)%nat /\ stale k = false.
Proof.
  unfold Switch2_BulkUSB_FlushWinUSB. split.
  - intros [l H].
    destruct (drain stale bulk fuel 0) as [reads|] eqn:D; [|discriminate].
    apply drain_returns in D. exact D.
  - intros (k & Hk & Hs).
    destruct (first_failed_read stale k Hs) as (n & Hn & Hsn & Hlt).
    rewrite (drain_until stale bulk n fuel 0); simpl; eauto. lia.
Qed.

(** ** The caller's buffer *)

(** [store] leaves the addresses outside the bytes copied alone. *)
Lemma store_outside (bytes : list Z) :
  forall m at_ a,
    a < at_ \/ at_ + Z.of_nat (List.length bytes) <= a ->
    store m at_ bytes a = m a.
Proof.
  induction bytes as [|x bytes IH]; intros m at_ a H; [reflexivity|].
  simpl store. rewrite IH.
  - destruct (a =? at_) eqn:E; [|reflexivity].
    apply Z.eqb_eq in E. simpl List.length in H. lia.
  - simpl List.length in H. lia.
Qed.

(** Byte [t] of a copy is found [t] places after its start. *)
Lemma store_inside (bytes : list Z) :
  forall m at_ (t : nat) x,
    nth_error bytes t = Some x ->
    store m at_ bytes (at_ + Z.of_nat t) = x.
Proof.
  induction bytes as [|y bytes IH]; intros m at_ t x H;
    [destruct t; discriminate|].
  simpl store. destruct t as [|t].
  - injection H as ->. rewrite store_outside by lia.
    rewrite Z.add_0_r, Z.eqb_refl. reflexivity.
  - simpl in H. replace (at_ + Z.of_nat (S t)) with (at_ + 1 + Z.of_nat t)
      by lia.
    apply IH. exact H.
Qed.

(** The bound on the packets, for the iterations after a full chunk. *)
Lemma fits_request_next (pkt : nat -> list Z) (k : nat) (size : Z) :
  0 < size ->
  (forall j : nat,
      64 * Z.of_nat j < size ->
      Z.of_nat (List.length (pkt (k + j)%nat))
      <= chunk_of (size - 64 * Z.of_nat j)) ->
  forall j : nat,
    64 * Z.of_nat j < size - chunk_of size ->
    Z.of_nat (List.length (pkt (S k + j)%nat))
    <= chunk_of (size - chunk_of size - 64 * Z.of_nat j).
Proof.
  intros Hpos H j Hj. unfold chunk_of at 1 in Hj.
  unfold chunk_of at 2. destruct (64 <? size) eqn:E.
  - replace (size - 64 - 64 * Z.of_nat j)
      with (size - 64 * Z.of_nat (S j)) by lia.
    replace (S k + j)%nat with (k + S j)%nat by lia. apply H. lia.
  - lia.
Qed.

Section ReadBuffer.
Context {hdr : Headers}.

(** What a run of the generic loop leaves in memory. *)
Lemma libusb_Read_loop_memory (dev : nat -> bulk_reply)
    (bulk : Switch2_BulkUSB) :
  forall fuel k size data total m v m' calls,
    0 <= size < 2 ^ 32 ->
    (forall (j : nat) t,
        64 * Z.of_nat j < size -> libusb_count (dev (k + j)%nat) = Some t ->
        0 <= t <= chunk_of (size - 64 * Z.of_nat j)) ->
    (forall j : nat,
        64 * Z.of_nat j < size ->
        Z.of_nat (List.length (payload (dev (k + j)%nat)))
        <= chunk_of (size - 64 * Z.of_nat j)) ->
    libusb_Read_loop dev bulk fuel k size data total m = Some (v, m', calls) ->
    (forall a, a < data \/ data + size <= a -> m' a = m a)
    /\ (forall (j t : nat) x,
          (j < List.length (requests calls))%nat ->
          nth_error (payload (dev (k + j)%nat)) t = Some x ->
          m' (data + 64 * Z.of_nat j + Z.of_nat t) = x).
Proof.
  induction fuel as [|fuel IH];
    intros k size data total m v m' calls Hsize Hdev Hfit;
    (destruct (0 <? size) eqn:Hs;
     [apply Z.ltb_lt in Hs
     |apply Z.ltb_ge in Hs; rewrite libusb_Read_loop_done by assumption;
      intros H; injection H as <- <- <-;
      split; [reflexivity|simpl; intros; lia]]).
  { simpl. replace (0 <? size) with true by (symmetry; apply Z.ltb_lt; lia).
    discriminate. }
  simpl libusb_Read_loop.
  replace (0 <? size) with true by (symmetry; apply Z.ltb_lt; assumption).
  fold (chunk_of size).
  assert (Hchunk : 1 <= chunk_of size <= 64 /\ chunk_of size <= size).
  { unfold chunk_of. destruct (64 <? size) eqn:E; [apply Z.ltb_lt in E|
      apply Z.ltb_ge in E]; lia. }
  pose proof (Hfit 0%nat) as Hfit0.
  rewrite Nat.add_0_r, Z.mul_0_r, Z.sub_0_r in Hfit0. specialize (Hfit0 Hs).
  assert (Hone : forall a,
             a < data \/ data + size <= a ->
             store m data (payload (dev k)) a = m a).
  { intros a Ha. apply store_outside. lia. }
  assert (Hfirst : forall (t : nat) x,
             nth_error (payload (dev k)) t = Some x ->
             store m data (payload (dev k)) (data + 64 * Z.of_nat 0
                                             + Z.of_nat t) = x).
  { intros t x Hx. rewrite Z.mul_0_r, Z.add_0_r.
    apply store_inside. exact Hx. }
  destruct (res (dev k) <? 0) eqn:Hres.
  { intros H. injection H as <- <- <-. split; [exact Hone|].
    simpl. intros [|j] t x Hj; [|lia]. rewrite Nat.add_0_r. apply Hfirst. }
  destruct (u32 (transferred (dev k)) <? chunk_of size) eqn:Hshort.
  { intros H. injection H as <- <- <-. split; [exact Hone|].
    simpl. intros [|j] t x Hj; [|lia]. rewrite Nat.add_0_r. apply Hfirst. }
  apply Z.ltb_ge in Hshort.
  assert (Ht : u32 (transferred (dev k)) = chunk_of size).
  { specialize (Hdev 0%nat (u32 (transferred (dev k)))).
    rewrite Nat.add_0_r, Z.mul_0_r, Z.sub_0_r in Hdev.
    unfold libusb_count in Hdev. rewrite Hres in Hdev.
    specialize (Hdev Hs eq_refl). lia. }
  rewrite <- (u32_sub_r size), Ht, u32_small by lia.
  intros H. apply prepend_Some in H. destruct H as (cs & Hrec & ->).
  pose proof Hrec as Hrec0.
  apply IH in Hrec;
    [|lia
     |exact (within_request_next (fun j => libusb_count (dev j)) k size Hs Hdev)
     |exact (fits_request_next (fun j => payload (dev j)) k size Hs Hfit)].
  destruct Hrec as [Hout Hin]. split.
  - intros a Ha. rewrite (Hout a); [apply Hone; exact Ha|].
    clear - Ha Hchunk. lia.
  - intros [|j] t x Hj Hx; rewrite requests_app, length_app in Hj;
      simpl in Hj.
    + rewrite Nat.add_0_r in Hx. rewrite Hout.
      * apply Hfirst. exact Hx.
      * apply nth_error_length in Hx. lia.
    + assert (Hmore : 64 < size).
      { destruct (Z_lt_le_dec 0 (size - chunk_of size)) as [Hp | Hp].
        - unfold chunk_of in Hp. destruct (64 <? size) eqn:E;
            [apply Z.ltb_lt in E; lia|lia].
        - rewrite libusb_Read_loop_done in Hrec0 by assumption.
          injection Hrec0 as _ _ <-. simpl in Hj. lia. }
      assert (Hc : chunk_of size = 64).
      { unfold chunk_of. replace (64 <? size) with true; [reflexivity|].
        symmetry. apply Z.ltb_lt. exact Hmore. }
      rewrite Nat.add_succ_r in Hx.
      replace (data + 64 * Z.of_nat (S j) + Z.of_nat t)
        with (data + chunk_of size + 64 * Z.of_nat j + Z.of_nat t) by lia.
      apply Hin; [lia|exact Hx].
Qed.

End ReadBuffer.

Section NativeRead.
Context {hdr : Headers}.

(** Closes the description of one iteration once its branch is known: the
    equation of the loop fixes the calls, the rest is read off them. *)
Ltac iteration_done :=
  eexists; refine (conj _ (conj _ (conj _ (conj _ _)))); cycle 4;
  [first [reflexivity | eexists; split; cycle 1; [reflexivity|auto]]
  |reflexivity
  |reflexivity
  |reflexivity
  |repeat first [apply Forall_nil | apply Forall_cons]; simpl; auto].

(** One iteration of the native loop, with its calls and its effect on the
    buffer. *)
Lemma WinUSB_Read_loop_iteration (dev : nat -> overlapped_reply)
    (bulk : Switch2_BulkUSB) (fuel k : nat) (size data total : Z)
    (m : memory) :
  (0 <? size) = true ->
  let chunk := if 64 <? size then 64 else size in
  match event (dev k) with
  | NULL_HANDLE =>
      winusb_count (dev k) = None
      /\ WinUSB_Read_loop dev bulk (S fuel) k size data total m =
         Some ((if 0 <? total then i32 total else -1), m, [CreateEventW])
  | ev =>
      let m1 := store m data (received (dev k)) in
      exists pre,
        requests pre = [chunk] /\ iterations pre = 1%nat
        /\ closed pre = [ev] /\ Forall (native_read_call bulk) pre
        /\ match winusb_count (dev k) with
           | Some t =>
               WinUSB_Read_loop dev bulk (S fuel) k size data total m =
               if t <? chunk then Some (i32 (u32 (total + t)), m1, pre)
               else prepend pre
                      (WinUSB_Read_loop dev bulk fuel (S k) (u32 (size - t))
                         (data + chunk) (u32 (total + t)) m1)
           | None =>
               exists code,
                 (code = -1 \/ code = -7)
                 /\ WinUSB_Read_loop dev bulk (S fuel) k size data total m =
                    Some ((if 0 <? total then i32 total else code), m1, pre)
           end
  end.
Proof.
  intros Hs chunk. unfold winusb_count. simpl WinUSB_Read_loop. rewrite Hs.
  fold chunk.
  destruct (event (dev k)) eqn:Hev; [split; reflexivity| |];
    (destruct (pipe_ok (dev k)); [iteration_done|];
     destruct (last_error (dev k) =? ERROR_IO_PENDING); simpl;
     [destruct (wait (dev k) =? WAIT_OBJECT_0)|]; iteration_done).
Qed.

End NativeRead.

Section NativeBuffer.
Context {hdr : Headers}.

(** What a run of the native loop leaves in memory. *)
Lemma WinUSB_Read_loop_memory (dev : nat -> overlapped_reply)
    (bulk : Switch2_BulkUSB) :
  forall fuel k size data total m v m' calls,
    0 <= size < 2 ^ 32 ->
    (forall (j : nat) t,
        64 * Z.of_nat j < size -> winusb_count (dev (k + j)%nat) = Some t ->
        0 <= t <= chunk_of (size - 64 * Z.of_nat j)) ->
    (forall j : nat,
        64 * Z.of_nat j < size ->
        Z.of_nat (List.length (received (dev (k + j)%nat)))
        <= chunk_of (size - 64 * Z.of_nat j)) ->
    WinUSB_Read_loop dev bulk fuel k size data total m = Some (v, m', calls) ->
    (forall a, a < data \/ data + size <= a -> m' a = m a)
    /\ (forall (j t : nat) x,
          (j < List.length (requests calls))%nat ->
          nth_error (received (dev (k + j)%nat)) t = Some x ->
          m' (data + 64 * Z.of_nat j + Z.of_nat t) = x).
Proof.
  induction fuel as [|fuel IH];
    intros k size data total m v m' calls Hsize Hdev Hfit;
    (destruct (0 <? size) eqn:Hs;
     [|apply Z.ltb_ge in Hs; rewrite WinUSB_Read_loop_done by assumption;
      intros H; injection H as <- <- <-;
      split; [reflexivity|simpl; intros; lia]]).
  { simpl. rewrite Hs. discriminate. }
  pose proof (WinUSB_Read_loop_iteration dev bulk fuel k size data total m Hs)
    as Hstep. cbv zeta in Hstep. fold (chunk_of size) in Hstep.
  apply Z.ltb_lt in Hs.
  assert (Hchunk : 1 <= chunk_of size <= 64 /\ chunk_of size <= size).
  { unfold chunk_of. destruct (64 <? size) eqn:E; [apply Z.ltb_lt in E|
      apply Z.ltb_ge in E]; lia. }
  pose proof (Hfit 0%nat) as Hfit0.
  rewrite Nat.add_0_r, Z.mul_0_r, Z.sub_0_r in Hfit0. specialize (Hfit0 Hs).
  assert (Hone : forall a,
             a < data \/ data + size <= a ->
             store m data (received (dev k)) a = m a).
  { intros a Ha. apply store_outside. lia. }
  assert (Hfirst : forall (t : nat) x,
             nth_error (received (dev k)) t = Some x ->
             store m data (received (dev k)) (data + 64 * Z.of_nat 0
                                              + Z.of_nat t) = x).
  { intros t x Hx. rewrite Z.mul_0_r, Z.add_0_r.
    apply store_inside. exact Hx. }
  assert (Hlast : forall pre,
             requests pre = [chunk_of size] ->
             (forall a, a < data \/ data + size <= a ->
                        store m data (received (dev k)) a = m a)
             /\ (forall (j t : nat) x,
                   (j < List.length (requests pre))%nat ->
                   nth_error (received (dev (k + j)%nat)) t = Some x ->
                   store m data (received (dev k))
                     (data + 64 * Z.of_nat j + Z.of_nat t) = x)).
  { intros pre Hpre. split; [exact Hone|]. rewrite Hpre.
    intros [|j] t x Hj; [|simpl in Hj; lia].
    rewrite Nat.add_0_r. apply Hfirst. }
  destruct (event (dev k)) eqn:Hev.
  { destruct Hstep as [_ ->]. intros H. injection H as <- <- <-.
    split; [reflexivity|simpl; intros; lia]. }
  all: destruct Hstep as (pre & Hpre & _ & _ & _ & Hstep);
    (destruct (winusb_count (dev k)) as [t|] eqn:Hcount;
     [|destruct Hstep as (code & _ & ->); intros H; injection H as <- <- <-;
       apply Hlast; exact Hpre]);
    rewrite Hstep; clear Hstep;
    (destruct (t <? chunk_of size) eqn:Hshort;
     [intros H; injection H as <- <- <-; apply Hlast; exact Hpre|]);
    apply Z.ltb_ge in Hshort;
    assert (Ht : t = chunk_of size)
      by (specialize (Hdev 0%nat t);
          rewrite Nat.add_0_r, Z.mul_0_r, Z.sub_0_r in Hdev;
          specialize (Hdev Hs Hcount); lia);
    subst t; rewrite (u32_small (size - chunk_of size)) by lia;
    intros H; apply prepend_Some in H; destruct H as (cs & Hrec & ->);
    pose proof Hrec as Hrec0;
    (apply IH in Hrec;
     [|lia
      |exact (within_request_next (fun j => winusb_count (dev j)) k size Hs
                Hdev)
      |exact (fits_request_next (fun j => received (dev j)) k size Hs Hfit)]);
    destruct Hrec as [Hout Hin]; (split;
    [intros z Hz; rewrite (Hout z); [apply Hone; exact Hz|lia]
    |intros [|j] t x Hj Hx; rewrite requests_app, length_app, Hpre in Hj;
     simpl in Hj;
     [rewrite Nat.add_0_r in Hx; rewrite Hout;
      [apply Hfirst; exact Hx|apply nth_error_length in Hx; lia]
     |assert (Hmore : 64 < size)
        by (destruct (Z_lt_le_dec 0 (size - chunk_of size)) as [Hp | Hp];
            [unfold chunk_of in Hp; destruct (64 <? size) eqn:E;
             [apply Z.ltb_lt in E; lia|lia]
            |rewrite WinUSB_Read_loop_done in Hrec0 by assumption;
             injection Hrec0 as _ _ <-; simpl in Hj; lia]);
      assert (Hc : chunk_of size = 64)
        by (unfold chunk_of;
            replace (64 <? size) with true; [reflexivity|];
            symmetry; apply Z.ltb_lt; exact Hmore);
      rewrite Nat.add_succ_r in Hx;
      replace (data + 64 * Z.of_nat (S j) + Z.of_nat t)
        with (data + chunk_of size + 64 * Z.of_nat j + Z.of_nat t) by lia;
      apply Hin; [lia|exact Hx]]]).
Qed.

End NativeBuffer.

(** The packets of the four-packet device fit their requests. *)
Lemma four_packets_fit :
  fits_request (@packet posix usb_four_packets win_four_packets
                  generic_context) 256.
Proof.
  intros [|[|[|[|j]]]] Hj; [vm_compute; discriminate..|exfalso; lia].
Qed.

(** ** The requests are cut to what remains *)

Lemma chunk_of_bounds (size : Z) :
  0 < size -> 1 <= chunk_of size <= 64 /\ chunk_of size <= size.
Proof.
  intros Hs. unfold chunk_of.
  destruct (64 <? size) eqn:E; [apply Z.ltb_lt in E|apply Z.ltb_ge in E]; lia.
Qed.

Lemma INT_MAX_u32 (x : Z) : 0 <= x <= INT_MAX -> 0 <= x < 2 ^ 32.
Proof. unfold INT_MAX. lia. Qed.

Lemma stored_range (w : option Z) (old : Z) :
  0 <= old < 2 ^ 32 -> 0 <= stored w old < 2 ^ 32.
Proof. intros H. destruct w; simpl; [apply u32_range|exact H]. Qed.

Section Counts.
Context {hdr : Headers}.

(** A count is the value of an [unsigned]. *)
Lemma libusb_count_range (r : bulk_reply) (t : Z) :
  libusb_count r = Some t -> 0 <= t < 2 ^ 32.
Proof.
  unfold libusb_count. destruct (res r <? 0); [discriminate|].
  intros H. injection H as <-. apply u32_range.
Qed.

Lemma winusb_count_range (io : overlapped_reply) (t : Z) :
  winusb_count io = Some t -> 0 <= t < 2 ^ 32.
Proof.
  unfold winusb_count.
  destruct (event io); [discriminate| |];
    (destruct (pipe_ok io);
     [|destruct ((last_error io =? ERROR_IO_PENDING)
                 && (wait io =? WAIT_OBJECT_0)); [|discriminate]];
     intros H; injection H as <-; repeat apply stored_range; lia).
Qed.

End Counts.

Section ReadWithin.
Context {hdr : Headers}.

(** The generic loop stays inside [size] bytes from [data] on, and returns
    no more than it was asked for: its requests are cut to what remains,
    so that a transport which answers each request with no more than that
    request asked for cannot make it write past the end. *)
Lemma libusb_Read_loop_within (dev : nat -> bulk_reply)
    (bulk : Switch2_BulkUSB) :
  forall fuel k size data total m v m' calls,
    0 <= size < 2 ^ 32 ->
    libusb_Read_loop dev bulk fuel k size data total m = Some (v, m', calls) ->
    (forall (j : nat) len t,
        nth_error (requests calls) j = Some len ->
        libusb_count (dev (k + j)%nat) = Some t -> t <= len) ->
    ((forall j : nat, forall len,
         nth_error (requests calls) j = Some len ->
         Z.of_nat (List.length (payload (dev (k + j)%nat))) <= len) ->
     forall a, a < data \/ data + size <= a -> m' a = m a)
    /\ (0 <= total -> total + size <= INT_MAX ->
        v <= total + size
        /\ (v < total ->
            exists j, (j < iterations calls)%nat /\ res (dev (k + j)%nat) = v
                      /\ v < 0)).
Proof.
  induction fuel as [|fuel IH];
    intros k size data total m v m' calls Hsize;
    (destruct (0 <? size) eqn:Hs;
     [apply Z.ltb_lt in Hs
     |apply Z.ltb_ge in Hs; rewrite libusb_Read_loop_done by assumption;
      intros H; injection H as <- <- <-; intros _;
      split; [reflexivity|lia]]).
  { simpl. replace (0 <? size) with true by (symmetry; apply Z.ltb_lt; lia).
    discriminate. }
  simpl libusb_Read_loop.
  replace (0 <? size) with true by (symmetry; apply Z.ltb_lt; assumption).
  fold (chunk_of size).
  pose proof (chunk_of_bounds size Hs) as Hchunk.
  assert (Hone : (forall j : nat, forall len,
                     nth_error [chunk_of size] j = Some len ->
                     Z.of_nat (List.length (payload (dev (k + j)%nat)))
                     <= len) ->
                 forall a, a < data \/ data + size <= a ->
                           store m data (payload (dev k)) a = m a).
  { intros Hfit a Ha. apply store_outside.
    specialize (Hfit 0%nat _ eq_refl). rewrite Nat.add_0_r in Hfit. lia. }
  destruct (res (dev k) <? 0) eqn:Hres.
  { apply Z.ltb_lt in Hres. intros H. injection H as <- <- <-. intros _.
    split; [exact Hone|]. intros Htot Hmax.
    split; [lia|]. intros _. exists 0%nat. rewrite Nat.add_0_r.
    unfold iterations. simpl. split; [lia|]. split; [reflexivity|lia]. }
  assert (Hcount : libusb_count (dev k) = Some (u32 (transferred (dev k))))
    by (unfold libusb_count; rewrite Hres; reflexivity).
  pose proof (libusb_count_range _ _ Hcount) as Hpos.
  assert (Hsum : 0 <= total ->
                 total + u32 (transferred (dev k)) <= INT_MAX ->
                 i32 (total + transferred (dev k))
                 = total + u32 (transferred (dev k))).
  { intros Htot Hmax. rewrite <- i32_add_r. apply i32_small. lia. }
  destruct (u32 (transferred (dev k)) <? chunk_of size) eqn:Hshort.
  { apply Z.ltb_lt in Hshort. intros H. injection H as <- <- <-. intros _.
    split; [exact Hone|]. intros Htot Hmax. rewrite Hsum by lia.
    split; lia. }
  apply Z.ltb_ge in Hshort.
  intros H. apply prepend_Some in H. destruct H as (cs & Hrec & ->).
  change (requests ([_] ++ cs)) with (chunk_of size :: requests cs).
  intros Hdev.
  assert (Hfull : u32 (transferred (dev k)) = chunk_of size).
  { pose proof (Hdev 0%nat (chunk_of size) (u32 (transferred (dev k)))
                  eq_refl) as H0.
    rewrite Nat.add_0_r in H0. specialize (H0 Hcount). lia. }
  rewrite <- (u32_sub_r size), Hfull, u32_small in Hrec by lia.
  apply IH in Hrec; [|lia|].
  2: { intros j len t E Hc. apply (Hdev (S j) len t); [exact E|].
       rewrite Nat.add_succ_r. exact Hc. }
  destruct Hrec as [Hout Hres']. split.
  - intros Hfit a Ha. rewrite Hout.
    + apply Hone; [|exact Ha]. intros [|[|j]] len E; try discriminate.
      apply (Hfit 0%nat). exact E.
    + intros j len E. specialize (Hfit (S j) len E).
      rewrite Nat.add_succ_r in Hfit. exact Hfit.
    + lia.
  - intros Htot Hmax. rewrite Hsum in Hres' by lia.
    destruct Hres' as [Hle Hneg]; [lia|lia|]. split; [lia|].
    intros Hv. destruct Hneg as (j & Hj & Hr & Hn); [lia|].
    exists (S j). rewrite iterations_app, Nat.add_succ_r.
    change (iterations [_]) with 1%nat. split; [lia|]. split; assumption.
Qed.

(** So does the native loop; it returns a negative value only out of a
    first iteration that received nothing. *)
Lemma WinUSB_Read_loop_within (dev : nat -> overlapped_reply)
    (bulk : Switch2_BulkUSB) :
  forall fuel k size data total m v m' calls,
    0 <= size < 2 ^ 32 ->
    WinUSB_Read_loop dev bulk fuel k size data total m = Some (v, m', calls) ->
    (forall (j : nat) len t,
        nth_error (requests calls) j = Some len ->
        winusb_count (dev (k + j)%nat) = Some t -> t <= len) ->
    ((forall j : nat, forall len,
         nth_error (requests calls) j = Some len ->
         Z.of_nat (List.length (received (dev (k + j)%nat))) <= len) ->
     forall a, a < data \/ data + size <= a -> m' a = m a)
    /\ (0 <= total -> total + size <= INT_MAX ->
        v <= total + size
        /\ (v < total ->
            (v = -1 \/ v = -7) /\ total = 0 /\ iterations calls = 1%nat
            /\ winusb_count (dev k) = None)).
Proof.
  induction fuel as [|fuel IH];
    intros k size data total m v m' calls Hsize;
    (destruct (0 <? size) eqn:Hs;
     [|apply Z.ltb_ge in Hs; rewrite WinUSB_Read_loop_done by assumption;
      intros H; injection H as <- <- <-; intros _;
      split; [reflexivity|intros; rewrite i32_small by lia; lia]]).
  { simpl. rewrite Hs. discriminate. }
  pose proof (WinUSB_Read_loop_iteration dev bulk fuel k size data total m Hs)
    as Hstep. cbv zeta in Hstep. fold (chunk_of size) in Hstep.
  apply Z.ltb_lt in Hs.
  pose proof (chunk_of_bounds size Hs) as Hchunk.
  assert (Hone : forall pre,
             requests pre = [chunk_of size] ->
             (forall j : nat, forall len,
                 nth_error (requests pre) j = Some len ->
                 Z.of_nat (List.length (received (dev (k + j)%nat))) <= len) ->
             forall a, a < data \/ data + size <= a ->
                       store m data (received (dev k)) a = m a).
  { intros pre Hpre Hfit a Ha. apply store_outside. rewrite Hpre in Hfit.
    specialize (Hfit 0%nat _ eq_refl). rewrite Nat.add_0_r in Hfit. lia. }
  assert (Hfail : forall code,
             code = -1 \/ code = -7 ->
             winusb_count (dev k) = None ->
             forall cs, iterations cs = 1%nat ->
             0 <= total -> total + size <= INT_MAX ->
             (if 0 <? total then i32 total else code) <= total + size
             /\ ((if 0 <? total then i32 total else code) < total ->
                 ((if 0 <? total then i32 total else code) = -1
                  \/ (if 0 <? total then i32 total else code) = -7)
                 /\ total = 0 /\ iterations cs = 1%nat
                 /\ winusb_count (dev k) = None)).
  { intros code Hcode Hnone cs Hit Htot Hmax.
    destruct (0 <? total) eqn:Hp.
    - rewrite i32_small by lia. split; lia.
    - apply Z.ltb_ge in Hp. split; [lia|]. intros _.
      repeat split; auto. lia. }
  destruct (event (dev k)) eqn:Hev.
  { destruct Hstep as [Hnone ->]. intros H. injection H as <- <- <-.
    intros _. split; [reflexivity|].
    apply (Hfail (-1)); auto. }
  all: destruct Hstep as (pre & Hpre & Hit & _ & _ & Hstep);
    (destruct (winusb_count (dev k)) as [t|] eqn:Hcount;
     [|destruct Hstep as (code & Hcode & ->); intros H;
       injection H as <- <- <-; intros _;
       split; [apply Hone; exact Hpre|apply Hfail; auto]]);
    pose proof (winusb_count_range _ _ Hcount) as Hpos;
    rewrite Hstep; clear Hstep;
    (destruct (t <? chunk_of size) eqn:Hshort;
     [apply Z.ltb_lt in Hshort; intros H; injection H as <- <- <-; intros _;
      split; [apply Hone; exact Hpre|];
      intros Htot Hmax; rewrite (u32_small (total + t)), i32_small
        by (try apply INT_MAX_u32; lia); lia|]);
    apply Z.ltb_ge in Hshort;
    intros H; apply prepend_Some in H; destruct H as (cs & Hrec & ->);
    rewrite requests_app, Hpre;
    change ([chunk_of size] ++ requests cs)
      with (chunk_of size :: requests cs);
    intros Hdev;
    assert (Hfull : t = chunk_of size)
      by (pose proof (Hdev 0%nat (chunk_of size) t eq_refl) as H0;
          rewrite Nat.add_0_r in H0; specialize (H0 Hcount); lia);
    subst t; rewrite (u32_small (size - chunk_of size)) in Hrec by lia;
    (apply IH in Hrec;
     [|lia
      |intros j len t E Hc; apply (Hdev (S j) len t); [exact E|];
       rewrite Nat.add_succ_r; exact Hc]);
    destruct Hrec as [Hout Hres'];
    (split;
     [intros Hfit z Hz; rewrite Hout;
      [apply (Hone pre Hpre); [|exact Hz]; rewrite Hpre;
       intros [|[|j]] len E; try discriminate; apply (Hfit 0%nat); exact E
      |intros j len E; specialize (Hfit (S j) len E);
       rewrite Nat.add_succ_r in Hfit; exact Hfit
      |lia]
     |intros Htot Hmax;
      rewrite (u32_small (total + chunk_of size)) in Hres'
        by (apply INT_MAX_u32; lia);
      destruct Hres' as [Hle Hneg]; [lia|lia|]; split; [lia|];
      intros Hv; destruct Hneg as (_ & Hz & _); lia]).
Qed.

End ReadWithin.

(** The four-packet device answers each of its four requests within what
    the request asked for. *)
Lemma four_packets_answer (calls : list call) :
  requests calls = [64; 64; 64; 64] ->
  counts_within (fun j => libusb_count (usb_four_packets j)) calls
  /\ packets_within (@packet posix usb_four_packets win_four_packets
                       generic_context) calls.
Proof.
  intros Hr. unfold counts_within, packets_within. rewrite Hr.
  split.
  - intros [|[|[|[|[|j]]]]] len t E Hc; try discriminate;
      injection E as <-; vm_compute in Hc; injection Hc as <-; lia.
  - intros [|[|[|[|[|j]]]]] len E; try discriminate;
      injection E as <-; vm_compute; discriminate.
Qed.

(** X11.  A read stays inside the caller's buffer.  When the transport
    answers no request the read made with more bytes than that request
    asked for, the bytes before offset 0 and from offset [size] on are what
    they were before the read: no request asks for more than remains. *)
Theorem Read_stays_in_buffer {hdr : Headers} (usb : nat -> bulk_reply)
    (win : nat -> overlapped_reply) (fuel : nat) (bulk : Switch2_BulkUSB)
    (size : Z) (m : memory) (v : Z) (m' : memory) (calls : list call) :
  0 <= size < 2 ^ 32 ->
  Switch2_BulkUSB_Read usb win fuel bulk size m = Some (v, m', calls) ->
  counts_within
    (fun j => if SDL_PLATFORM_WIN32 && use_winusb bulk
              then winusb_count (win j) else libusb_count (usb j)) calls ->
  packets_within (packet usb win bulk) calls ->
  forall a, a < 0 \/ size <= a -> m' a = m a.
Proof.
  unfold Switch2_BulkUSB_Read, Switch2_BulkUSB_WinUSB_Read, packet,
    counts_within, packets_within.
  intros Hsize H Hdev Hfit a Ha.
  destruct (SDL_PLATFORM_WIN32 && use_winusb bulk).
  - apply WinUSB_Read_loop_within in H; auto.
    apply (proj1 H); [exact Hfit|lia].
  - apply libusb_Read_loop_within in H; auto.
    apply (proj1 H); [exact Hfit|lia].
Qed.

Lemma Read_stays_in_buffer_witness :
  exists v m' calls,
    @Switch2_BulkUSB_Read posix usb_four_packets win_four_packets 4
      generic_context 256 zeroed = Some (v, m', calls)
    /\ m' 256 = 0 /\ m' (-1) = 0.
Proof.
  do 3 eexists. split; [reflexivity|].
  split.
  - refine (@Read_stays_in_buffer posix usb_four_packets win_four_packets 4
              generic_context 256 zeroed _ _ _ _ _ _ _ 256 _);
      [lia|reflexivity|apply four_packets_answer; reflexivity
      |apply four_packets_answer; reflexivity|lia].
  - refine (@Read_stays_in_buffer posix usb_four_packets win_four_packets 4
              generic_context 256 zeroed _ _ _ _ _ _ _ (-1) _);
      [lia|reflexivity|apply four_packets_answer; reflexivity
      |apply four_packets_answer; reflexivity|lia].
Defined.

(** X12.  The bytes received for request [j] of a read are found from offset
    [64 * j] of the buffer on, in the order received, when the read
    returns. *)
Theorem Read_buffer_layout {hdr : Headers} (usb : nat -> bulk_reply)
    (win : nat -> overlapped_reply) (fuel : nat) (bulk : Switch2_BulkUSB)
    (size : Z) (m : memory) (v : Z) (m' : memory) (calls : list call) :
  0 <= size < 2 ^ 32 ->
  within_request
    (fun j => if SDL_PLATFORM_WIN32 && use_winusb bulk
              then winusb_count (win j) else libusb_count (usb j)) size ->
  fits_request (packet usb win bulk) size ->
  Switch2_BulkUSB_Read usb win fuel bulk size m = Some (v, m', calls) ->
  forall (j t : nat) x,
    (j < List.length (requests calls))%nat ->
    nth_error (packet usb win bulk j) t = Some x ->
    m' (64 * Z.of_nat j + Z.of_nat t) = x.
Proof.
  unfold Switch2_BulkUSB_Read, Switch2_BulkUSB_WinUSB_Read, packet,
    within_request, fits_request.
  intros Hsize Hdev Hfit H j t x Hj Hx.
  destruct (SDL_PLATFORM_WIN32 && use_winusb bulk).
  - apply WinUSB_Read_loop_memory in H; auto.
    apply (proj2 H j t x Hj Hx).
  - apply libusb_Read_loop_memory in H; auto.
    apply (proj2 H j t x Hj Hx).
Qed.

Lemma Read_buffer_layout_witness :
  exists v m' calls,
    @Switch2_BulkUSB_Read posix usb_four_packets win_four_packets 4
      generic_context 256 zeroed = Some (v, m', calls)
    /\ m' (64 * 3 + 29) = 0xAB.
Proof.
  do 3 eexists. split; [reflexivity|].
  apply (@Read_buffer_layout posix usb_four_packets win_four_packets 4
           generic_context 256 zeroed _ _ _ ltac:(lia)
           (proj1 four_packets_within_request) four_packets_fit eq_refl
           3%nat 29%nat);
    [simpl; lia|reflexivity].
Defined.

(** ** The calls of a read *)

Lemma closed_app (l1 l2 : list call) : closed (l1 ++ l2) = closed l1 ++ closed l2.
Proof. apply flat_map_app. Qed.

Section NativeCalls.
Context {hdr : Headers}.

(** The calls of the native loop: events closed, pipes and waits named. *)
Lemma WinUSB_Read_loop_calls (dev : nat -> overlapped_reply)
    (bulk : Switch2_BulkUSB) :
  forall fuel k size data total m v m' calls,
    WinUSB_Read_loop dev bulk fuel k size data total m = Some (v, m', calls) ->
    closed calls =
      flat_map (fun j => created (event (dev j)))
        (List.seq k (iterations calls))
    /\ Forall (native_read_call bulk) calls.
Proof.
  induction fuel as [|fuel IH]; intros k size data total m v m' calls;
    (destruct (0 <? size) eqn:Hs;
     [|apply Z.ltb_ge in Hs; rewrite WinUSB_Read_loop_done by assumption;
       intros H; injection H as <- <- <-; split; [reflexivity|constructor]]).
  { simpl. rewrite Hs. discriminate. }
  pose proof (WinUSB_Read_loop_iteration dev bulk fuel k size data total m Hs)
    as Hstep. cbv zeta in Hstep.
  destruct (event (dev k)) eqn:Hev.
  { destruct Hstep as [_ ->]. intros H. injection H as <- <- <-.
    change (iterations [CreateEventW]) with 1%nat. simpl. rewrite Hev.
    split; [reflexivity|repeat constructor]. }
  all: destruct Hstep as (pre & _ & Hit & Hcl & Hpre & Hstep);
    assert (Hlast :
              closed pre =
                flat_map (fun j => created (event (dev j)))
                  (List.seq k (iterations pre))
              /\ Forall (native_read_call bulk) pre)
      by (rewrite Hit, Hcl; simpl; rewrite Hev; split; [reflexivity|exact Hpre]);
    (destruct (winusb_count (dev k)) as [t|];
     [|destruct Hstep as (code & _ & ->); intros H; injection H as <- <- <-;
       exact Hlast]);
    rewrite Hstep; clear Hstep;
    match goal with |- context [if ?c then _ else _] => destruct c end;
    [intros H; injection H as <- <- <-; exact Hlast|];
    intros H; apply prepend_Some in H; destruct H as (cs & Hrec & ->);
    apply IH in Hrec; destruct Hrec as [Hc Hf];
    rewrite closed_app, iterations_app, Hit, Hcl, Hc; simpl; rewrite Hev;
    (split; [reflexivity|apply Forall_app; split; assumption]).
Qed.

(** The calls of the generic loop. *)
Lemma libusb_Read_loop_calls (dev : nat -> bulk_reply)
    (bulk : Switch2_BulkUSB) :
  forall fuel k size data total m v m' calls,
    libusb_Read_loop dev bulk fuel k size data total m = Some (v, m', calls) ->
    Forall (generic_read_call bulk) calls.
Proof.
  induction fuel as [|fuel IH]; intros k size data total m v m' calls;
    simpl; (destruct (0 <? size);
            [|intros H; injection H as <- <- <-; constructor]);
    [discriminate|].
  destruct (res (dev k) <? 0);
    [intros H; injection H as <- <- <-; repeat constructor|].
  destruct (u32 (transferred (dev k)) <? _);
    [intros H; injection H as <- <- <-; repeat constructor|].
  intros H. apply prepend_Some in H. destruct H as (cs & Hrec & ->).
  apply IH in Hrec. constructor; [repeat split|exact Hrec].
Qed.

End NativeCalls.

(** X13.  The native transfers close every event they create.  A write
    closes the event it obtained, once, and closes nothing when it obtained
    none; a read closes, in order, the event of each iteration that obtained
    one. *)
Theorem WinUSB_events_closed {hdr : Headers} (bulk : Switch2_BulkUSB) :
  (forall io size timeout_ms,
      closed (snd (Switch2_BulkUSB_WinUSB_Write io bulk size timeout_ms)) =
      created (event io))
  /\ (forall win fuel size m v m' calls,
        Switch2_BulkUSB_WinUSB_Read win fuel bulk size m = Some (v, m', calls) ->
        closed calls =
        flat_map (fun j => created (event (win j)))
          (List.seq 0 (iterations calls))).
Proof.
  split.
  - intros io size timeout_ms. unfold Switch2_BulkUSB_WinUSB_Write.
    destruct (event io); [reflexivity| |];
      (destruct (pipe_ok io); [reflexivity|];
       destruct (last_error io =? ERROR_IO_PENDING); [|reflexivity];
       destruct (wait io =? WAIT_OBJECT_0); reflexivity).
  - intros win fuel size m v m' calls H.
    apply WinUSB_Read_loop_calls in H. apply H.
Qed.

Lemma WinUSB_events_closed_witness :
  exists v m' calls,
    @Switch2_BulkUSB_WinUSB_Read win32 win_four_packets 4 native_context 256
      zeroed = Some (v, m', calls)
    /\ closed calls =
       [Handle 7%nat; Handle 7%nat; Handle 7%nat; Handle 7%nat].
Proof.
  do 3 eexists. split; [reflexivity|].
  apply (proj2 (@WinUSB_events_closed win32 native_context)
           win_four_packets 4%nat 256 zeroed _ _ _ eq_refl).
Defined.

(** X14.  A read addresses the IN side only.  On the generic path every call
    is a [bulk_transfer] on [device_handle] and [in_endpoint] with a timeout
    of 500 ms.  On the native path every pipe call names [winusb_handle] and
    [winusb_in_pipe], every wait lasts 1000 ms or 100 ms, and nothing is
    written. *)
Theorem Read_calls {hdr : Headers} (usb : nat -> bulk_reply)
    (win : nat -> overlapped_reply) (fuel : nat) (bulk : Switch2_BulkUSB)
    (size : Z) (m : memory) (v : Z) (m' : memory) (calls : list call) :
  Switch2_BulkUSB_Read usb win fuel bulk size m = Some (v, m', calls) ->
  Forall (if SDL_PLATFORM_WIN32 && use_winusb bulk
          then native_read_call bulk else generic_read_call bulk) calls.
Proof.
  unfold Switch2_BulkUSB_Read, Switch2_BulkUSB_WinUSB_Read. intros H.
  destruct (SDL_PLATFORM_WIN32 && use_winusb bulk).
  - apply WinUSB_Read_loop_calls in H. apply H.
  - apply libusb_Read_loop_calls in H. exact H.
Qed.

Lemma Read_calls_witness :
  exists v m' calls,
    @Switch2_BulkUSB_Read posix usb_four_packets win_four_packets 4
      generic_context 256 zeroed = Some (v, m', calls)
    /\ Forall (generic_read_call generic_context) calls.
Proof.
  do 3 eexists. split; [reflexivity|].
  apply (@Read_calls posix usb_four_packets win_four_packets 4
           generic_context 256 zeroed _ _ _ eq_refl).
Defined.

(** ** The value a read returns *)

(** X15.  For a size of at most INT_MAX and a transport that answers no
    request the read made with more bytes than that request asked for, a
    read returns at most [size].  A negative value is, on the generic path,
    the return value of one of the transfers and, on the native path, -1 or
    -7 out of the first iteration: nothing had been received. *)
Theorem Read_result_bounded {hdr : Headers} (usb : nat -> bulk_reply)
    (win : nat -> overlapped_reply) (fuel : nat) (bulk : Switch2_BulkUSB)
    (size : Z) (m : memory) (v : Z) (m' : memory) (calls : list call) :
  let native := SDL_PLATFORM_WIN32 && use_winusb bulk in
  0 <= size <= INT_MAX ->
  Switch2_BulkUSB_Read usb win fuel bulk size m = Some (v, m', calls) ->
  counts_within
    (fun j => if native then winusb_count (win j) else libusb_count (usb j))
    calls ->
  v <= size
  /\ (v < 0 ->
      if native
      then (v = -1 \/ v = -7) /\ iterations calls = 1%nat
           /\ winusb_count (win 0%nat) = None
      else exists j, (j < iterations calls)%nat /\ res (usb j) = v).
Proof.
  cbv zeta.
  unfold Switch2_BulkUSB_Read, Switch2_BulkUSB_WinUSB_Read, counts_within.
  intros Hsize H Hdev.
  destruct (SDL_PLATFORM_WIN32 && use_winusb bulk).
  - apply WinUSB_Read_loop_within in H; auto; [|apply INT_MAX_u32; lia].
    destruct (proj2 H) as [Hle Hneg]; [lia|lia|]. split; [lia|]. intros Hv.
    destruct Hneg as (Hc & _ & Hit & Hn); [lia|]. auto.
  - apply libusb_Read_loop_within in H; auto; [|apply INT_MAX_u32; lia].
    destruct (proj2 H) as [Hle Hneg]; [lia|lia|]. split; [lia|]. intros Hv.
    destruct Hneg as (j & Hj & Hr & _); [lia|]. exists j. auto.
Qed.

Lemma Read_result_bounded_witness :
  exists v m' calls,
    @Switch2_BulkUSB_Read posix usb_four_packets win_four_packets 4
      generic_context 256 zeroed = Some (v, m', calls)
    /\ v <= 256.
Proof.
  do 3 eexists. split; [reflexivity|].
  assert (H256 : 0 <= 256 <= INT_MAX) by (unfold INT_MAX; lia).
  refine (proj1 (@Read_result_bounded posix usb_four_packets
                   win_four_packets 4 generic_context 256 zeroed _ _ _ H256
                   _ _));
    [reflexivity|apply four_packets_answer; reflexivity].
Defined.

(** ** Open: the connection of its own and the successful outcome *)

(** The loop over the device list stops at the first device that matches
    and opens. *)
Lemma open_matching_first (vid pid : Z) :
  forall devs i,
    fst (open_matching vid pid devs i) =
    match find (opens vid pid) devs with
    | Some d => opened d
    | None => None
    end.
Proof.
  induction devs as [|d devs IH]; intros i; [reflexivity|].
  specialize (IH (S i)). simpl. unfold opens at 1, matches.
  destruct (open_matching vid pid devs (S i)) as [h cs]. simpl in IH.
  destruct (descriptor d) as [[v p]|]; simpl; [|exact IH].
  destruct ((v =? vid) && (p =? pid)); simpl; [|exact IH].
  destruct (opened d) eqn:E; simpl; [rewrite E; reflexivity|exact IH].
Qed.

(** Only matching devices are opened. *)
Lemma open_matching_opens (vid pid : Z) :
  forall devs i j h,
    In (libusb_open j h) (snd (open_matching vid pid devs i)) ->
    exists d,
      (i <= j)%nat /\ nth_error devs (j - i) = Some d
      /\ matches vid pid d = true /\ opened d = h.
Proof.
  induction devs as [|d devs IH]; intros i j h; [intros []|].
  specialize (IH (S i) j h). simpl. unfold matches at 1.
  destruct (open_matching vid pid devs (S i)) as [h' cs]. simpl in IH.
  assert (Hcs : In (libusb_open j h) cs ->
                exists d0,
                  (i <= j)%nat /\ nth_error (d :: devs) (j - i) = Some d0
                  /\ matches vid pid d0 = true /\ opened d0 = h).
  { intros H. destruct (IH H) as (d0 & Hle & Hn & Hrest).
    exists d0. split; [lia|]. split; [|exact Hrest].
    replace (j - i)%nat with (S (j - S i)) by lia. exact Hn. }
  destruct (descriptor d) as [[v p]|] eqn:Ed; simpl;
    [|intros [H | H]; [discriminate|auto]].
  destruct ((v =? vid) && (p =? pid)) eqn:Em; simpl;
    [|intros [H | H]; [discriminate|auto]].
  assert (Hhere : forall x, opened d = x -> libusb_open i x = libusb_open j h ->
                  exists d0,
                    (i <= j)%nat /\ nth_error (d :: devs) (j - i) = Some d0
                    /\ matches vid pid d0 = true /\ opened d0 = h).
  { intros x Hx H. injection H as <- <-. exists d.
    rewrite Nat.sub_diag. unfold matches. rewrite Ed, Em. auto. }
  destruct (opened d) eqn:Eo; simpl.
  - intros [H | [H | []]]; [discriminate|]. eapply Hhere; eauto.
  - intros [H | [H | H]]; [discriminate| |auto]. eapply Hhere; eauto.
Qed.

(** Opening an own connection, in full. *)
Lemma open_own_connection_detail (w : world) (b : Switch2_BulkUSB) :
  device_handle b = None ->
  let r := open_own_connection w b in
  (fst r = b
   /\ match private_context w, devices w with
      | Some _, Some devs =>
          find (opens (vendor_id w) (product_id w)) devs = None
      | _, _ => True
      end)
  \/ exists h usb_ctx devs d,
       private_context w = Some usb_ctx /\ devices w = Some devs
       /\ find (opens (vendor_id w) (product_id w)) devs = Some d
       /\ opened d = Some h
       /\ fst r = set_libusb_ctx (Some usb_ctx)
                    (set_owns_device_handle true
                       (set_device_handle (Some h) b)).
Proof.
  intros Hb. unfold open_own_connection. cbv zeta.
  destruct (private_context w) as [usb_ctx|]; [|left; auto].
  destruct (devices w) as [devs|]; [|left; simpl; rewrite ?Hb; auto].
  pose proof (open_matching_first (vendor_id w) (product_id w) devs 0) as Hf.
  destruct (open_matching (vendor_id w) (product_id w) devs 0) as [h cs].
  simpl in Hf.
  destruct (find (opens (vendor_id w) (product_id w)) devs) as [d|] eqn:F.
  - pose proof F as F'. apply find_some in F'. destruct F' as [_ Ho].
    unfold opens in Ho. apply andb_true_iff in Ho. destruct Ho as [_ Ho].
    destruct (opened d) as [h0|] eqn:Eo; [|discriminate].
    subst h. right. exists h0, usb_ctx, devs, d. simpl. auto.
  - subst h. left. simpl. rewrite ?Hb. auto.
Qed.

Section OpenSuccess.
Context {hdr : Headers}.

(** The generic path when it succeeds, field by field. *)
Lemma Open_libusb_success_detail (w : world) (b b' : Switch2_BulkUSB)
    (l : list call) :
  owns_device_handle b = false -> libusb_ctx b = None ->
  Open_libusb w b = (true, b', l) ->
  libusb b' = runtime w /\ runtime w <> None
  /\ interface_claimed b' = true /\ use_winusb b' = use_winusb b
  /\ winusb_handle b' = winusb_handle b
  /\ winusb_file_handle b' = winusb_file_handle b
  /\ owns_device_handle b' = negb (non_null (shared_handle w))
  /\ libusb_ctx b' = (if non_null (shared_handle w) then None
                      else private_context w)
  /\ exists h cfg,
       device_handle b' = Some h /\ config w h = Some cfg
       /\ (shared_handle w = None \/ shared_handle w = Some h)
       /\ Switch2_BulkUSB_FindEndpoints (Some cfg) (interface_number b)
            (out_endpoint b) (in_endpoint b)
          = (true, (interface_number b', out_endpoint b', in_endpoint b'))
       /\ 0 <= claim w h (interface_number b').
Proof.
  intros Ho Hc. unfold Open_libusb, InitLibUSB, when. simpl.
  destruct (runtime w) as [lib|]; simpl; [|discriminate].
  set (b1 := set_device_handle (shared_handle w) (set_libusb (Some lib) b)).
  assert (Hb2 : exists b2 l2,
             (if negb (non_null (shared_handle w))
              then open_own_connection w b1 else (b1, [])) = (b2, l2)
             /\ libusb b2 = Some lib /\ use_winusb b2 = use_winusb b
             /\ winusb_handle b2 = winusb_handle b
             /\ winusb_file_handle b2 = winusb_file_handle b
             /\ interface_number b2 = interface_number b
             /\ out_endpoint b2 = out_endpoint b
             /\ in_endpoint b2 = in_endpoint b
             /\ (device_handle b2 = None
                 \/ (owns_device_handle b2 = negb (non_null (shared_handle w))
                     /\ libusb_ctx b2 = (if non_null (shared_handle w)
                                         then None else private_context w)
                     /\ (shared_handle w = None
                         \/ shared_handle w = device_handle b2)))).
  { destruct (shared_handle w) as [h|] eqn:Hs; simpl.
    - exists b1, []. subst b1. simpl. repeat split; auto.
    - destruct (open_own_connection_detail w b1 eq_refl)
        as [[E _] | (h & c & devs & d & Hp & _ & _ & _ & E)];
        destruct (open_own_connection w b1) as [b2 l2]; simpl in E; subst b2;
        eexists; exists l2; (split; [reflexivity|]);
        subst b1; simpl; rewrite ?Hp; repeat split; auto. }
  destruct Hb2 as (b2 & l2 & -> & Hlib & Huse & Hwh & Hfh & Hn & Hoe & Hie
                   & Hshape).
  destruct (device_handle b2) as [h|] eqn:Hdh; [|discriminate].
  destruct Hshape as [Hx | (Hown & Hctx & Hsh)]; [discriminate|].
  unfold discover_and_claim.
  destruct (Switch2_BulkUSB_FindEndpoints (config w h) (interface_number b2)
              (out_endpoint b2) (in_endpoint b2)) as [ok [[n o] i]] eqn:Hfind.
  destruct ok; simpl; [|discriminate].
  destruct (claim w h n <? 0) eqn:Hclaim; [discriminate|].
  intros H. injection H as <- <-. simpl.
  rewrite Hlib, Huse, Hwh, Hfh, Hown, Hctx, Hdh.
  repeat split; auto; try discriminate.
  destruct (config w h) as [cfg|] eqn:Hcfg; [|discriminate].
  exists h, cfg. rewrite Hn, Hoe, Hie in Hfind.
  apply Z.ltb_ge in Hclaim. repeat split; auto.
Qed.

(** The native path when it succeeds: the interface selected. *)
Lemma OpenWinUSB_success_detail (devinfo : option (list device_interface))
    (bulk b' : Switch2_BulkUSB) (l : list call) :
  Switch2_BulkUSB_OpenWinUSB devinfo bulk = (true, b', l) ->
  exists c o i,
    usable c = true /\ picked_pipes c = Some (o, i)
    /\ b' = selected c o i bulk.
Proof.
  destruct devinfo as [cands|]; [|discriminate].
  unfold Switch2_BulkUSB_OpenWinUSB.
  pose proof (enumerate_interfaces_selects cands 0 bulk) as H.
  destruct (enumerate_interfaces cands 0 bulk) as [[ok b] cs]. simpl in H.
  destruct ok; [|discriminate]. intros E. injection E as <- _.
  destruct (find usable cands) as [c|] eqn:F; [|discriminate].
  apply find_some in F. destruct F as [_ F].
  destruct (picked_pipes c) as [[o i]|] eqn:P; [|discriminate].
  injection H as ->. exists c, o, i. auto.
Qed.

End OpenSuccess.

(** A successful [Open], backend by backend. *)
Lemma Open_succeeded {hdr : Headers} (w : world) (fuel : nat)
    (b b' : Switch2_BulkUSB) (l : list call) :
  unopened b ->
  Switch2_BulkUSB_Open w fuel b = Some (true, b', l) ->
  if use_winusb b' then
    SDL_PLATFORM_WIN32 = true
    /\ winusb_handle b' <> None
    /\ winusb_file_handle b' <> INVALID_HANDLE_VALUE
    /\ winusb_out_pipe b' <> 0 /\ winusb_in_pipe b' <> 0
    /\ libusb b' = None /\ device_handle b' = None
    /\ interface_claimed b' = false
  else
    libusb b' = runtime w /\ runtime w <> None
    /\ interface_claimed b' = true /\ interface_number b' = 1
    /\ winusb_handle b' = None
    /\ owns_device_handle b' = negb (non_null (shared_handle w))
    /\ libusb_ctx b' = (if non_null (shared_handle w) then None
                        else private_context w)
    /\ exists h cfg eo ei,
         device_handle b' = Some h /\ config w h = Some cfg
         /\ (shared_handle w = None \/ shared_handle w = Some h)
         /\ In eo (interface1_endpoints cfg) /\ bulk_out eo = true
         /\ out_endpoint b' = bEndpointAddress eo
         /\ In ei (interface1_endpoints cfg) /\ bulk_in ei = true
         /\ in_endpoint b' = bEndpointAddress ei
         /\ 0 <= claim w h 1.
Proof.
  intros (Hl & Hh & Ho & Hc & Hi & Hu & Hwh & Hfh).
  assert (Hgen : forall l2,
             Open_libusb w b = (true, b', l2) ->
             if use_winusb b' then
               SDL_PLATFORM_WIN32 = true
               /\ winusb_handle b' <> None
               /\ winusb_file_handle b' <> INVALID_HANDLE_VALUE
               /\ winusb_out_pipe b' <> 0 /\ winusb_in_pipe b' <> 0
               /\ libusb b' = None /\ device_handle b' = None
               /\ interface_claimed b' = false
             else
               libusb b' = runtime w /\ runtime w <> None
               /\ interface_claimed b' = true /\ interface_number b' = 1
               /\ winusb_handle b' = None
               /\ owns_device_handle b' = negb (non_null (shared_handle w))
               /\ libusb_ctx b' = (if non_null (shared_handle w) then None
                                   else private_context w)
               /\ exists h cfg eo ei,
                    device_handle b' = Some h /\ config w h = Some cfg
                    /\ (shared_handle w = None \/ shared_handle w = Some h)
                    /\ In eo (interface1_endpoints cfg) /\ bulk_out eo = true
                    /\ out_endpoint b' = bEndpointAddress eo
                    /\ In ei (interface1_endpoints cfg) /\ bulk_in ei = true
                    /\ in_endpoint b' = bEndpointAddress ei
                    /\ 0 <= claim w h 1).
  { intros l2 H.
    destruct (Open_libusb_success_detail w b b' l2 Ho Hc H)
      as (E1 & E2 & E3 & E4 & E5 & _ & E7 & E8 & h & cfg & Eh & Ecfg & Esh
          & Efind & Eclaim).
    rewrite E4, Hu.
    destruct (FindEndpoints_sound _ _ _ _ _ _ _ Efind)
      as (En & eo & ei & Heo).
    rewrite En in *. rewrite E5, Hwh. repeat split; auto.
    exists h, cfg, eo, ei. tauto. }
  unfold Switch2_BulkUSB_Open.
  destruct SDL_PLATFORM_WIN32 eqn:HW.
  - pose proof (OpenWinUSB_spec (devinfo w) b) as Hn. cbv zeta in Hn.
    destruct (Switch2_BulkUSB_OpenWinUSB (devinfo w) b)
      as [[native b1] l1] eqn:Hopen.
    simpl in Hn. destruct Hn as (_ & Hf & _). destruct native.
    + destruct (Switch2_BulkUSB_FlushWinUSB (stale w) fuel b1); [|discriminate].
      simpl. intros H. injection H as <- _.
      destruct (OpenWinUSB_success_detail _ _ _ _ Hopen)
        as (c & o & i & Hus & Hp & ->).
      apply picked_pipes_directions in Hp.
      unfold usable in Hus. repeat (apply andb_true_iff in Hus;
                                    destruct Hus as [Hus ?]).
      simpl. repeat split; auto; try tauto.
      * destruct (session c); [discriminate|discriminate].
      * destruct (file c); [discriminate|discriminate|discriminate].
    + rewrite (Hf eq_refl).
      destruct (Open_libusb w b) as [[ok b2] l2] eqn:E.
      intros H. injection H as -> -> _. eapply Hgen. reflexivity.
  - destruct (Open_libusb w b) as [[ok b2] l2] eqn:E.
    intros H. injection H as -> -> _. eapply Hgen. reflexivity.
Qed.

(** X16.  A successful [Open] of an unopened context leaves exactly one
    backend ready.  Either the native one: session and file recorded, both
    pipes known, no libusb field touched.  Or the generic one: the runtime
    and a device handle recorded, interface 1 claimed with a claim that did
    not fail, the endpoint fields holding the addresses of a bulk OUT and a
    bulk IN endpoint of interface 1 of that device, and the handle marked as
    the transport's own, with its private context, exactly when the HID
    layer shared none. *)
Theorem Open_success_state {hdr : Headers} (w : world) (fuel : nat)
    (b b' : Switch2_BulkUSB) (l : list call) :
  unopened b ->
  Switch2_BulkUSB_Open w fuel b = Some (true, b', l) ->
  if use_winusb b' then
    SDL_PLATFORM_WIN32 = true
    /\ winusb_handle b' <> None
    /\ winusb_file_handle b' <> INVALID_HANDLE_VALUE
    /\ winusb_out_pipe b' <> 0 /\ winusb_in_pipe b' <> 0
    /\ libusb b' = None /\ device_handle b' = None
    /\ interface_claimed b' = false
  else
    libusb b' = runtime w /\ runtime w <> None
    /\ interface_claimed b' = true /\ interface_number b' = 1
    /\ winusb_handle b' = None
    /\ owns_device_handle b' = negb (non_null (shared_handle w))
    /\ libusb_ctx b' = (if non_null (shared_handle w) then None
                        else private_context w)
    /\ exists h cfg eo ei,
         device_handle b' = Some h /\ config w h = Some cfg
         /\ (shared_handle w = None \/ shared_handle w = Some h)
         /\ In eo (interface1_endpoints cfg) /\ bulk_out eo = true
         /\ out_endpoint b' = bEndpointAddress eo
         /\ In ei (interface1_endpoints cfg) /\ bulk_in ei = true
         /\ in_endpoint b' = bEndpointAddress ei
         /\ 0 <= claim w h 1.
Proof. apply Open_succeeded. Qed.

Lemma Open_success_state_witness :
  libusb own_context = runtime own_world
  /\ interface_claimed own_context = true
  /\ interface_number own_context = 1.
Proof.
  pose proof (@Open_success_state posix own_world 0 inert own_context _
                unopened_inert eq_refl) as H.
  simpl in H. destruct H as (H1 & _ & H3 & H4 & _). auto.
Defined.

(** ** The calls of each backend *)

Lemma native_calls_app (l1 l2 : list call) :
  native_calls l1 -> native_calls l2 -> native_calls (l1 ++ l2).
Proof. intros H1 H2. apply Forall_app. auto. Qed.

Lemma native_calls_cons (c : call) (l : list call) :
  is_native_call c = true -> native_calls l -> native_calls (c :: l).
Proof. intros H1 H2. constructor; auto. Qed.

Lemma generic_calls_app (l1 l2 : list call) :
  generic_calls l1 -> generic_calls l2 -> generic_calls (l1 ++ l2).
Proof. intros H1 H2. apply Forall_app. auto. Qed.

Lemma generic_calls_cons (c : call) (l : list call) :
  is_native_call c = false -> generic_calls l -> generic_calls (c :: l).
Proof. intros H1 H2. constructor; auto. Qed.

Create HintDb backends.
#[local] Hint Resolve native_calls_app native_calls_cons
  generic_calls_app generic_calls_cons : backends.
#[local] Hint Extern 1 (native_calls []) => apply Forall_nil : backends.
#[local] Hint Extern 1 (generic_calls []) => apply Forall_nil : backends.
#[local] Hint Extern 1 (_ = true) => reflexivity : backends.
#[local] Hint Extern 1 (_ = false) => reflexivity : backends.

Lemma query_pipes_native (wh : address) :
  forall infos ep o i, native_calls (snd (query_pipes wh ep infos o i)).
Proof.
  intros infos ep o i. rewrite query_pipes_spec. simpl.
  apply Forall_forall. intros c H. apply In_queries in H.
  destruct H as [k ->]. reflexivity.
Qed.

Lemma enumerate_interfaces_native :
  forall cands i bulk, native_calls (snd (enumerate_interfaces cands i bulk)).
Proof.
  induction cands as [|c cands IH]; intros i bulk.
  - simpl. auto with backends.
  - specialize (IH (S i) bulk). simpl enumerate_interfaces.
    destruct (enumerate_interfaces cands (S i) bulk) as [[ok b] cs].
    simpl in IH.
    destruct (detail_allocated c); simpl; [|auto 6 with backends].
    destruct (detail_filled c); simpl; [|auto 6 with backends].
    destruct (negb (wcsstr (DevicePath c) "vid_057e")
              && negb (wcsstr (DevicePath c) "VID_057E")); simpl;
      [auto 6 with backends|].
    destruct (file c); simpl; try solve [auto 8 with backends];
      (destruct (session c) as [wh|]; [|simpl; auto 8 with backends];
       destruct (pipes c) as [infos|]; [|simpl; auto 10 with backends];
       pose proof (query_pipes_native wh infos 0%nat 0 0) as Hqs;
       destruct (query_pipes wh 0 infos 0 0) as [[o1 i1] qs]; simpl in Hqs;
       destruct ((o1 =? 0) || (i1 =? 0)); simpl; auto 14 with backends).
Qed.

Lemma OpenWinUSB_native (devinfo : option (list device_interface))
    (bulk : Switch2_BulkUSB) :
  native_calls (snd (Switch2_BulkUSB_OpenWinUSB devinfo bulk)).
Proof.
  unfold Switch2_BulkUSB_OpenWinUSB. destruct devinfo as [cands|].
  - pose proof (enumerate_interfaces_native cands 0 bulk) as H.
    destruct (enumerate_interfaces cands 0 bulk) as [[ok b] cs].
    simpl in H. destruct ok; simpl; auto 6 with backends.
  - simpl. auto with backends.
Qed.

Lemma drain_native (stale : nat -> bool) (bulk : Switch2_BulkUSB) :
  forall fuel k l, drain stale bulk fuel k = Some l -> native_calls l.
Proof.
  induction fuel as [|fuel IH]; intros k l; simpl;
    destruct (stale k); try discriminate;
    try (intros H; injection H as <-; auto with backends).
  destruct (drain stale bulk fuel (S k)) as [l'|] eqn:E; [|discriminate].
  simpl. intros H. injection H as <-. eauto with backends.
Qed.

Lemma FlushWinUSB_native (stale : nat -> bool) (fuel : nat)
    (bulk : Switch2_BulkUSB) (l : list call) :
  Switch2_BulkUSB_FlushWinUSB stale fuel bulk = Some l -> native_calls l.
Proof.
  unfold Switch2_BulkUSB_FlushWinUSB.
  destruct (drain stale bulk fuel 0) as [reads|] eqn:E; [|discriminate].
  apply drain_native in E. simpl. intros H. injection H as <-.
  auto 8 with backends.
Qed.

Lemma native_calls_no_error (l : list call) : native_calls l -> errors l = 0%nat.
Proof.
  unfold errors. induction 1 as [|c l Hc _ IH]; [reflexivity|].
  simpl. destruct c; try discriminate; exact IH.
Qed.

Lemma native_calls_not_own (l : list call) :
  native_calls l -> Forall (fun c => is_own_connection_call c = false) l.
Proof.
  apply Forall_impl. intros c H. destruct c; try discriminate; reflexivity.
Qed.

Lemma errors_app (l1 l2 : list call) :
  errors (l1 ++ l2) = (errors l1 + errors l2)%nat.
Proof. unfold errors. rewrite filter_app. apply length_app. Qed.

Lemma open_matching_own (vid pid : Z) :
  forall devs i, own_calls (snd (open_matching vid pid devs i)).
Proof.
  induction devs as [|d devs IH]; intros i; simpl; [constructor|].
  specialize (IH (S i)).
  destruct (open_matching vid pid devs (S i)) as [h cs]. simpl in IH.
  destruct (descriptor d) as [[v p]|]; simpl; [|constructor; auto].
  destruct ((v =? vid) && (p =? pid)); simpl; [|constructor; auto].
  destruct (opened d); simpl; repeat (constructor; auto).
Qed.

Lemma open_own_connection_own (w : world) (b : Switch2_BulkUSB) :
  own_calls (snd (open_own_connection w b)).
Proof.
  unfold open_own_connection.
  destruct (private_context w) as [usb_ctx|]; [|repeat constructor].
  destruct (devices w) as [devs|].
  - pose proof (open_matching_own (vendor_id w) (product_id w) devs 0) as Hq.
    destruct (open_matching (vendor_id w) (product_id w) devs 0) as [h cs].
    simpl in Hq. cbn [snd]. repeat (apply Forall_cons; [reflexivity|]).
    simpl. apply Forall_app. split; [exact Hq|].
    apply Forall_cons; [reflexivity|].
    match goal with |- context [if ?c then _ else _] => destruct c end;
      repeat constructor.
  - cbn [snd]. simpl.
    match goal with |- context [if ?c then _ else _] => destruct c end;
      repeat constructor.
Qed.

Lemma own_calls_generic (l : list call) : own_calls l -> generic_calls l.
Proof.
  apply Forall_impl. intros c H. destruct c; try discriminate; reflexivity.
Qed.

Lemma own_calls_no_error (l : list call) : own_calls l -> errors l = 0%nat.
Proof.
  unfold errors. induction 1 as [|c l Hc _ IH]; [reflexivity|].
  simpl. destruct c; try discriminate; exact IH.
Qed.

Lemma reported_none (l : list call) : errors l = 0%nat -> reported l = None.
Proof.
  unfold reported, errors.
  induction l as [|c l IH]; [reflexivity|]. simpl.
  destruct (is_set_error c) eqn:E; [discriminate|]. intros H.
  destruct l as [|c' l']; [destruct c; try reflexivity; discriminate|].
  apply IH. exact H.
Qed.

Section OpenLog.
Context {hdr : Headers}.

(** Discovery and claim: generic calls on the handle at hand, and one
    error exactly on failure. *)
Lemma discover_and_claim_log (w : world) (h : address) (b : Switch2_BulkUSB) :
  let r := discover_and_claim w h b in
  generic_calls (snd r) /\ borrowed_calls (snd r)
  /\ errors (snd r) = (if fst (fst r) then 0 else 1)%nat
  /\ (fst (fst r) = false -> exists msg, reported (snd r) = Some msg).
Proof.
  unfold discover_and_claim. cbv zeta.
  destruct (Switch2_BulkUSB_FindEndpoints _ _ _ _) as [ok eps].
  destruct ok; simpl.
  - destruct (claim w h (interface_number (set_endpoints eps b)) <? 0); simpl;
      destruct (config w h); simpl;
      (split; [repeat constructor|split; [repeat constructor|]]);
      (split; [reflexivity|]); try discriminate; intros _; eexists;
      reflexivity.
  - destruct (config w h); simpl;
      (split; [repeat constructor|split; [repeat constructor|]]);
      (split; [reflexivity|]); intros _; eexists; reflexivity.
Qed.

(** The calls of the generic path. *)
Lemma Open_libusb_log (w : world) (b : Switch2_BulkUSB) :
  let r := Open_libusb w b in
  generic_calls (snd r)
  /\ errors (snd r) = (if fst (fst r) then 0 else 1)%nat
  /\ (fst (fst r) = false -> exists msg, reported (snd r) = Some msg)
  /\ (shared_handle w <> None -> borrowed_calls (snd r)).
Proof.
  unfold Open_libusb, InitLibUSB, when. cbv zeta. simpl.
  destruct (runtime w) as [lib|]; simpl.
  2: { repeat split; try (repeat constructor; fail).
       - intros _. eexists. reflexivity. }
  set (b1 := set_device_handle (shared_handle w) (set_libusb (Some lib) b)).
  assert (Hb2 : exists b2 l2,
             (if negb (non_null (shared_handle w))
              then open_own_connection w b1 else (b1, [])) = (b2, l2)
             /\ own_calls l2 /\ (shared_handle w <> None -> l2 = [])).
  { destruct (shared_handle w) as [h|] eqn:Hs; simpl.
    - exists b1, []. repeat split. constructor.
    - pose proof (open_own_connection_own w b1) as Hown.
      destruct (open_own_connection w b1) as [b2 l2]. exists b2, l2.
      repeat split; [exact Hown|congruence]. }
  destruct Hb2 as (b2 & l2 & -> & Hown & Hnil).
  pose proof (own_calls_generic l2 Hown) as Hgen.
  pose proof (own_calls_no_error l2 Hown) as Herr.
  destruct (device_handle b2) as [h|] eqn:Hdh.
  - pose proof (discover_and_claim_log w h b2) as Hd. cbv zeta in Hd.
    destruct (discover_and_claim w h b2) as [[ok b3] l3]. simpl in Hd.
    destruct Hd as (Hg3 & Hb3 & He3 & Hr3). simpl.
    split; [repeat (apply generic_calls_cons; [reflexivity|]);
            apply generic_calls_app; assumption|].
    split; [change (errors ([SDL_InitLibUSB (Some lib);
                             SDL_GetPointerProperty] ++ l2 ++ l3)
                    = (if ok then 0 else 1)%nat);
            rewrite !errors_app, Herr, He3; reflexivity|].
    split.
    + intros Hok. destruct (Hr3 Hok) as [msg Hmsg]. exists msg.
      change (reported ([SDL_InitLibUSB (Some lib); SDL_GetPointerProperty]
                          ++ l2 ++ l3) = Some msg).
      rewrite app_assoc, reported_app; [exact Hmsg|].
      intros ->. discriminate.
    + intros Hs. rewrite (Hnil Hs). simpl. repeat constructor. exact Hb3.
  - simpl.
    split; [repeat (apply generic_calls_cons; [reflexivity|]);
            apply generic_calls_app; [assumption|repeat constructor]|].
    split; [change (errors ([SDL_InitLibUSB (Some lib);
                             SDL_GetPointerProperty] ++ l2
                            ++ [SDL_QuitLibUSB;
                                SDL_SetError
                                  "Couldn't get libusb device handle"])
                    = 1%nat);
            rewrite !errors_app, Herr; reflexivity|].
    split.
    + intros _. exists "Couldn't get libusb device handle"%string.
      change (reported ([SDL_InitLibUSB (Some lib); SDL_GetPointerProperty]
                          ++ l2
                          ++ [SDL_QuitLibUSB;
                              SDL_SetError "Couldn't get libusb device handle"])
              = Some "Couldn't get libusb device handle"%string).
      rewrite app_assoc, reported_app; [reflexivity|discriminate].
    + intros Hs. rewrite (Hnil Hs). simpl. repeat constructor.
Qed.

End OpenLog.

(** ** Open, path by path *)

(** The public [Open] is the native attempt followed, when that fails, by
    the generic path on the context as it was. *)
Lemma Open_paths {hdr : Headers} (w : world) (fuel : nat)
    (b b' : Switch2_BulkUSB) (ok : bool) (l : list call) :
  Switch2_BulkUSB_Open w fuel b = Some (ok, b', l) ->
  (exists l1 lf,
      SDL_PLATFORM_WIN32 = true /\ ok = true /\ l = l1 ++ lf
      /\ Switch2_BulkUSB_OpenWinUSB (devinfo w) b = (true, b', l1)
      /\ Switch2_BulkUSB_FlushWinUSB (stale w) fuel b' = Some lf)
  \/ (exists l1 l2,
        l = l1 ++ l2 /\ native_calls l1
        /\ (SDL_PLATFORM_WIN32 = false -> l1 = [])
        /\ (SDL_PLATFORM_WIN32 = true ->
            Switch2_BulkUSB_OpenWinUSB (devinfo w) b = (false, b, l1))
        /\ Open_libusb w b = (ok, b', l2)).
Proof.
  unfold Switch2_BulkUSB_Open.
  destruct SDL_PLATFORM_WIN32.
  - pose proof (OpenWinUSB_spec (devinfo w) b) as H. cbv zeta in H.
    pose proof (OpenWinUSB_native (devinfo w) b) as Hn.
    destruct (Switch2_BulkUSB_OpenWinUSB (devinfo w) b) as [[native b1] l1].
    simpl in H, Hn. destruct H as (_ & Hf & _).
    destruct native.
    + destruct (Switch2_BulkUSB_FlushWinUSB (stale w) fuel b1) as [lf|] eqn:E;
        [|discriminate].
      simpl. intros H. injection H as <- <- <-. left. exists l1, lf. auto.
    + rewrite (Hf eq_refl).
      destruct (Open_libusb w b) as [[ok2 b2] l2].
      intros E. injection E as -> -> <-. right. exists l1, l2.
      repeat split; auto. discriminate.
  - destruct (Open_libusb w b) as [[ok2 b2] l2].
    intros E. injection E as -> -> <-. right. exists [], l2.
    repeat split; auto; [constructor|discriminate].
Qed.

(** X17.  [Open] sets an error exactly when it returns false: a successful
    [Open] calls [SDL_SetError] nowhere, a failed one calls it once, as its
    last call. *)
Theorem Open_error_reported {hdr : Headers} (w : world) (fuel : nat)
    (b b' : Switch2_BulkUSB) (ok : bool) (l : list call) :
  Switch2_BulkUSB_Open w fuel b = Some (ok, b', l) ->
  errors l = (if ok then 0 else 1)%nat
  /\ (ok = false <-> exists msg, reported l = Some msg).
Proof.
  intros H. apply Open_paths in H.
  destruct H as [(l1 & lf & _ & -> & -> & Hopen & Hflush)
                | (l1 & l2 & -> & Hn & _ & _ & Hgen)].
  - pose proof (OpenWinUSB_native (devinfo w) b) as Hn1.
    rewrite Hopen in Hn1. simpl in Hn1.
    apply FlushWinUSB_native in Hflush.
    assert (He : errors (l1 ++ lf) = 0%nat)
      by (rewrite errors_app, !native_calls_no_error by assumption;
          reflexivity).
    split; [exact He|]. split; [discriminate|].
    intros [msg Hmsg]. rewrite (reported_none _ He) in Hmsg. discriminate.
  - pose proof (Open_libusb_log w b) as Hlog. cbv zeta in Hlog.
    rewrite Hgen in Hlog. simpl in Hlog. destruct Hlog as (_ & He & Hr & _).
    assert (Hall : errors (l1 ++ l2) = (if ok then 0 else 1)%nat)
      by (rewrite errors_app, (native_calls_no_error l1 Hn); exact He).
    split; [exact Hall|]. split.
    + intros Hok. destruct (Hr Hok) as [msg Hmsg]. exists msg.
      rewrite reported_app; [exact Hmsg|]. intros ->. discriminate.
    + intros [msg Hmsg]. destruct ok; [|reflexivity].
      rewrite (reported_none _ Hall) in Hmsg. discriminate.
Qed.

Lemma Open_error_reported_witness :
  exists b' l,
    @Switch2_BulkUSB_Open posix busy_world 0 inert = Some (false, b', l)
    /\ errors l = 1%nat.
Proof.
  do 2 eexists. split; [reflexivity|].
  apply (@Open_error_reported posix busy_world 0 inert _ false _ eq_refl).
Defined.

(** X18.  A borrowed device handle is not closed.  On an unopened context,
    when the HID layer shares its libusb handle, [Open] and the [Close]
    that follows make no call of an own connection (init, device list,
    descriptor, open, close, exit), the context is not marked as owning the
    handle, and [Close] leaves the pointer in [device_handle]. *)
Theorem Open_borrowed_handle {hdr : Headers} (w : world) (fuel : nat)
    (b b' : Switch2_BulkUSB) (ok : bool) (l : list call) (h : address) :
  unopened b ->
  shared_handle w = Some h ->
  Switch2_BulkUSB_Open w fuel b = Some (ok, b', l) ->
  borrowed_calls (l ++ snd (Switch2_BulkUSB_Close b'))
  /\ owns_device_handle b' = false /\ libusb_ctx b' = None
  /\ device_handle (fst (Switch2_BulkUSB_Close b')) = device_handle b'
  /\ (device_handle b' = None \/ device_handle b' = Some h).
Proof.
  intros (Hl & Hh & Ho & Hc & Hi & Hu & Hwh & Hfh) Hs H.
  assert (Hclose : forall b1,
             owns_device_handle b1 = false -> libusb_ctx b1 = None ->
             borrowed_calls (snd (Switch2_BulkUSB_Close b1))
             /\ device_handle (fst (Switch2_BulkUSB_Close b1))
                = device_handle b1).
  { intros b1 Ho1 Hc1. split.
    - rewrite Close_calls, Ho1, Hc1. simpl.
      repeat match goal with
             | |- context [if ?c then _ else _] => destruct c
             | |- context [match ?c with Some _ => _ | None => _ end] =>
                 destruct c
             end; repeat constructor.
    - destruct (Close_state b1) as (_ & _ & _ & E & _). rewrite E, Ho1.
      reflexivity. }
  apply Open_paths in H.
  destruct H as [(l1 & lf & _ & -> & -> & Hopen & Hflush)
                | (l1 & l2 & -> & Hn & _ & _ & Hgen)].
  - pose proof (OpenWinUSB_native (devinfo w) b) as Hn1.
    pose proof (OpenWinUSB_spec (devinfo w) b) as Hspec. cbv zeta in Hspec.
    rewrite Hopen in Hn1, Hspec. simpl in Hn1, Hspec.
    destruct Hspec as (_ & _ & Ht).
    destruct (Ht eq_refl) as (_ & _ & E2 & E3 & E4 & _).
    apply FlushWinUSB_native in Hflush.
    destruct (Hclose b') as [Hcl Hdh]; [congruence|congruence|].
    split; [|repeat split; try congruence; left; congruence].
    apply Forall_app. split; [|exact Hcl].
    apply Forall_app. split; apply native_calls_not_own; assumption.
  - pose proof (Open_libusb_log w b) as Hlog. cbv zeta in Hlog.
    rewrite Hgen in Hlog. simpl in Hlog. destruct Hlog as (_ & _ & _ & Hb).
    assert (Hstate : owns_device_handle b' = false /\ libusb_ctx b' = None
                     /\ (device_handle b' = None \/ device_handle b' = Some h)).
    { revert Hgen. unfold Open_libusb, InitLibUSB, when. simpl.
      destruct (runtime w) as [lib|]; simpl.
      2: { intros E. injection E as _ <- _. simpl. auto. }
      rewrite Hs. simpl. unfold discover_and_claim.
      destruct (Switch2_BulkUSB_FindEndpoints _ _ _ _) as [okf [[n o] i]].
      destruct okf; simpl;
        [destruct (claim w h n <? 0)|];
        intros E; injection E as _ <- _; simpl; auto. }
    destruct Hstate as (Ho' & Hc' & Hd').
    destruct (Hclose b' Ho' Hc') as [Hcl Hdh].
    split; [|auto].
    apply Forall_app. split; [|exact Hcl].
    apply Forall_app. split; [apply native_calls_not_own; assumption|].
    apply Hb. congruence.
Qed.

Lemma Open_borrowed_handle_witness :
  owns_device_handle generic_context = false
  /\ device_handle (fst (@Switch2_BulkUSB_Close posix generic_context))
     = Some 2%nat.
Proof.
  pose proof (@Open_borrowed_handle posix shared_world 0 inert generic_context
                true _ 2%nat unopened_inert eq_refl eq_refl) as H.
  destruct H as (_ & H2 & _ & H4 & _). split; [exact H2|exact H4].
Defined.

(** X19.  A build for another platform than Windows makes no call into
    SetupAPI, kernel32 or WinUSB, whatever the context holds (the flag
    [use_winusb] included): not in [Open], [Write], [Read] or [Close]. *)
Theorem non_windows_build_is_generic {hdr : Headers} :
  SDL_PLATFORM_WIN32 = false ->
  (forall w fuel b r,
      Switch2_BulkUSB_Open w fuel b = Some r -> generic_calls (snd r))
  /\ (forall usb win b size timeout_ms,
        generic_calls (snd (Switch2_BulkUSB_Write usb win b size timeout_ms)))
  /\ (forall usb win fuel b size m r,
        Switch2_BulkUSB_Read usb win fuel b size m = Some r ->
        generic_calls (snd r))
  /\ (forall b, generic_calls (snd (Switch2_BulkUSB_Close b))).
Proof.
  intros HW. split; [|split; [|split]].
  - intros w fuel b [[ok b'] l] H. apply Open_paths in H.
    destruct H as [(l1 & lf & HW' & _) | (l1 & l2 & -> & _ & Hnil & _ & Hgen)];
      [congruence|].
    rewrite (Hnil HW). simpl.
    pose proof (Open_libusb_log w b) as Hlog. cbv zeta in Hlog.
    rewrite Hgen in Hlog. apply Hlog.
  - intros usb win b size timeout_ms. unfold Switch2_BulkUSB_Write.
    rewrite HW. simpl. repeat constructor.
  - intros usb win fuel b size m [[v m'] calls] H.
    unfold Switch2_BulkUSB_Read in H. rewrite HW in H. simpl in H.
    apply libusb_Read_loop_calls in H. simpl.
    revert H. apply Forall_impl. intros c Hcall.
    destruct c; simpl in Hcall; try contradiction; reflexivity.
  - intros b. rewrite Close_calls, HW. simpl.
    repeat match goal with
           | |- context [if ?c then _ else _] => destruct c
           | |- context [match ?c with Some _ => _ | None => _ end] =>
               destruct c
           end; repeat constructor.
Qed.

Lemma non_windows_build_is_generic_witness :
  generic_calls (snd (@Switch2_BulkUSB_Close posix own_context)).
Proof.
  apply (@non_windows_build_is_generic posix eq_refl).
Defined.

(** X20.  A context that [Open] left on the native path was opened
    successfully and without any call into SDL's libusb layer or libusb, and
    [Write], [Read] and [Close] on it make none either. *)
Theorem native_session_is_native {hdr : Headers} (w : world) (fuel : nat)
    (b b' : Switch2_BulkUSB) (ok : bool) (l : list call) :
  unopened b ->
  Switch2_BulkUSB_Open w fuel b = Some (ok, b', l) ->
  use_winusb b' = true ->
  ok = true /\ native_calls l
  /\ (forall usb win size timeout_ms,
        native_calls (snd (Switch2_BulkUSB_Write usb win b' size timeout_ms)))
  /\ (forall usb win fuel' size m r,
        Switch2_BulkUSB_Read usb win fuel' b' size m = Some r ->
        native_calls (snd r))
  /\ native_calls (snd (Switch2_BulkUSB_Close b')).
Proof.
  intros (Hl & Hh & Ho & Hc & Hi & Hu & Hwh & Hfh) H Huse.
  apply Open_paths in H.
  destruct H as [(l1 & lf & HW & -> & -> & Hopen & Hflush)
                | (l1 & l2 & -> & Hn & _ & _ & Hgen)].
  2: { destruct ok.
       - apply Open_libusb_success in Hgen. destruct Hgen as (_ & _ & _ & E).
         congruence.
       - pose proof Hgen as Hgen'.
         apply Open_libusb_failure in Hgen; auto.
         destruct Hgen as (_ & E & _). congruence. }
  pose proof (OpenWinUSB_native (devinfo w) b) as Hn1.
  pose proof (OpenWinUSB_spec (devinfo w) b) as Hspec. cbv zeta in Hspec.
  rewrite Hopen in Hn1, Hspec. simpl in Hn1, Hspec.
  destruct Hspec as (_ & _ & Ht).
  destruct (Ht eq_refl) as (_ & E1 & E2 & E3 & E4 & E5).
  apply FlushWinUSB_native in Hflush.
  split; [reflexivity|]. split; [apply native_calls_app; assumption|].
  split; [|split].
  - intros usb win size timeout_ms. unfold Switch2_BulkUSB_Write.
    rewrite HW, Huse. simpl. unfold Switch2_BulkUSB_WinUSB_Write.
    destruct (event win); [repeat constructor| |];
      (destruct (pipe_ok win); [repeat constructor|];
       destruct (last_error win =? ERROR_IO_PENDING); [|repeat constructor];
       destruct (wait win =? WAIT_OBJECT_0); repeat constructor).
  - intros usb win fuel' size m [[v m'] calls] H.
    unfold Switch2_BulkUSB_Read in H. rewrite HW, Huse in H. simpl in H.
    apply WinUSB_Read_loop_calls in H. destruct H as [_ H]. simpl.
    revert H. apply Forall_impl. intros c Hcall.
    destruct c; simpl in Hcall; try contradiction; reflexivity.
  - rewrite Close_calls, HW, Huse, E1, E2, E3, E4, E5, Hl, Hh, Ho, Hc, Hi.
    simpl.
    repeat match goal with
           | |- context [if ?c then _ else _] => destruct c
           | |- context [match ?c with Some _ => _ | None => _ end] =>
               destruct c
           end; repeat constructor.
Qed.

Lemma native_session_is_native_witness :
  native_calls (snd (@Switch2_BulkUSB_Close win32 native_context)).
Proof.
  apply (@native_session_is_native win32 winusb_world 2 inert native_context true
           _ unopened_inert eq_refl eq_refl).
Defined.

(** The generic path does not look at the platform. *)
Lemma Open_libusb_generic_build {hdr : Headers} (w : world)
    (b : Switch2_BulkUSB) :
  @Open_libusb (generic_build hdr) w b = @Open_libusb hdr w b.
Proof. reflexivity. Qed.

(** X21.  When the native path finds no usable interface, a Windows build
    goes on exactly as a build for another platform does from the same
    context: same result, same context, same calls after those of the
    enumeration. *)
Theorem Open_fallback_generic {hdr : Headers} (w : world) (fuel : nat)
    (b : Switch2_BulkUSB) :
  SDL_PLATFORM_WIN32 = true ->
  fst (fst (Switch2_BulkUSB_OpenWinUSB (devinfo w) b)) = false ->
  @Switch2_BulkUSB_Open hdr w fuel b =
  option_map
    (fun r => (fst r, snd (Switch2_BulkUSB_OpenWinUSB (devinfo w) b) ++ snd r))
    (@Switch2_BulkUSB_Open (generic_build hdr) w fuel b).
Proof.
  intros HW Hf. unfold Switch2_BulkUSB_Open. rewrite HW.
  change (@SDL_PLATFORM_WIN32 (generic_build hdr)) with false. cbv iota.
  rewrite Open_libusb_generic_build.
  pose proof (OpenWinUSB_spec (devinfo w) b) as H. cbv zeta in H.
  destruct (Switch2_BulkUSB_OpenWinUSB (devinfo w) b) as [[native b1] l1].
  simpl in *. subst native. destruct H as (_ & Hb & _). rewrite (Hb eq_refl).
  destruct (Open_libusb w b) as [[ok b2] l2]. reflexivity.
Qed.

Lemma Open_fallback_generic_witness :
  @Switch2_BulkUSB_Open win32 locked_world 0 inert =
  option_map
    (fun r => (fst r,
               snd (Switch2_BulkUSB_OpenWinUSB (devinfo locked_world) inert)
               ++ snd r))
    (@Switch2_BulkUSB_Open (generic_build win32) locked_world 0 inert).
Proof.
  apply (@Open_fallback_generic win32 locked_world 0 inert); reflexivity.
Defined.

(** X22.  When [Open] makes its own connection, the handle it records is
    the one of the first device of the list whose descriptor can be read,
    carries the vendor and product id of the controller, and opens; no
    handle is recorded when there is no such device.  Only devices with
    those ids are opened. *)
Theorem Open_own_connection_device {hdr : Headers} (w : world) (fuel : nat)
    (b b' : Switch2_BulkUSB) (ok : bool) (l : list call)
    (usb_ctx : address) (devs : list usb_device) :
  unopened b ->
  shared_handle w = None -> runtime w <> None ->
  private_context w = Some usb_ctx -> devices w = Some devs ->
  Switch2_BulkUSB_Open w fuel b = Some (ok, b', l) ->
  use_winusb b' = false ->
  device_handle b' =
    match find (opens (vendor_id w) (product_id w)) devs with
    | Some d => opened d
    | None => None
    end
  /\ forall j h,
       In (libusb_open j h) l ->
       exists d, nth_error devs j = Some d
                 /\ matches (vendor_id w) (product_id w) d = true
                 /\ opened d = h.
Proof.
  intros (Hl & Hh & Ho & Hc & Hi & Hu & Hwh & Hfh) Hs Hrt Hp Hd H Huse.
  apply Open_paths in H.
  destruct H as [(l1 & lf & _ & -> & -> & Hopen & Hflush)
                | (l1 & l2 & -> & Hn & _ & _ & Hgen)].
  { pose proof (OpenWinUSB_spec (devinfo w) b) as Hspec. cbv zeta in Hspec.
    rewrite Hopen in Hspec. simpl in Hspec. destruct Hspec as (_ & _ & Ht).
    destruct (Ht eq_refl) as (E & _). congruence. }
  assert (Hnat : forall j h, In (libusb_open j h) l1 -> False).
  { intros j h Hin. unfold native_calls in Hn. rewrite Forall_forall in Hn.
    apply Hn in Hin. discriminate. }
  revert Hgen. unfold Open_libusb, InitLibUSB, when. simpl.
  destruct (runtime w) as [lib|]; [|congruence]. simpl. rewrite Hs. simpl.
  set (b1 := set_device_handle None (set_libusb (Some lib) b)).
  pose proof (open_matching_first (vendor_id w) (product_id w) devs 0) as Hf.
  pose proof (open_matching_opens (vendor_id w) (product_id w) devs 0) as Hopens.
  unfold open_own_connection. rewrite Hp, Hd.
  destruct (open_matching (vendor_id w) (product_id w) devs 0) as [h cs].
  simpl in Hf, Hopens. rewrite <- Hf.
  assert (Hcs : forall j h0,
             In (libusb_open j h0) cs ->
             exists d, nth_error devs j = Some d
                       /\ matches (vendor_id w) (product_id w) d = true
                       /\ opened d = h0).
  { intros j h0 Hin. destruct (Hopens j h0 Hin) as (d & _ & Hn0 & Hrest).
    rewrite Nat.sub_0_r in Hn0. eauto. }
  destruct h as [h|]; simpl.
  - unfold discover_and_claim.
    destruct (Switch2_BulkUSB_FindEndpoints _ _ _ _) as [okf [[n o] i]].
    destruct (config w h); destruct okf; simpl;
      try destruct (claim w h n <? 0);
      intros E; injection E as _ <- <-; (split; [reflexivity|]);
      intros j h0 Hin; apply in_app_iff in Hin;
      (destruct Hin as [Hin | Hin]; [destruct (Hnat _ _ Hin)|]);
      simpl in Hin; rewrite ?in_app_iff in Hin; simpl in Hin;
      repeat match goal with
             | H : _ \/ _ |- _ => destruct H as [H | H]
             | H : False |- _ => destruct H
             end; try discriminate; auto.
  - intros E; injection E as _ <- <-. split; [reflexivity|].
    intros j h0 Hin; apply in_app_iff in Hin;
      (destruct Hin as [Hin | Hin]; [destruct (Hnat _ _ Hin)|]);
      simpl in Hin; rewrite ?in_app_iff in Hin; simpl in Hin;
      repeat match goal with
             | H : _ \/ _ |- _ => destruct H as [H | H]
             | H : False |- _ => destruct H
             end; try discriminate; auto.
Qed.

Lemma Open_own_connection_device_witness :
  device_handle own_context =
  match find (opens 0x057E 0x2069) two_devices with
  | Some d => opened d
  | None => None
  end.
Proof.
  assert (Hrt : runtime own_world <> None) by discriminate.
  apply (@Open_own_connection_device posix own_world 0 inert own_context true
           _ 3%nat two_devices unopened_inert eq_refl Hrt eq_refl eq_refl
           eq_refl eq_refl).
Defined.

Section OpenState.
Context {hdr : Headers}.

(** The generic path, whatever its outcome: the fields it leaves alone and
    what it records about the device handle. *)
Lemma Open_libusb_state (w : world) (b b' : Switch2_BulkUSB) (ok : bool)
    (l : list call) :
  owns_device_handle b = false -> libusb_ctx b = None ->
  Open_libusb w b = (ok, b', l) ->
  use_winusb b' = use_winusb b
  /\ winusb_handle b' = winusb_handle b
  /\ winusb_file_handle b' = winusb_file_handle b
  /\ (owns_device_handle b' = true -> libusb b' <> None)
  /\ (owns_device_handle b' = false ->
      device_handle b' = device_handle b
      \/ device_handle b' = shared_handle w).
Proof.
  intros Ho Hc. unfold Open_libusb, InitLibUSB, when. simpl.
  destruct (runtime w) as [lib|]; simpl.
  2: { intros E. injection E as _ <- _. simpl. repeat split; auto.
       congruence. }
  set (b1 := set_device_handle (shared_handle w) (set_libusb (Some lib) b)).
  assert (Hb2 : exists b2 l2,
             (if negb (non_null (shared_handle w))
              then open_own_connection w b1 else (b1, [])) = (b2, l2)
             /\ libusb b2 = Some lib /\ use_winusb b2 = use_winusb b
             /\ winusb_handle b2 = winusb_handle b
             /\ winusb_file_handle b2 = winusb_file_handle b
             /\ (owns_device_handle b2 = true -> device_handle b2 <> None)
             /\ (owns_device_handle b2 = false ->
                 device_handle b2 = shared_handle w)).
  { destruct (shared_handle w) as [h|] eqn:Hs; simpl.
    - exists b1, []. subst b1. simpl. repeat split; auto. congruence.
    - destruct (open_own_connection_detail w b1 eq_refl)
        as [[E _] | (h & c & devs & d & Hp & _ & _ & _ & E)];
        destruct (open_own_connection w b1) as [b2 l2]; simpl in E; subst b2;
        eexists; exists l2; (split; [reflexivity|]);
        subst b1; simpl; repeat split; auto; congruence. }
  destruct Hb2 as (b2 & l2 & -> & Hlib & Huse & Hwh & Hfh & Hown & Hbor).
  destruct (device_handle b2) as [h|] eqn:Hdh.
  - pose proof (discover_and_claim_spec w h b2) as Hd. cbv zeta in Hd.
    destruct (discover_and_claim w h b2) as [[okd b3] l3]. simpl in Hd.
    destruct Hd as (eps & Hfail & Hok).
    intros E. injection E as -> <- _.
    assert (Eb : b3 = set_endpoints eps b2
                 \/ b3 = set_interface_claimed true (set_endpoints eps b2)).
    { destruct ok; [right; auto|left; apply Hfail; reflexivity]. }
    destruct eps as [[n o] i].
    destruct Eb as [-> | ->]; simpl; rewrite Hlib, Hdh;
      repeat split; auto; try discriminate;
      intros Hf; right; rewrite <- Hdh; auto.
  - intros E. injection E as _ <- _. simpl. rewrite Hdh.
    repeat split; auto;
      try (intros Ht; apply Hown in Ht; congruence);
      try (intros Hf; right; rewrite <- Hdh; auto).
Qed.

(** The cases of the fields the guards of [Close] read. *)
Ltac close_cases b :=
  unfold Switch2_BulkUSB_Close, Switch2_BulkUSB_CloseWinUSB, seq, when;
  destruct b as [lib dh owns ctx claimed num oep iep fh wh wop wip use];
  simpl;
  destruct SDL_PLATFORM_WIN32, use, wh, fh, claimed, lib, owns, dh, ctx;
  simpl.

(** What [Close] leaves in the native fields. *)
Lemma Close_native_state (b : Switch2_BulkUSB) :
  let b' := fst (Switch2_BulkUSB_Close b) in
  use_winusb b' = (if SDL_PLATFORM_WIN32 then false else use_winusb b)
  /\ winusb_handle b' =
     (if SDL_PLATFORM_WIN32 && use_winusb b then None else winusb_handle b)
  /\ winusb_file_handle b' =
     (if SDL_PLATFORM_WIN32 && use_winusb b
         && valid_handle (winusb_file_handle b)
      then NULL_HANDLE else winusb_file_handle b).
Proof. close_cases b; repeat split; reflexivity. Qed.

End OpenState.

(** X23.  After [Open], whatever its outcome, and [Close], the context
    records no runtime, no private context, no claim and no native session.
    Two fields keep what [Open] stored: [owns_device_handle], which [Close]
    never resets, and [device_handle] when the handle was the shared one. *)
Theorem Open_then_Close_state {hdr : Headers} (w : world) (fuel : nat)
    (b b' : Switch2_BulkUSB) (ok : bool) (l : list call) :
  unopened b ->
  Switch2_BulkUSB_Open w fuel b = Some (ok, b', l) ->
  let b'' := fst (Switch2_BulkUSB_Close b') in
  libusb b'' = None /\ libusb_ctx b'' = None /\ interface_claimed b'' = false
  /\ use_winusb b'' = false /\ winusb_handle b'' = None
  /\ winusb_file_handle b'' = NULL_HANDLE
  /\ owns_device_handle b'' = owns_device_handle b'
  /\ device_handle b'' =
     (if owns_device_handle b' then None else device_handle b')
  /\ (device_handle b'' = None \/ device_handle b'' = shared_handle w).
Proof.
  intros (Hl & Hh & Ho & Hc & Hi & Hu & Hwh & Hfh) H. cbv zeta.
  destruct (Close_state b') as (E1 & _ & E3 & E4 & E5 & E6).
  destruct (Close_native_state b') as (N1 & N2 & N3).
  rewrite E1, E3, E4, E5, E6, N1, N2, N3.
  apply Open_paths in H.
  destruct H as [(l1 & lf & HW & -> & -> & Hopen & Hflush)
                | (l1 & l2 & -> & Hn & Hnil & _ & Hgen)].
  - destruct (OpenWinUSB_success_detail _ _ _ _ Hopen)
      as (c & o & i & Hus & _ & ->).
    unfold usable in Hus. repeat (apply andb_true_iff in Hus;
                                  destruct Hus as [Hus ?]).
    simpl. rewrite HW, Hl, Hh, Ho, Hc, Hi. simpl.
    repeat split; auto.
    destruct (file c); simpl; auto; discriminate.
  - pose proof (Open_libusb_state w b b' ok l2 Ho Hc Hgen)
      as (S1 & S2 & S3 & S4 & S5).
    rewrite S1, S2, S3, Hu, Hwh, Hfh, andb_false_r. simpl.
    assert (Hclaim : interface_claimed b' = true -> libusb b' <> None).
    { intros Hcl. destruct ok.
      - apply Open_libusb_success in Hgen. tauto.
      - apply Open_libusb_failure in Hgen; auto.
        destruct Hgen as (E & _). congruence. }
    assert (Hctx : libusb_ctx b' <> None -> libusb b' <> None).
    { intros Hx. destruct ok.
      - apply Open_libusb_success in Hgen. tauto.
      - apply Open_libusb_failure in Hgen; auto.
        destruct Hgen as (_ & _ & [(_ & (_ & _ & E) & _) | (_ & E & _)]);
          congruence. }
    destruct (owns_device_handle b') eqn:Eo.
    + specialize (S4 eq_refl).
      destruct (libusb b'); [|congruence]. simpl.
      repeat split; auto. destruct SDL_PLATFORM_WIN32; reflexivity.
    + destruct (S5 eq_refl) as [Ed | Ed];
        destruct (libusb b') eqn:El; simpl;
        repeat split; auto;
        try (destruct SDL_PLATFORM_WIN32; reflexivity);
        try (destruct (interface_claimed b'); [exfalso; apply Hclaim; auto|];
             reflexivity);
        try (destruct (libusb_ctx b'); [exfalso; apply Hctx; auto; discriminate|];
             reflexivity);
        try (left; congruence).
Qed.

Lemma Open_then_Close_state_witness :
  device_handle (fst (@Switch2_BulkUSB_Close posix own_context)) = None
  /\ owns_device_handle (fst (@Switch2_BulkUSB_Close posix own_context))
     = true.
Proof.
  pose proof (@Open_then_Close_state posix own_world 0 inert own_context true
                _ unopened_inert eq_refl) as H.
  cbv zeta in H. destruct H as (_ & _ & _ & _ & _ & _ & H7 & H8 & _).
  split; [exact H8|exact H7].
Defined.

(** ** Open: the device list, and the transfers that follow *)

Lemma device_lists_freed_app (l1 l2 : list call) :
  device_lists_freed (l1 ++ l2)
  = (device_lists_freed l1 + device_lists_freed l2)%nat.
Proof. unfold device_lists_freed. rewrite filter_app. apply length_app. Qed.

Lemma native_calls_free_no_list (l : list call) :
  native_calls l -> device_lists_freed l = 0%nat.
Proof.
  unfold device_lists_freed. induction 1 as [|c l Hc _ IH]; [reflexivity|].
  simpl. destruct c; try discriminate; exact IH.
Qed.

Lemma open_matching_frees_no_list (vid pid : Z) :
  forall devs i,
    device_lists_freed (snd (open_matching vid pid devs i)) = 0%nat.
Proof.
  induction devs as [|d devs IH]; intros i; simpl; [reflexivity|].
  specialize (IH (S i)).
  destruct (open_matching vid pid devs (S i)) as [h cs]. simpl in IH.
  destruct (descriptor d) as [[v p]|]; simpl; [|exact IH].
  destruct ((v =? vid) && (p =? pid)); simpl; [|exact IH].
  destruct (opened d); simpl; [reflexivity|exact IH].
Qed.

Section DeviceList.
Context {hdr : Headers}.

Lemma discover_and_claim_frees_no_list (w : world) (h : address)
    (b : Switch2_BulkUSB) :
  device_lists_freed (snd (discover_and_claim w h b)) = 0%nat.
Proof.
  unfold discover_and_claim.
  destruct (Switch2_BulkUSB_FindEndpoints _ _ _ _) as [ok eps].
  destruct ok; simpl;
    [destruct (claim w h (interface_number (set_endpoints eps b)) <? 0)|];
    destruct (config w h); reflexivity.
Qed.

(** The generic path frees the device list exactly when it obtained it. *)
Lemma Open_libusb_frees_list (w : world) (b : Switch2_BulkUSB) :
  device_lists_freed (snd (Open_libusb w b)) =
  match runtime w, shared_handle w, private_context w, devices w with
  | Some _, None, Some _, Some _ => 1%nat
  | _, _, _, _ => 0%nat
  end.
Proof.
  unfold Open_libusb, InitLibUSB, when. simpl.
  destruct (runtime w) as [lib|]; simpl; [|reflexivity].
  set (b1 := set_device_handle (shared_handle w) (set_libusb (Some lib) b)).
  assert (Hb2 : exists b2 l2,
             (if negb (non_null (shared_handle w))
              then open_own_connection w b1 else (b1, [])) = (b2, l2)
             /\ device_lists_freed l2 =
                match shared_handle w, private_context w, devices w with
                | None, Some _, Some _ => 1%nat
                | _, _, _ => 0%nat
                end).
  { destruct (shared_handle w) as [h|] eqn:Hs; simpl.
    - exists b1, []. auto.
    - unfold open_own_connection.
      destruct (private_context w) as [usb_ctx|]; [|eauto].
      destruct (devices w) as [devs|].
      + pose proof (open_matching_frees_no_list (vendor_id w) (product_id w)
                      devs 0) as Hq.
        destruct (open_matching (vendor_id w) (product_id w) devs 0)
          as [h cs]. simpl in Hq.
        do 2 eexists. split; [reflexivity|].
        unfold device_lists_freed in *. destruct h; simpl;
          rewrite filter_app, length_app, Hq; reflexivity.
      + do 2 eexists. split; [reflexivity|]. reflexivity. }
  destruct Hb2 as (b2 & l2 & -> & Hl2).
  destruct (device_handle b2) as [h|].
  - pose proof (discover_and_claim_frees_no_list w h b2) as Hd.
    destruct (discover_and_claim w h b2) as [[ok b3] l3]. simpl in Hd.
    unfold device_lists_freed in *. simpl.
    rewrite filter_app, length_app, Hl2, Hd.
    destruct (shared_handle w), (private_context w), (devices w); reflexivity.
  - unfold device_lists_freed in *. simpl.
    rewrite filter_app, length_app, Hl2.
    destruct (shared_handle w), (private_context w), (devices w); reflexivity.
Qed.

End DeviceList.

(** X24.  The device list of an own connection is freed exactly once
    whenever it was obtained, whether a device was opened or not, and
    [free_device_list] is called in no other case. *)
Theorem Open_frees_device_list {hdr : Headers} (w : world) (fuel : nat)
    (b b' : Switch2_BulkUSB) (ok : bool) (l : list call) :
  unopened b ->
  Switch2_BulkUSB_Open w fuel b = Some (ok, b', l) ->
  device_lists_freed l =
  if use_winusb b' then 0%nat
  else match runtime w, shared_handle w, private_context w, devices w with
       | Some _, None, Some _, Some _ => 1%nat
       | _, _, _, _ => 0%nat
       end.
Proof.
  intros (Hl & Hh & Ho & Hc & Hi & Hu & Hwh & Hfh) H.
  apply Open_paths in H.
  destruct H as [(l1 & lf & _ & -> & -> & Hopen & Hflush)
                | (l1 & l2 & -> & Hn & _ & _ & Hgen)].
  - pose proof (OpenWinUSB_native (devinfo w) b) as Hn1.
    pose proof (OpenWinUSB_spec (devinfo w) b) as Hspec. cbv zeta in Hspec.
    rewrite Hopen in Hn1, Hspec. simpl in Hn1, Hspec.
    destruct Hspec as (_ & _ & Ht). destruct (Ht eq_refl) as (-> & _).
    apply FlushWinUSB_native in Hflush.
    rewrite device_lists_freed_app, !native_calls_free_no_list by assumption.
    reflexivity.
  - pose proof (Open_libusb_frees_list w b) as Hf. rewrite Hgen in Hf.
    simpl in Hf.
    pose proof (Open_libusb_state w b b' ok l2 Ho Hc Hgen) as (-> & _).
    rewrite Hu, device_lists_freed_app, (native_calls_free_no_list l1 Hn).
    exact Hf.
Qed.

Lemma Open_frees_device_list_witness :
  exists l,
    @Switch2_BulkUSB_Open posix no_device_world 0 inert = Some (false, inert, l)
    /\ device_lists_freed l = 1%nat.
Proof.
  eexists. split; [reflexivity|].
  apply (@Open_frees_device_list posix no_device_world 0 inert inert false _
           unopened_inert eq_refl).
Defined.

Section Transfers.
Context {hdr : Headers}.

(** The pipes a successful native [Open] recorded. *)
Lemma Open_native_pipes (w : world) (fuel : nat) (b b' : Switch2_BulkUSB)
    (l : list call) :
  unopened b ->
  Switch2_BulkUSB_Open w fuel b = Some (true, b', l) ->
  use_winusb b' = true ->
  SDL_PLATFORM_WIN32 = true
  /\ Z.land (winusb_out_pipe b') 128 = 0
  /\ Z.land (winusb_in_pipe b') 128 <> 0.
Proof.
  intros Hb H Huse. pose proof Hb as (Hl & Hh & Ho & Hc & Hi & Hu & Hwh & Hfh).
  apply Open_paths in H.
  destruct H as [(l1 & lf & HW & _ & -> & Hopen & Hflush)
                | (l1 & l2 & -> & Hn & _ & _ & Hgen)].
  - destruct (OpenWinUSB_success_detail _ _ _ _ Hopen)
      as (c & o & i & _ & Hp & ->).
    apply picked_pipes_directions in Hp. simpl. tauto.
  - apply Open_libusb_success in Hgen. destruct Hgen as (_ & _ & _ & E).
    congruence.
Qed.

End Transfers.

(** X25.  After a successful [Open], transfers go where discovery pointed.
    On the generic path every call of a write is a transfer on the recorded
    device handle to a bulk OUT endpoint of interface 1 of that device, and
    every call of a read a transfer from a bulk IN endpoint of it.  On the
    native path a write names only a pipe whose id has bit 7 clear, a read
    only a pipe whose id has bit 7 set. *)
Theorem Open_then_transfers {hdr : Headers} (w : world) (fuel : nat)
    (b b' : Switch2_BulkUSB) (l : list call) :
  unopened b ->
  Switch2_BulkUSB_Open w fuel b = Some (true, b', l) ->
  if use_winusb b' then
    (forall usb win size timeout_ms c p,
        In c (snd (Switch2_BulkUSB_Write usb win b' size timeout_ms)) ->
        pipe_of c = Some p -> Z.land p 128 = 0)
    /\ (forall usb win fuel' size m r c p,
          Switch2_BulkUSB_Read usb win fuel' b' size m = Some r ->
          In c (snd r) -> pipe_of c = Some p -> Z.land p 128 <> 0)
  else
    exists h cfg eo ei,
      device_handle b' = Some h /\ config w h = Some cfg
      /\ In eo (interface1_endpoints cfg) /\ bulk_out eo = true
      /\ In ei (interface1_endpoints cfg) /\ bulk_in ei = true
      /\ (forall usb win size timeout_ms,
            Forall (transfer_on (Some h) (bEndpointAddress eo))
              (snd (Switch2_BulkUSB_Write usb win b' size timeout_ms)))
      /\ (forall usb win fuel' size m r,
            Switch2_BulkUSB_Read usb win fuel' b' size m = Some r ->
            Forall (transfer_on (Some h) (bEndpointAddress ei)) (snd r)).
Proof.
  intros Hb H. pose proof (Open_succeeded w fuel b b' l Hb H) as Hs.
  destruct (use_winusb b') eqn:Huse.
  - destruct (Open_native_pipes w fuel b b' l Hb H Huse) as (HW & Ho & Hi).
    split.
    + intros usb win size timeout_ms c p.
      unfold Switch2_BulkUSB_Write. rewrite HW, Huse. simpl.
      unfold Switch2_BulkUSB_WinUSB_Write.
      destruct (event win);
        try (destruct (pipe_ok win);
             [|destruct (last_error win =? ERROR_IO_PENDING);
               [destruct (wait win =? WAIT_OBJECT_0)|]]);
        simpl; intros Hin Hp;
        repeat match goal with
               | H : _ \/ _ |- _ => destruct H as [H | H]
               | H : False |- _ => destruct H
               end; subst c; simpl in Hp; try discriminate;
        injection Hp as <-; exact Ho.
    + intros usb win fuel' size m [[v m'] calls] c p Hr Hin Hp.
      unfold Switch2_BulkUSB_Read in Hr. rewrite HW, Huse in Hr. simpl in Hr.
      apply WinUSB_Read_loop_calls in Hr. destruct Hr as [_ Hr].
      rewrite Forall_forall in Hr. specialize (Hr c Hin).
      destruct c; simpl in Hp; try discriminate; injection Hp as <-;
        simpl in Hr; try contradiction; destruct Hr as [_ ->]; exact Hi.
  - destruct Hs as (_ & _ & _ & _ & _ & _ & _ & h & cfg & eo & ei & Hd & Hcfg
                    & _ & Heo & Hbo & Hoe & Hei & Hbi & Hie & _).
    exists h, cfg, eo, ei. repeat split; auto.
    + intros usb win size timeout_ms. unfold Switch2_BulkUSB_Write.
      rewrite Huse, andb_false_r, Hd, Hoe. repeat constructor.
    + intros usb win fuel' size m [[v m'] calls] Hr.
      unfold Switch2_BulkUSB_Read in Hr. rewrite Huse, andb_false_r in Hr.
      apply libusb_Read_loop_calls in Hr. simpl. revert Hr.
      apply Forall_impl. intros c Hcall.
      destruct c; simpl in Hcall; try contradiction.
      simpl. rewrite <- Hd, <- Hie. tauto.
Qed.

Lemma Open_then_transfers_witness :
  exists eo ei,
    In eo (interface1_endpoints composite_config) /\ @bulk_out posix eo = true
    /\ In ei (interface1_endpoints composite_config)
    /\ @bulk_in posix ei = true
    /\ Forall (transfer_on (Some 4%nat) (bEndpointAddress eo))
         (snd (@Switch2_BulkUSB_Write posix usb_completes_20 win_completes_20
                 own_context 20 250)).
Proof.
  pose proof (@Open_then_transfers posix own_world 0 inert own_context _
                unopened_inert eq_refl) as H.
  simpl use_winusb in H. cbv iota in H.
  destruct H as (h & cfg & eo & ei & Hd & Hcfg & Heo & Hbo & Hei & Hbi & Hw
                 & _).
  injection Hd as <-. injection Hcfg as <-.
  exists eo, ei. repeat split; auto.
Defined.
